(** * llm_goer: the dispatch core of the Azure OpenAI proxy

    A shallow embedding of the Go sources of the proxy's dispatch core
    (errors, rate limiter, instance state, selector, request transformer and
    proxy handler), followed by the properties of the specification that
    are settled against it.

    Conventions of the embedding.
    - Go's [int] and [int64] are 64-bit two's-complement integers: they are
      values of [Z], and every addition and subtraction of the source is
      written with its wrap-around ([GoInt.add64], [GoInt.sub64]).
    - Go's [float64] is Rocq's primitive binary64 float.
    - [map[string]interface{}] is a [gmap string Value]; slices are lists.
    - The wall clock, the coordination store's availability, the random
      draw, the token estimators, the JSON codec and the upstream HTTP
      exchange are inputs of the functions that consult them.
    - A function that can panic returns a value that says so. *)

From Stdlib Require Import ZArith List Lia Bool Ascii String Floats Sorted Permutation.
From stdpp Require Import gmap strings list pretty.

Open Scope Z_scope.

(* ===================================================================== *)
(** ** Machine integers *)
(* ===================================================================== *)

Module GoInt.

Definition min_int64 : Z := - 2 ^ 63.
Definition max_int64 : Z := 2 ^ 63 - 1.

Definition in_int64 (z : Z) : bool := (min_int64 <=? z) && (z <=? max_int64).

(** Reduction of a mathematical integer to its 64-bit two's-complement
    representative. *)
Definition wrap64 (z : Z) : Z := (z + 2 ^ 63) mod 2 ^ 64 - 2 ^ 63.

Definition add64 (a b : Z) : Z := wrap64 (a + b).
Definition sub64 (a b : Z) : Z := wrap64 (a - b).
Definition neg64 (a : Z) : Z := wrap64 (- a).

(** [float64(n)] for an integer [n]: rounding to nearest, ties to even. *)
Definition to_float64 (z : Z) : float :=
  SF2Prim (SpecFloat.binary_normalize 53 1024 z 0 false).

(** [int(f)] for a finite [f] within the integer range: truncation toward
    zero.  Outside that range Go leaves the result to the implementation;
    the embedding follows amd64, which yields the smallest integer. *)
Definition of_float64 (f : float) : Z :=
  match Prim2SF f with
  | SpecFloat.S754_zero _ => 0
  | SpecFloat.S754_finite s m e =>
      let a := if 0 <=? e then Z.shiftl (Zpos m) e else Z.shiftr (Zpos m) (- e) in
      let v := if s then - a else a in
      if in_int64 v then v else min_int64
  | _ => min_int64
  end.

End GoInt.

(* ===================================================================== *)
(** ** The parts of Go's [strings] and [strconv] the core relies on *)
(* ===================================================================== *)

Module GoStrings.

Definition is_upper (c : ascii) : bool :=
  let n := N_of_ascii c in ((65 <=? n) && (n <=? 90))%N.

Definition lower_ascii (c : ascii) : ascii :=
  if is_upper c then ascii_of_N (N_of_ascii c + 32) else c.

(** [strings.ToLower] on the ASCII range; bytes above 127 are kept. *)
Fixpoint ToLower (s : string) : string :=
  match s with
  | EmptyString => EmptyString
  | String c r => String (lower_ascii c) (ToLower r)
  end.

Fixpoint HasPrefix (s p : string) : bool :=
  match p, s with
  | EmptyString, _ => true
  | String _ _, EmptyString => false
  | String a p', String b s' => if Ascii.eqb a b then HasPrefix s' p' else false
  end.

(** [strings.Contains s sub]. *)
Fixpoint Contains (s sub : string) : bool :=
  HasPrefix s sub ||
  match s with
  | EmptyString => false
  | String _ r => Contains r sub
  end.

(** [strings.Split(s, ":")[0]]: the bytes before the first colon, the whole
    string when it has none. *)
Fixpoint before_colon (s : string) : string :=
  match s with
  | EmptyString => EmptyString
  | String c r => if Ascii.eqb c ":"%char then EmptyString else String c (before_colon r)
  end.

Definition digit_of (c : ascii) : option Z :=
  let n := Z.of_N (N_of_ascii c) in
  if (48 <=? n) && (n <=? 57) then Some (n - 48) else None.

Fixpoint parse_digits (acc : Z) (s : string) : option Z :=
  match s with
  | EmptyString => Some acc
  | String c r =>
      match digit_of c with
      | None => None
      | Some d => parse_digits (acc * 10 + d) r
      end
  end.

(** [strconv.Atoi]: an optional sign and at least one decimal digit; a
    value outside the 64-bit range is an error, as is any other byte. *)
Definition Atoi (s : string) : option Z :=
  match s with
  | EmptyString => None
  | String c r =>
      let neg := Ascii.eqb c "-"%char in
      let body := if neg || Ascii.eqb c "+"%char then r else s in
      match body with
      | EmptyString => None
      | _ =>
          match parse_digits 0 body with
          | None => None
          | Some n =>
              let v := if neg then - n else n in
              if GoInt.in_int64 v then Some v else None
          end
      end
  end.

End GoStrings.

(* ===================================================================== *)
(** ** utils: the sliding-window rate limiter *)
(* ===================================================================== *)

Module RateLimit.
Import GoInt GoStrings.

(** One member of the sorted set [instance:rate_limit:window:<name>].  The
    score is written as [float64(time.Now().Unix())] and read back with
    [int64(entry.Score)]; unix seconds are exactly representable, so the
    score is kept as the integer it stands for. *)
Record ZEntry := mkZ { Score : Z; Member : string }.

Record RateLimiter := mkRateLimiter {
  instanceID : string;
  tokensPerMinute : Z;
  maxInputTokens : Z;
  windowSeconds : Z;
  redisKey : string
}.

(** [NewRateLimiter] once the connection test has succeeded. *)
Definition NewRateLimiter (id : string) (tpm maxInput : Z) : RateLimiter :=
  mkRateLimiter id tpm maxInput 60 ("instance:rate_limit:window:" +:+ id).

(** How the coordination store answers the two-command pipeline
    (evict, then range-read) of one call. *)
Inductive PipeFault :=
| Healthy        (* both commands succeed *)
| Down           (* the store is unreachable: nothing is executed *)
| ReadFails.     (* the eviction is applied, the range-read fails *)

Record Redis := mkRedis {
  zsets : gmap string (list ZEntry);
  fault : PipeFault
}.

Definition zset (r : Redis) (key : string) : list ZEntry :=
  default [] (zsets r !! key).

(** [ZREMRANGEBYSCORE key -inf cutoff]: the members that stay. *)
Definition ZRemRangeByScore (cutoff : Z) (w : list ZEntry) : list ZEntry :=
  List.filter (fun e => cutoff <? Score e) w.

(** [pipe.Exec]: the entries read, or an error, and the store afterwards. *)
Definition pipeline_exec (r : Redis) (key : string) (cutoff : Z)
  : option (list ZEntry) * Redis :=
  match fault r with
  | Down => (None, r)
  | ReadFails =>
      (None, mkRedis (<[key := ZRemRangeByScore cutoff (zset r key)]> (zsets r)) (fault r))
  | Healthy =>
      let w := ZRemRangeByScore cutoff (zset r key) in
      (Some w, mkRedis (<[key := w]> (zsets r)) (fault r))
  end.

(** The body of the loop over the entries read: the accumulator is
    [(currentUsage, oldestTime)]; an entry whose token part does not parse
    is skipped whole. *)
Definition capacity_step (acc : Z * Z) (e : ZEntry) : Z * Z :=
  match Atoi (before_colon (Member e)) with
  | None => acc
  | Some tokenCount =>
      (add64 (fst acc) tokenCount,
       if Score e <? snd acc then Score e else snd acc)
  end.

(** What [CheckCapacity] returns: admission, retry-after seconds, error. *)
Record Capacity := mkCapacity {
  has_capacity : bool;
  retry_after : Z;
  cap_err : option string
}.

Definition CheckCapacity (rl : RateLimiter) (now : Z) (r : Redis) (tokens : Z)
  : Capacity * Redis :=
  if (0 <? maxInputTokens rl) && (maxInputTokens rl <? tokens) then
    (mkCapacity false 60 None, r)
  else
    let currentTime := now in
    let cutoff := sub64 currentTime (windowSeconds rl) in
    match pipeline_exec r (redisKey rl) cutoff with
    | (None, r') => (mkCapacity true 0 None, r')
    | (Some entries, r') =>
        let '(currentUsage, oldestTime) :=
          fold_left capacity_step entries (0, currentTime) in
        if tokensPerMinute rl <? add64 currentUsage tokens then
          let retryAfter := sub64 oldestTime cutoff in
          (mkCapacity false (if retryAfter <? 1 then 1 else retryAfter) None, r')
        else
          (mkCapacity true 0 None, r')
    end.

(** [UpdateUsage]: one pipeline adding the member [<tokens>:<nanos>] with
    score [now] and evicting old entries; the error surfaces. *)
Definition usage_member (tokens nanos : Z) : string :=
  pretty tokens +:+ ":" +:+ pretty nanos.

Definition UpdateUsage (rl : RateLimiter) (now nanos : Z) (r : Redis) (tokens : Z)
  : option string * Redis :=
  match fault r with
  | Healthy =>
      let w := zset r (redisKey rl) ++ [mkZ now (usage_member tokens nanos)] in
      let cutoff := sub64 now (windowSeconds rl) in
      (None, mkRedis (<[redisKey rl := ZRemRangeByScore cutoff w]> (zsets r)) (fault r))
  | _ => (Some "failed to update usage", r)
  end.

(** The loop of [GetCurrentUsage]: members that do not parse are skipped. *)
Definition current_usage_step (currentUsage : Z) (e : ZEntry) : Z :=
  match Atoi (before_colon (Member e)) with
  | None => currentUsage
  | Some tokens => add64 currentUsage tokens
  end.

(** [GetCurrentUsage]: two commands sent one after the other, each of
    whose errors is returned. *)
Definition GetCurrentUsage (rl : RateLimiter) (now : Z) (r : Redis)
  : (Z + string) * Redis :=
  let cutoff := sub64 now (windowSeconds rl) in
  match fault r with
  | Down => (inr "failed to clean old entries", r)
  | ReadFails =>
      (inr "failed to get entries",
       mkRedis (<[redisKey rl := ZRemRangeByScore cutoff (zset r (redisKey rl))]> (zsets r))
               (fault r))
  | Healthy =>
      let entries := ZRemRangeByScore cutoff (zset r (redisKey rl)) in
      (inl (fold_left current_usage_step entries 0),
       mkRedis (<[redisKey rl := entries]> (zsets r)) (fault r))
  end.

(** [Reset]: the window key is deleted. *)
Definition Reset (rl : RateLimiter) (r : Redis) : option string * Redis :=
  match fault r with
  | Healthy => (None, mkRedis (delete (redisKey rl) (zsets r)) (fault r))
  | _ => (Some "failed to reset rate limiter", r)
  end.

Definition mul64 (a b : Z) : Z := wrap64 (a * b).

(** What [GetUsageStats] returns; [time_slots] maps the start of a
    ten-second slot to the tokens recorded in it. *)
Record UsageStats := mkStats {
  total_tokens : Z;
  total_requests : Z;
  tokens_per_minute : Z;
  max_input_tokens : Z;
  utilization_percent : float;
  window_seconds : Z;
  time_slots : gmap Z Z;
  cutoff_time : Z;
  current_time : Z
}.

Definition stats_step (acc : Z * gmap Z Z) (e : ZEntry) : Z * gmap Z Z :=
  match Atoi (before_colon (Member e)) with
  | None => acc
  | Some tokens =>
      let timeSlot := mul64 (Z.quot (Score e) 10) 10 in
      (add64 (fst acc) tokens,
       <[timeSlot := add64 (default 0 (snd acc !! timeSlot)) tokens]> (snd acc))
  end.

(** [GetUsageStats] reads the window as it is stored: nothing is evicted. *)
Definition GetUsageStats (rl : RateLimiter) (now : Z) (r : Redis) : UsageStats + string :=
  match fault r with
  | Healthy =>
      let entries := zset r (redisKey rl) in
      let '(totalTokens, timeSlots) := fold_left stats_step entries (0, ∅) in
      inl (mkStats totalTokens (Z.of_nat (length entries))
             (tokensPerMinute rl) (maxInputTokens rl)
             (PrimFloat.mul
                (PrimFloat.div (to_float64 totalTokens) (to_float64 (tokensPerMinute rl)))
                100%float)
             (windowSeconds rl) timeSlots
             (sub64 now (windowSeconds rl)) now)
  | _ => inr "failed to get usage stats"
  end.

Definition SetLimits (rl : RateLimiter) (tpm maxInput : Z) : RateLimiter :=
  mkRateLimiter (instanceID rl) tpm maxInput (windowSeconds rl) (redisKey rl).

Definition GetLimits (rl : RateLimiter) : Z * Z := (tokensPerMinute rl, maxInputTokens rl).

(** [IsRateLimited] and [GetTimeUntilAvailable]; the error they test for
    is the one [CheckCapacity] returns. *)
Definition IsRateLimited (rl : RateLimiter) (now : Z) (r : Redis) (tokens : Z)
  : (bool + string) * Redis :=
  let '(c, r') := CheckCapacity rl now r tokens in
  match cap_err c with
  | Some err => (inr err, r')
  | None => (inl (negb (has_capacity c)), r')
  end.

Definition GetTimeUntilAvailable (rl : RateLimiter) (now : Z) (r : Redis) (tokens : Z)
  : (Z + string) * Redis :=
  let '(c, r') := CheckCapacity rl now r tokens in
  match cap_err c with
  | Some err => (inr err, r')
  | None => (inl (if has_capacity c then 0 else retry_after c), r')
  end.

End RateLimit.

(* ===================================================================== *)
(** ** config: instance configuration and runtime state *)
(* ===================================================================== *)

Module Config.
Import GoInt.

(** A value held in an [interface{}]: what [encoding/json] decodes a
    document to, plus the Go [int]s the core stores itself. *)
#[local] Set Warnings "-register-all".
Inductive Value :=
| VNil
| VBool (b : bool)
| VFloat (f : float)
| VInt (z : Z)
| VString (s : string)
| VSlice (l : list Value)
| VMap (m : gmap string Value).

Definition StatusHealthy : string := "healthy".
Definition StatusRateLimited : string := "rate_limited".
Definition StatusError : string := "error".

(** [InstanceConfig]; the outbound proxy URL, the timeout and the retry
    count play no part in dispatch decisions and are left out. *)
Record InstanceConfig := mkConfig {
  Name : string;
  ProviderType : string;
  APIKey : string;
  APIBase : string;
  APIVersion : string;
  Priority : Z;
  Weight : Z;
  MaxTPM : Z;
  MaxInputTokens : Z;
  SupportedModels : list string;
  ModelDeployments : gmap string string;
  Enabled : bool;
  RateLimitEnabled : bool
}.

(** [InstanceState], restricted to the fields the dispatch core reads or
    writes; the per-class windows and derived rates are never touched by
    it. *)
Record InstanceState := mkState {
  StName : string;
  Status : string;
  HealthStatus : string;
  ConnectionStatus : string;
  ErrorCount : Z;
  LastError : option string;
  LastErrorTime : option Z;
  TotalErrors500 : Z;
  TotalErrors503 : Z;
  TotalOtherErrors : Z;
  TotalRequests : Z;
  SuccessfulRequests : Z;
  TotalTokensServed : Z;
  AvgLatencyMs : option float;
  LastUsed : Z
}.

Definition IsHealthy (s : InstanceState) : bool := String.eqb (Status s) StatusHealthy.

Definition NewInstanceState (name : string) (now : Z) : InstanceState :=
  {| StName := name; Status := StatusHealthy;
     HealthStatus := "unknown"; ConnectionStatus := "unknown";
     ErrorCount := 0; LastError := None; LastErrorTime := None;
     TotalErrors500 := 0; TotalErrors503 := 0; TotalOtherErrors := 0;
     TotalRequests := 0; SuccessfulRequests := 0; TotalTokensServed := 0;
     AvgLatencyMs := None; LastUsed := now |}.

(** A [time.Time] is kept as its unix nanoseconds; [Unix] gives seconds. *)
Definition Unix (t : Z) : Z := t / 1000000000.

(** [time.Duration.Milliseconds]: nanoseconds to whole milliseconds. *)
Definition Milliseconds (d : Z) : Z := Z.quot d 1000000.

End Config.

(* ===================================================================== *)
(** ** errors: the proxy's error values *)
(* ===================================================================== *)

Module Errors.
Import GoInt Config.

Inductive ErrorType :=
| ErrorTypeClient | ErrorTypeUpstream | ErrorTypeInstance | ErrorTypeInternal.

Definition ErrorType_string (t : ErrorType) : string :=
  match t with
  | ErrorTypeClient => "client_error"
  | ErrorTypeUpstream => "upstream_error"
  | ErrorTypeInstance => "instance_error"
  | ErrorTypeInternal => "internal_error"
  end.

(** [Details] is [None] for a nil map. *)
Record ProxyError := mkProxyError {
  Type_ : ErrorType;
  Message : string;
  StatusCode : Z;
  Details : option (gmap string Value);
  Timestamp : Z
}.

Definition NewClientError (now : Z) (message : string) (statusCode : Z)
  (details : gmap string Value) : ProxyError :=
  mkProxyError ErrorTypeClient message statusCode (Some details) now.

Definition NewUpstreamError (now : Z) (message : string) (statusCode : Z)
  (details : gmap string Value) : ProxyError :=
  mkProxyError ErrorTypeUpstream message statusCode (Some details) now.

Definition NewInstanceError (now : Z) (message : string)
  (details : gmap string Value) : ProxyError :=
  mkProxyError ErrorTypeInstance message 503 (Some details) now.

Definition NewInternalError (now : Z) (message : string)
  (details : gmap string Value) : ProxyError :=
  mkProxyError ErrorTypeInternal message 500 (Some details) now.

Definition GetRetryAfter (e : ProxyError) : Z :=
  match Details e with
  | None => 0
  | Some d =>
      match d !! "retry_after" with
      | Some (VInt retryAfter) => retryAfter
      | Some (VFloat retryAfter) => of_float64 retryAfter
      | _ => 0
      end
  end.

(** [ClassifyError]. *)
Definition ClassifyError (statusCode : Z) (source : string) : ErrorType :=
  if (400 <=? statusCode) && (statusCode <? 500) then
    if String.eqb source "upstream" then ErrorTypeUpstream else ErrorTypeClient
  else if 500 <=? statusCode then
    if String.eqb source "upstream" then ErrorTypeUpstream else ErrorTypeInstance
  else ErrorTypeInternal.

(** [IsRetryable]. *)
Definition IsRetryable (e : ProxyError) : bool :=
  match Type_ e with
  | ErrorTypeUpstream => (500 <=? StatusCode e) || (StatusCode e =? 429)
  | ErrorTypeInstance => true
  | ErrorTypeInternal => 500 <=? StatusCode e
  | ErrorTypeClient => false
  end.

End Errors.

(* ===================================================================== *)
(** ** storage: the state store *)
(* ===================================================================== *)

Module Storage.
Import Config.

(** The Redis-backed [StateStore]: the blobs under
    [proxy:instance:state:<name>], and whether the server answers. *)
Record StateStore := mkStore {
  states : gmap string InstanceState;
  store_up : bool
}.

(** [Get]: a missing key yields a fresh state, a failing store an error.
    A blob that is present decodes: the store holds what [Set] encoded. *)
Definition Get (st : StateStore) (now : Z) (instanceName : string)
  : option InstanceState :=
  if store_up st then
    Some (default (NewInstanceState instanceName now) (states st !! instanceName))
  else None.

(** [Set]: [None] is success, as a nil error is. *)
Definition Set_ (st : StateStore) (instanceName : string) (s : InstanceState)
  : option string * StateStore :=
  if store_up st then
    (None, mkStore (<[instanceName := s]> (states st)) (store_up st))
  else (Some "failed to set instance state in Redis", st).

Definition Delete (st : StateStore) (instanceName : string)
  : option string * StateStore :=
  if store_up st then
    (None, mkStore (delete instanceName (states st)) (store_up st))
  else (Some "failed to delete instance state from Redis", st).

End Storage.

(* ===================================================================== *)
(** ** Go's [sort.Slice] *)
(* ===================================================================== *)

Module GoSort.

Section Slice.
Context {A : Type}.
Variable less : A -> A -> bool.

(** One pass of the inner loop of [insertionSortLessFunc]: the new element
    moves left past every neighbour it is less than.  The sorted prefix is
    held last element first. *)
Fixpoint insert_left (x : A) (rprefix : list A) : list A :=
  match rprefix with
  | [] => [x]
  | y :: rest => if less x y then y :: insert_left x rest else x :: rprefix
  end.

Definition insertionSort (l : list A) : list A :=
  rev (fold_left (fun rprefix x => insert_left x rprefix) l []).

(** [sort.Slice] (Go 1.21): slices of at most twelve elements are sorted by
    insertion; longer ones by pattern-defeating quicksort, which is not
    stable and is taken as the function [pdq]. *)
Variable pdq : list A -> list A.

Definition Slice (l : list A) : list A :=
  if (length l <=? 12)%nat then insertionSort l else pdq l.

End Slice.

End GoSort.

(* ===================================================================== *)
(** ** instance: manager and selector *)
(* ===================================================================== *)

Module Instance.
Import GoInt GoStrings RateLimit Config Storage.

(** The outcome of a Go call that may return an error or panic. *)
Inductive result (A : Type) :=
| Ok (a : A)
| Error (msg : string)
| Panic.
Arguments Ok {A} a.
Arguments Error {A} msg.
Arguments Panic {A}.

Record Manager := mkManager {
  configs : list InstanceConfig;
  routingStrategy : string;
  rateLimiters : gmap string RateLimiter
}.

(** [NewManager], every limiter's connection test having succeeded: one
    limiter per instance that is enabled with rate limiting enabled. *)
Definition NewManager (instances : list InstanceConfig) (strategy : string) : Manager :=
  mkManager instances strategy
    (fold_left
       (fun m instance =>
          if Enabled instance && RateLimitEnabled instance then
            <[Name instance :=
                NewRateLimiter (Name instance) (MaxTPM instance) (MaxInputTokens instance)]> m
          else m)
       instances ∅).

(** Throughout, [now] is the reading of the clock ([time.Now()]), taken as
    one value for the duration of a request.

    What a request acts on: the state store, the limiter's store, and the
    record of the [(instance, tokens)] arguments [CheckRateLimit] was
    called with, oldest first. *)
Record World := mkWorld {
  store : StateStore;
  redis : Redis;
  limiter_calls : list (string * Z)
}.

Definition GetInstanceState (w : World) (now : Z) (instanceName : string)
  : option InstanceState :=
  Get (store w) now instanceName.

Definition UpdateInstanceState (w : World) (instanceName : string) (s : InstanceState)
  : option string * World :=
  let '(err, st) := Set_ (store w) instanceName s in
  (err, mkWorld st (redis w) (limiter_calls w)).

Definition CheckRateLimit (m : Manager) (now : Z) (w : World)
  (instanceName : string) (tokens : Z) : (bool * option string) * World :=
  let calls := limiter_calls w ++ [(instanceName, tokens)] in
  match rateLimiters m !! instanceName with
  | None => ((true, None), mkWorld (store w) (redis w) calls)
  | Some rateLimiter =>
      let '(c, r) := CheckCapacity rateLimiter (Unix now) (redis w) tokens in
      ((has_capacity c, cap_err c), mkWorld (store w) r calls)
  end.

Definition UpdateUsage (m : Manager) (now : Z) (w : World)
  (instanceName : string) (tokens : Z) : option string * World :=
  match rateLimiters m !! instanceName with
  | None => (None, w)
  | Some rateLimiter =>
      let '(err, r) := RateLimit.UpdateUsage rateLimiter (Unix now) now (redis w) tokens in
      (err, mkWorld (store w) r (limiter_calls w))
  end.

Definition GetInstanceConfig (m : Manager) (instanceName : string)
  : option InstanceConfig :=
  List.find (fun cfg => String.eqb (Name cfg) instanceName) (configs m).

(** [healthCheckResult]; [latency] is a duration in nanoseconds. *)
Record healthCheckResult := mkHealth {
  instanceName : string;
  isHealthy : bool;
  latency : Z;
  error : option string
}.

(** The probe is a stub in the source: it reports healthy after 50 ms. *)
Definition performSingleHealthCheck (cfg : InstanceConfig) : healthCheckResult :=
  mkHealth (Name cfg) true (50 * 1000000) None.

(** The assignments [updateInstanceHealth] makes to the state it read. *)
Definition health_step (now : Z) (result : healthCheckResult) (state : InstanceState)
  : InstanceState :=
  if isHealthy result then
    {| StName := StName state; Status := StatusHealthy;
       HealthStatus := "healthy"; ConnectionStatus := "connected";
       ErrorCount := ErrorCount state; LastError := LastError state;
       LastErrorTime := LastErrorTime state;
       TotalErrors500 := TotalErrors500 state; TotalErrors503 := TotalErrors503 state;
       TotalOtherErrors := TotalOtherErrors state;
       TotalRequests := TotalRequests state;
       SuccessfulRequests := SuccessfulRequests state;
       TotalTokensServed := TotalTokensServed state;
       AvgLatencyMs := Some (to_float64 (Milliseconds (latency result)));
       LastUsed := LastUsed state |}
  else
    {| StName := StName state; Status := StatusError;
       HealthStatus := "unhealthy"; ConnectionStatus := "disconnected";
       ErrorCount := ErrorCount state;
       LastError := match error result with Some msg => Some msg | None => LastError state end;
       LastErrorTime :=
         match error result with Some _ => Some (Unix now) | None => LastErrorTime state end;
       TotalErrors500 := TotalErrors500 state; TotalErrors503 := TotalErrors503 state;
       TotalOtherErrors := TotalOtherErrors state;
       TotalRequests := TotalRequests state;
       SuccessfulRequests := SuccessfulRequests state;
       TotalTokensServed := TotalTokensServed state;
       AvgLatencyMs := AvgLatencyMs state;
       LastUsed := LastUsed state |}.

Definition updateInstanceHealth (now : Z) (w : World) (result : healthCheckResult) : World :=
  match GetInstanceState w now (instanceName result) with
  | None => w
  | Some state =>
      snd (UpdateInstanceState w (instanceName result) (health_step now result state))
  end.

(** One sweep of the health monitor.  The workers probe concurrently; the
    results are applied one at a time, here in configuration order. *)
Definition performHealthChecks (m : Manager) (now : Z) (w : World) : World :=
  fold_left (fun w cfg => updateInstanceHealth now w (performSingleHealthCheck cfg))
            (configs m) w.

Record instanceWithState := mkIWS {
  Cfg : InstanceConfig;
  State : InstanceState
}.

(** The capability tests of the first loop of [SelectInstanceForRequest],
    in source order; [true] when the configuration is kept. *)
Definition capable (model : string) (tokens : Z) (providerType : string)
  (cfg : InstanceConfig) : bool :=
  if negb (Enabled cfg) then false
  else if negb (String.eqb providerType "") &&
          negb (String.eqb (ProviderType cfg) providerType) then false
  else if negb (existsb (fun supportedModel =>
                           String.eqb (ToLower supportedModel) (ToLower model))
                        (SupportedModels cfg)) then false
  else if MaxTPM cfg <? tokens then false
  else true.

(** The body of the second loop: state lookup, health test, admission. *)
Definition eligible_step (m : Manager) (now tokens : Z)
  (acc : list instanceWithState * World) (cfg : InstanceConfig)
  : list instanceWithState * World :=
  let '(eligibleInstances, w) := acc in
  match GetInstanceState w now (Name cfg) with
  | None => acc
  | Some state =>
      if negb (IsHealthy state) then acc
      else
        let '((hasCapacity, err), w') := CheckRateLimit m now w (Name cfg) tokens in
        match err with
        | Some _ => (eligibleInstances, w')
        | None =>
            if negb hasCapacity then (eligibleInstances, w')
            else (eligibleInstances ++ [mkIWS cfg state], w')
        end
  end.

Definition head_name (l : list instanceWithState) : option string :=
  match l with
  | [] => None
  | i :: _ => Some (Name (Cfg i))
  end.


(** [ResetInstance]: the stored state is deleted, then the limiter's
    window if the instance has a limiter. *)
Definition ResetInstance (m : Manager) (w : World) (instanceName : string)
  : option string * World :=
  match Delete (store w) instanceName with
  | (Some _, _) => (Some "failed to reset instance state", w)
  | (None, st) =>
      let w1 := mkWorld st (redis w) (limiter_calls w) in
      match rateLimiters m !! instanceName with
      | None => (None, w1)
      | Some rateLimiter =>
          match RateLimit.Reset rateLimiter (redis w) with
          | (Some _, _) => (Some "failed to reset rate limiter", w1)
          | (None, r) => (None, mkWorld st r (limiter_calls w))
          end
      end
  end.

Section Strategies.
(** The long-slice branch of [sort.Slice], for a comparison by a key. *)
Variable pdqsort : (instanceWithState -> Z) -> list instanceWithState -> list instanceWithState.
(** [rand.Intn] after the reseeding the source performs on each call. *)
Variable intn : Z -> Z.

Definition sort_by (key : instanceWithState -> Z) (l : list instanceWithState)
  : list instanceWithState :=
  GoSort.Slice (fun a b => key a <? key b) (pdqsort key) l.

(** The strategies return [None] where the source would panic (indexing an
    empty slice, [rand.Intn] of a non-positive bound). *)
Definition selectByFailover (instances : list instanceWithState) : option string :=
  head_name (sort_by (fun i => Priority (Cfg i)) instances).

Definition totalWeight (instances : list instanceWithState) : Z :=
  fold_left (fun total i => add64 total (Weight (Cfg i))) instances 0.

Fixpoint weight_walk (current target : Z) (instances : list instanceWithState)
  : option string :=
  match instances with
  | [] => None
  | i :: rest =>
      let current' := add64 current (Weight (Cfg i)) in
      if target <? current' then Some (Name (Cfg i))
      else weight_walk current' target rest
  end.

Definition selectByWeight (instances : list instanceWithState) : option string :=
  let total := totalWeight instances in
  if total <=? 0 then None
  else
    match weight_walk 0 (intn total) instances with
    | Some name => Some name
    | None => head_name instances
    end.

Definition selectByRoundRobin (instances : list instanceWithState) : option string :=
  head_name (sort_by (fun i => LastUsed (State i)) instances).

Definition SelectInstanceForRequest (m : Manager) (now : Z) (w : World)
  (model : string) (tokens : Z) (providerType : string) : result string * World :=
  let filteredConfigs := List.filter (capable model tokens providerType) (configs m) in
  match filteredConfigs with
  | [] => (Error ("no suitable instances found for model " +:+ model), w)
  | _ =>
      let '(eligibleInstances, w') :=
        fold_left (eligible_step m now tokens) filteredConfigs ([], w) in
      match eligibleInstances with
      | [] => (Error ("no healthy instances with capacity found for model " +:+ model), w')
      | _ =>
          let strategy := routingStrategy m in
          let chosen :=
            if String.eqb strategy "failover" then selectByFailover eligibleInstances
            else if String.eqb strategy "weighted" then selectByWeight eligibleInstances
            else if String.eqb strategy "round_robin" then selectByRoundRobin eligibleInstances
            else selectByFailover eligibleInstances in
          (match chosen with Some name => Ok name | None => Panic end, w')
      end
  end.

Definition SelectInstance := SelectInstanceForRequest.

End Strategies.

End Instance.

(* ===================================================================== *)
(** ** utils: the token estimator *)
(* ===================================================================== *)

Module Tokens.
Import GoInt GoStrings Config Instance.

(** A tiktoken encoder, as far as the estimator uses it: the number of
    tokens [Encode] returns for a text. *)
Definition Encoder : Type := string -> nat.

(** The two lookups of the tiktoken library; [None] is an error. *)
Record Tiktoken := mkTiktoken {
  EncodingForModel : string -> option Encoder;
  GetEncoding : string -> option Encoder
}.

(** The Azure names the estimator maps to model names tiktoken knows. *)
Definition modelMapping : gmap string string :=
  <["gpt-4" := "gpt-4-0613"]>
    (<["gpt-4o" := "gpt-4o-2024-05-13"]>
       (<["gpt-35-turbo" := "gpt-3.5-turbo-0613"]>
          {[ "gpt-3.5-turbo" := "gpt-3.5-turbo-0613" ]})).

Section Estimator.
Variable tiktoken : Tiktoken.
(** The order in which Go walks the entries of a map, which the language
    leaves open. *)
Variable range : gmap string Value -> list (string * Value).

(** [GetEncoderForModel]; the state is the cache [encoders], keyed by the
    model name as given. *)
Definition GetEncoderForModel (encoders : gmap string Encoder) (model provider : string)
  : option Encoder * gmap string Encoder :=
  match encoders !! model with
  | Some encoder => (Some encoder, encoders)
  | None =>
      let actualModel :=
        if String.eqb provider "azure" then
          match modelMapping !! ToLower model with
          | Some mapped => mapped
          | None => model
          end
        else model in
      match EncodingForModel tiktoken actualModel with
      | Some encoder => (Some encoder, <[model := encoder]> encoders)
      | None =>
          match GetEncoding tiktoken "cl100k_base" with
          | Some encoder => (Some encoder, <[model := encoder]> encoders)
          | None => (None, encoders)
          end
      end
  end.

Definition tokens_of (encoder : Encoder) (text : string) : Z := Z.of_nat (encoder text).

(** One element of a multimodal [content] list. *)
Definition content_item_tokens (encoder : Encoder) (tokenCount : Z) (item : Value) : Z :=
  match item with
  | VMap itemMap =>
      let withText :=
        match itemMap !! "text" with
        | Some (VString text) => add64 tokenCount (tokens_of encoder text)
        | _ => tokenCount
        end in
      match itemMap !! "type" with
      | Some (VString type) =>
          if String.eqb type "image_url" then
            let withImage := add64 withText 85 in
            match itemMap !! "detail" with
            | Some (VString detail) =>
                if String.eqb detail "high" then add64 withImage 170 else withImage
            | _ => withImage
            end
          else withText
      | _ => withText
      end
  | VString str => add64 tokenCount (tokens_of encoder str)
  | _ => tokenCount
  end.

(** One field of a message. *)
Definition field_tokens (encoder : Encoder) (tokenCount : Z) (kv : string * Value) : Z :=
  if String.eqb (fst kv) "content" then
    match snd kv with
    | VString v => add64 tokenCount (tokens_of encoder v)
    | VSlice v => fold_left (content_item_tokens encoder) v tokenCount
    | _ => tokenCount
    end
  else
    match snd kv with
    | VString str => add64 tokenCount (tokens_of encoder str)
    | _ => tokenCount
    end.

Definition Join (parts : list string) : string :=
  match parts with
  | [] => ""
  | first :: rest => fold_left (fun acc part => acc +:+ " " +:+ part) rest first
  end.

(** [stringifyParameters]. *)
Definition stringifyParameters (params : gmap string Value) : string :=
  let parts :=
    match params !! "type" with
    | Some (VString paramType) => [paramType]
    | _ => []
    end in
  let parts :=
    match params !! "properties" with
    | Some (VMap properties) =>
        fold_left
          (fun parts kv =>
             let parts := parts ++ [fst kv] in
             match snd kv with
             | VMap propMap =>
                 let parts :=
                   match propMap !! "type" with
                   | Some (VString propType) => parts ++ [propType]
                   | _ => parts
                   end in
                 match propMap !! "description" with
                 | Some (VString description) => parts ++ [description]
                 | _ => parts
                 end
             | _ => parts
             end)
          (range properties) parts
    | _ => parts
    end in
  let parts :=
    match params !! "required" with
    | Some (VSlice required) =>
        fold_left
          (fun parts req =>
             match req with
             | VString reqStr => parts ++ [reqStr]
             | _ => parts
             end)
          required parts
    | _ => parts
    end in
  Join parts.

(** [stringifyFunction]; its error is always nil. *)
Definition stringifyFunction (function : gmap string Value) : string :=
  let parts :=
    match function !! "name" with
    | Some (VString name) => [name]
    | _ => []
    end in
  let parts :=
    match function !! "description" with
    | Some (VString description) => parts ++ [description]
    | _ => parts
    end in
  let parts :=
    match function !! "parameters" with
    | Some (VMap parameters) =>
        let paramStr := stringifyParameters parameters in
        if String.eqb paramStr "" then parts else parts ++ [paramStr]
    | _ => parts
    end in
  Join parts.

Definition message_tokens (encoder : Encoder) (tokensPerMessage : Z) (tokenCount : Z)
  (message : gmap string Value) : Z :=
  fold_left (field_tokens encoder) (range message) (add64 tokenCount tokensPerMessage).

Definition function_tokens (encoder : Encoder) (tokenCount : Z)
  (function : gmap string Value) : Z :=
  add64 (add64 tokenCount 6) (tokens_of encoder (stringifyFunction function)).

(** [EstimateChatTokens]. *)
Definition EstimateChatTokens (encoders : gmap string Encoder)
  (messages functions : list (gmap string Value)) (model provider : string)
  : result Z * gmap string Encoder :=
  match GetEncoderForModel encoders model provider with
  | (None, encoders') => (Error "failed to get encoder", encoders')
  | (Some encoder, encoders') =>
      let tokensPerMessage := if Contains (ToLower model) "gpt-4" then 4 else 3 in
      let tokenCount := fold_left (message_tokens encoder tokensPerMessage) messages 0 in
      let tokenCount := fold_left (function_tokens encoder) functions tokenCount in
      let tokenCount := add64 tokenCount 3 in
      (Ok (if tokenCount <? 1 then 1 else tokenCount), encoders')
  end.

(** [EstimateCompletionTokens]. *)
Definition EstimateCompletionTokens (encoders : gmap string Encoder)
  (prompt model provider : string) : result Z * gmap string Encoder :=
  match GetEncoderForModel encoders model provider with
  | (None, encoders') => (Error "failed to get encoder", encoders')
  | (Some encoder, encoders') =>
      let count := tokens_of encoder prompt in
      (Ok (if count <? 1 then 1 else count), encoders')
  end.

(** [EstimateEmbeddingTokens]; a decoded payload holds no [[]string]. *)
Definition EstimateEmbeddingTokens (encoders : gmap string Encoder)
  (input : Value) (model provider : string) : result Z * gmap string Encoder :=
  match GetEncoderForModel encoders model provider with
  | (None, encoders') => (Error "failed to get encoder", encoders')
  | (Some encoder, encoders') =>
      match input with
      | VString v =>
          let totalTokens := tokens_of encoder v in
          (Ok (if totalTokens <? 1 then 1 else totalTokens), encoders')
      | VSlice v =>
          let totalTokens :=
            fold_left
              (fun total item =>
                 match item with
                 | VString str => add64 total (tokens_of encoder str)
                 | _ => total
                 end)
              v 0 in
          (Ok (if totalTokens <? 1 then 1 else totalTokens), encoders')
      | _ => (Error "unsupported input type for embedding estimation", encoders')
      end
  end.

End Estimator.

End Tokens.

(* ===================================================================== *)
(** ** services: request transformer and Azure client *)
(* ===================================================================== *)

Module Services.
Import GoInt GoStrings Config Errors Instance.

Record TransformResult := mkTransform {
  OriginalModel : string;
  Payload : gmap string Value;
  RequiredTokens : Z;
  Endpoint : string;
  Method : string
}.

(** The three estimators of [utils.TokenEstimator].  Their values are
    token counts of the tiktoken encoder (and, for function schemas, depend
    on the order in which Go walks a map), so they are taken as given:
    arguments are the messages and functions (or the prompt, or the
    input), the model and the provider. *)
Record TokenEstimator := mkEstimator {
  EstimateChatTokens :
    list (gmap string Value) -> list (gmap string Value) -> string -> string -> result Z;
  EstimateCompletionTokens : string -> string -> string -> result Z;
  EstimateEmbeddingTokens : Value -> string -> string -> result Z
}.

(** A failed assertion to [map[string]interface{}] leaves a nil map, which
    reads as an empty one. *)
Definition as_map (v : Value) : gmap string Value :=
  match v with
  | VMap m => m
  | _ => ∅
  end.

Definition tool_functions (tools : list Value) : list (gmap string Value) :=
  flat_map
    (fun tool =>
       match tool with
       | VMap toolMap =>
           match toolMap !! "function" with
           | Some (VMap function) => [function]
           | _ => []
           end
       | _ => []
       end)
    tools.

Section Transformer.
Variable tokenEstimator : TokenEstimator.

Definition estimateTokens (endpoint : string) (payload : gmap string Value)
  (modelName : string) : result Z :=
  if String.eqb endpoint "/v1/chat/completions" then
    match payload !! "messages" with
    | Some (VSlice messages) =>
        let messagesMapped := map as_map messages in
        let functions :=
          match payload !! "functions" with
          | Some (VSlice funcs) => map as_map funcs
          | _ => []
          end in
        let functions :=
          match payload !! "tools" with
          | Some (VSlice tools) => functions ++ tool_functions tools
          | _ => functions
          end in
        EstimateChatTokens tokenEstimator messagesMapped functions modelName "azure"
    | _ => Ok 100
    end
  else if String.eqb endpoint "/v1/completions" then
    match payload !! "prompt" with
    | Some (VString prompt) =>
        EstimateCompletionTokens tokenEstimator prompt modelName "azure"
    | _ => Ok 100
    end
  else if String.eqb endpoint "/v1/embeddings" then
    match payload !! "input" with
    | Some input => EstimateEmbeddingTokens tokenEstimator input modelName "azure"
    | None => Ok 50
    end
  else Ok 100.

Definition TransformOpenAIToAzure (endpoint : string) (payload : gmap string Value)
  (deploymentName : string) : result TransformResult :=
  match payload !! "model" with
  | Some (VString modelName) =>
      if String.eqb modelName "" then Error "model name is required"
      else
        let azurePayload := delete "model" payload in
        match estimateTokens endpoint azurePayload modelName with
        | Error e => Error ("failed to estimate tokens: " +:+ e)
        | Panic => Panic
        | Ok requiredTokens =>
            let clamped :=
              match azurePayload !! "max_tokens" with
              | Some (VFloat maxTokensFloat) =>
                  let maxTokensInt := of_float64 maxTokensFloat in
                  if (5000 <? maxTokensInt) &&
                     (add64 requiredTokens 5000 <? maxTokensInt) &&
                     negb (Contains modelName "2024-05-13")
                  then <["max_tokens" := VInt (add64 requiredTokens 5000)]> azurePayload
                  else azurePayload
              | _ => azurePayload
              end in
            Ok (mkTransform (ToLower modelName) clamped requiredTokens endpoint "POST")
        end
  | _ => Error "model name is required"
  end.

End Transformer.

(** [TransformAzureToOpenAI]: the loop over [choices] stores every element
    back unchanged, so the only change is the [model] key. *)
Definition TransformAzureToOpenAI (azureResponse : gmap string Value)
  (originalModel : string) : gmap string Value :=
  <["model" := VString originalModel]> azureResponse.

(** [strings.ReplaceAll s c ""] for a one-byte [c]. *)
Fixpoint remove_byte (c : ascii) (s : string) : string :=
  match s with
  | EmptyString => EmptyString
  | String a r => if Ascii.eqb a c then remove_byte c r else String a (remove_byte c r)
  end.

Definition GetDeploymentName (modelName : string) (deployments : gmap string string)
  : string :=
  let modelLower := ToLower modelName in
  match deployments !! modelLower with
  | Some deployment => deployment
  | None =>
      let variations :=
        [modelLower; remove_byte "." modelLower; remove_byte "-" modelLower;
         remove_byte "_" modelLower] in
      match List.find (fun v => bool_decide (is_Some (deployments !! v))) variations with
      | Some v => default modelLower (deployments !! v)
      | None => modelLower
      end
  end.

(** The per-message test of [ValidateRequest]; [i] is the message index. *)
Fixpoint validate_messages (i : Z) (messages : list Value) : option string :=
  match messages with
  | [] => None
  | VMap msgMap :: rest =>
      match msgMap !! "role" with
      | None => Some ("message " +:+ pretty i +:+ " missing required 'role' field")
      | Some _ =>
          match msgMap !! "content" with
          | None => Some ("message " +:+ pretty i +:+ " missing required 'content' field")
          | Some _ => validate_messages (i + 1) rest
          end
      end
  | _ :: _ => Some ("message " +:+ pretty i +:+ " is not a valid object")
  end.

(** [ValidateRequest]: [None] when the payload is accepted. *)
Definition ValidateRequest (endpoint : string) (payload : gmap string Value)
  : option string :=
  if String.eqb endpoint "/v1/chat/completions" then
    match payload !! "messages" with
    | None => Some "messages field is required for chat completions"
    | Some (VSlice messages) =>
        match messages with
        | [] => Some "messages array cannot be empty"
        | _ => validate_messages 0 messages
        end
    | Some _ => Some "messages must be an array"
    end
  else if String.eqb endpoint "/v1/completions" then
    match payload !! "prompt" with
    | None => Some "prompt field is required for completions"
    | Some _ => None
    end
  else if String.eqb endpoint "/v1/embeddings" then
    match payload !! "input" with
    | None => Some "input field is required for embeddings"
    | Some _ => None
    end
  else None.

Definition CleanRequestMetadata (payload : gmap string Value) : gmap string Value :=
  filter (fun kv => negb (HasPrefix (fst kv) "_internal_") = true) payload.

(** [AddRequestMetadata]: each metadata entry is stored in the payload
    under its key with the internal prefix. *)
Definition AddRequestMetadata (payload metadata : gmap string Value) : gmap string Value :=
  map_fold (fun k v acc => <["_internal_" +:+ k := v]> acc) payload metadata.

(** [EstimateResponseTokens]. *)
Definition EstimateResponseTokens (payload : gmap string Value) : Z :=
  match payload !! "max_tokens" with
  | Some (VFloat maxTokensFloat) => of_float64 maxTokensFloat
  | Some (VInt maxTokensInt) => maxTokensInt
  | _ => 150
  end.

(** An upstream [*http.Response]: [RespBody] is the body read to its end,
    or the error reading it ends with. *)
Record HTTPResponse := mkHTTP {
  RespStatus : Z;
  RespHeader : list (string * list string);
  RespBody : string + string
}.

(** What [ProxyRequest] returns; every error it builds is a [ProxyError]. *)
Inductive Exchange :=
| Answered (resp : HTTPResponse)
| Failed (e : ProxyError)
| Crashed.

Fixpoint last_byte (s : string) : option ascii :=
  match s with
  | EmptyString => None
  | String c EmptyString => Some c
  | String _ r => last_byte r
  end.

Fixpoint drop_last (s : string) : string :=
  match s with
  | EmptyString => EmptyString
  | String _ EmptyString => EmptyString
  | String c r => String c (drop_last r)
  end.

(** [buildAzureURL]; [None] where indexing an empty base URL panics. *)
Definition buildAzureURL (cfg : InstanceConfig) (endpoint deploymentName : string)
  : option string :=
  match last_byte (APIBase cfg) with
  | None => None
  | Some c =>
      let baseURL := if Ascii.eqb c "/" then drop_last (APIBase cfg) else APIBase cfg in
      let azureEndpoint :=
        if String.eqb endpoint "/v1/chat/completions" then
          "/openai/deployments/" +:+ deploymentName +:+ "/chat/completions"
        else if String.eqb endpoint "/v1/completions" then
          "/openai/deployments/" +:+ deploymentName +:+ "/completions"
        else if String.eqb endpoint "/v1/embeddings" then
          "/openai/deployments/" +:+ deploymentName +:+ "/embeddings"
        else endpoint in
      let apiVersion :=
        if String.eqb (APIVersion cfg) "" then "2024-05-01-preview" else APIVersion cfg in
      Some (baseURL +:+ azureEndpoint +:+ "?api-version=" +:+ apiVersion)
  end.

Section Azure.
(** [json.Marshal]: the document, or the text of the error. *)
Variable json_marshal : gmap string Value -> string + string.
(** [json.Unmarshal] into a [map[string]interface{}]. *)
Variable json_unmarshal : string -> option (gmap string Value).
(** The HTTP exchange: URL and request body to a response or an error. *)
Variable http_do : string -> string -> HTTPResponse + string.

Definition ProxyRequest (now : Z) (cfg : InstanceConfig) (endpoint : string)
  (payload : gmap string Value) (deploymentName : string) : Exchange :=
  match buildAzureURL cfg endpoint deploymentName with
  | None => Crashed
  | Some azureURL =>
      match json_marshal payload with
      | inr e =>
          Failed (NewInternalError (Unix now) "failed to marshal request payload"
                    {[ "error" := VString e ]})
      | inl jsonData =>
          match http_do azureURL jsonData with
          | inr e =>
              Failed (NewUpstreamError (Unix now) "request to Azure OpenAI failed" 500
                        (<["error" := VString e]>
                           (<["url" := VString azureURL]>
                              {[ "deployment" := VString deploymentName ]})))
          | inl resp => Answered resp
          end
      end
  end.

Definition StreamRequest (now : Z) (cfg : InstanceConfig) (endpoint : string)
  (payload : gmap string Value) (deploymentName : string) : Exchange :=
  ProxyRequest now cfg endpoint (<["stream" := VBool true]> payload) deploymentName.

Definition ParseErrorResponse (now : Z) (resp : HTTPResponse) : ProxyError :=
  match RespBody resp with
  | inr e =>
      NewUpstreamError (Unix now) "failed to read error response" (RespStatus resp)
        {[ "error" := VString e ]}
  | inl body =>
      match json_unmarshal body with
      | None =>
          NewUpstreamError (Unix now) "invalid error response format" (RespStatus resp)
            {[ "body" := VString body ]}
      | Some errorData =>
          let '(message, errorType) :=
            match errorData !! "error" with
            | Some (VMap errorObj) =>
                (match errorObj !! "message" with Some (VString msg) => msg | _ => "" end,
                 match errorObj !! "type" with Some (VString typ) => typ | _ => "" end)
            | _ => (body, "")
            end in
          NewUpstreamError (Unix now) message (RespStatus resp)
            (<["response_body" := VString body]>
               (<["error_type" := VString errorType]>
                  {[ "status_code" := VInt (RespStatus resp) ]}))
      end
  end.

End Azure.

End Services.

(* ===================================================================== *)
(** ** handlers: the dispatcher *)
(* ===================================================================== *)

Module Handlers.
Import GoInt GoStrings Config Errors Storage Instance Services.

(** What a request's handling depends on besides the manager and the
    world: the library functions and the measurements taken as given. *)
Record Env := mkEnv {
  tokenEstimator : TokenEstimator;
  json_marshal : gmap string Value -> string + string;
  json_unmarshal : string -> option (gmap string Value);
  http_do : string -> string -> HTTPResponse + string;
  pdqsort : (instanceWithState -> Z) -> list instanceWithState -> list instanceWithState;
  intn : Z -> Z;
  elapsed : Z          (* [time.Since(startTime)] when usage is recorded *)
}.

(** One write to the client of a streamed response: a re-encoded JSON
    chunk (with the object it encodes) or text passed through. *)
Inductive Chunk :=
| DataChunk (chunk : gmap string Value) (text : string)
| RawChunk (text : string).

Inductive Body :=
| JSONBody (v : gmap string Value)       (* [c.JSON] *)
| DataBody (bytes : string)              (* [c.Data] *)
| StreamBody (writes : list Chunk).

Record Response := mkResponse {
  Code : Z;
  Header : gmap string string;
  Body_ : Body
}.

Inductive Outcome :=
| Responded (r : Response)
| Panicked.

(** [c.Header(key, value)]: an empty value removes the header. *)
Definition set_header (h : gmap string string) (key value : string) : gmap string string :=
  if String.eqb value "" then delete key h else <[key := value]> h.

(** [c.JSON] and [c.Data] set the content type unless one is already set. *)
Definition writeContentType (h : gmap string string) (value : string) : gmap string string :=
  match h !! "Content-Type" with
  | Some _ => h
  | None => <["Content-Type" := value]> h
  end.

Definition JSON_ (h : gmap string string) (code : Z) (obj : gmap string Value) : Response :=
  mkResponse code (writeContentType h "application/json; charset=utf-8") (JSONBody obj).

Definition sendErrorResponse (proxyErr : ProxyError) : Response :=
  let errorResponse : gmap string Value :=
    {[ "error" :=
         VMap (<["message" := VString (Message proxyErr)]>
                 (<["type" := VString (ErrorType_string (Type_ proxyErr))]>
                    {[ "code" := VInt (StatusCode proxyErr) ]})) ]} in
  let retryAfter := GetRetryAfter proxyErr in
  let h : gmap string string :=
    if 0 <? retryAfter then set_header ∅ "Retry-After" (pretty retryAfter) else ∅ in
  JSON_ h (StatusCode proxyErr) errorResponse.

(** The constants [0.9] and [0.1] as binary64 values. *)
Definition c0_9 : float := 0x1.ccccccccccccdp-1%float.
Definition c0_1 : float := 0x1.999999999999ap-4%float.

(** The assignments [recordUsage] makes to the state it read.  The two
    products of the moving average are rounded separately. *)
Definition usage_step (now tokens elapsed : Z) (state : InstanceState) : InstanceState :=
  let latency := to_float64 (Milliseconds elapsed) in
  {| StName := StName state; Status := Status state;
     HealthStatus := HealthStatus state; ConnectionStatus := ConnectionStatus state;
     ErrorCount := ErrorCount state; LastError := LastError state;
     LastErrorTime := LastErrorTime state;
     TotalErrors500 := TotalErrors500 state; TotalErrors503 := TotalErrors503 state;
     TotalOtherErrors := TotalOtherErrors state;
     TotalRequests := add64 (TotalRequests state) 1;
     SuccessfulRequests := add64 (SuccessfulRequests state) 1;
     TotalTokensServed := add64 (TotalTokensServed state) tokens;
     AvgLatencyMs :=
       match AvgLatencyMs state with
       | None => Some latency
       | Some avg => Some (PrimFloat.add (PrimFloat.mul c0_9 avg) (PrimFloat.mul c0_1 latency))
       end;
     LastUsed := now |}.

Definition recordUsage (m : Manager) (now elapsed : Z) (w : World)
  (instanceName : string) (tokens : Z) : World :=
  let w1 := snd (UpdateUsage m now w instanceName tokens) in
  match GetInstanceState w1 now instanceName with
  | None => w1
  | Some state =>
      snd (UpdateInstanceState w1 instanceName (usage_step now tokens elapsed state))
  end.

Definition errorRate (state : InstanceState) : float :=
  PrimFloat.mul
    (PrimFloat.div (to_float64 (ErrorCount state)) (to_float64 (TotalRequests state)))
    100%float.

(** The assignments [recordError] makes to the state it read. *)
Definition error_step (statusCode : Z) (state : InstanceState) : InstanceState :=
  let counted :=
    {| StName := StName state; Status := Status state;
       HealthStatus := HealthStatus state; ConnectionStatus := ConnectionStatus state;
       ErrorCount := add64 (ErrorCount state) 1; LastError := LastError state;
       LastErrorTime := LastErrorTime state;
       TotalErrors500 :=
         if statusCode =? 500 then add64 (TotalErrors500 state) 1 else TotalErrors500 state;
       TotalErrors503 :=
         if statusCode =? 500 then TotalErrors503 state
         else if statusCode =? 503 then add64 (TotalErrors503 state) 1
         else TotalErrors503 state;
       TotalOtherErrors :=
         if statusCode =? 500 then TotalOtherErrors state
         else if statusCode =? 503 then TotalOtherErrors state
         else add64 (TotalOtherErrors state) 1;
       TotalRequests := add64 (TotalRequests state) 1;
       SuccessfulRequests := SuccessfulRequests state;
       TotalTokensServed := TotalTokensServed state;
       AvgLatencyMs := AvgLatencyMs state;
       LastUsed := LastUsed state |} in
  if PrimFloat.ltb 50%float (errorRate counted) && (10 <? TotalRequests counted) then
    {| StName := StName counted; Status := StatusError;
       HealthStatus := "unhealthy"; ConnectionStatus := ConnectionStatus counted;
       ErrorCount := ErrorCount counted; LastError := LastError counted;
       LastErrorTime := LastErrorTime counted;
       TotalErrors500 := TotalErrors500 counted; TotalErrors503 := TotalErrors503 counted;
       TotalOtherErrors := TotalOtherErrors counted;
       TotalRequests := TotalRequests counted;
       SuccessfulRequests := SuccessfulRequests counted;
       TotalTokensServed := TotalTokensServed counted;
       AvgLatencyMs := AvgLatencyMs counted;
       LastUsed := LastUsed counted |}
  else counted.

Definition recordError (now : Z) (w : World) (instanceName : string) (statusCode : Z)
  : World :=
  match GetInstanceState w now instanceName with
  | None => w
  | Some state => snd (UpdateInstanceState w instanceName (error_step statusCode state))
  end.

(** [resp.Header.Get]: the first value under the key, or the empty string. *)
Definition header_get (hdr : list (string * list string)) (key : string) : string :=
  match List.find (fun kv => String.eqb (fst kv) key) hdr with
  | Some (_, v :: _) => v
  | _ => ""
  end.

Definition copy_headers (keep : string -> bool) (hdr : list (string * list string))
  (h : gmap string string) : gmap string string :=
  fold_left
    (fun h kv =>
       if keep (fst kv) then fold_left (fun h value => set_header h (fst kv) value) (snd kv) h
       else h)
    hdr h.

(** [bufio.Scanner] with its default split function: lines end at a line
    feed, one trailing carriage return is dropped, and a last line without
    a line feed is delivered when it is not empty. *)
Definition dropCR (line : string) : string :=
  match last_byte line with
  | Some c => if Ascii.eqb c "013" then drop_last line else line
  | None => line
  end.

Fixpoint scan_lines (cur : string) (s : string) : list string :=
  match s with
  | EmptyString => if String.eqb cur "" then [] else [dropCR cur]
  | String c r =>
      if Ascii.eqb c "010" then dropCR cur :: scan_lines "" r
      else scan_lines (cur +:+ String c "") r
  end.

Definition TrimPrefix (s prefix : string) : string :=
  if HasPrefix s prefix then String.substring (String.length prefix)
                               (String.length s - String.length prefix) s
  else s.

Definition LF : string := String "010" "".

Section Relay.
Variable env : Env.

(** The loop of [streamResponse] over the scanned lines. *)
Fixpoint stream_lines (originalModel : string) (lines : list string) : list Chunk :=
  match lines with
  | [] => []
  | line :: rest =>
      if HasPrefix line "data: " then
        let dataStr := TrimPrefix line "data: " in
        if String.eqb dataStr "[DONE]" then [RawChunk ("data: [DONE]" +:+ LF +:+ LF)]
        else
          match json_unmarshal env dataStr with
          | Some chunkData =>
              let transformedChunk := TransformAzureToOpenAI chunkData originalModel in
              match json_marshal env transformedChunk with
              | inl jsonBytes =>
                  DataChunk transformedChunk ("data: " +:+ jsonBytes +:+ LF +:+ LF)
              | inr _ => RawChunk (line +:+ LF +:+ LF)
              end :: stream_lines originalModel rest
          | None => RawChunk (line +:+ LF +:+ LF) :: stream_lines originalModel rest
          end
      else RawChunk (line +:+ LF) :: stream_lines originalModel rest
  end.

Definition streamResponse (resp : HTTPResponse) (originalModel : string) : Response :=
  let h0 : gmap string string :=
    <["Access-Control-Allow-Origin" := "*"]>
      (<["Connection" := "keep-alive"]>
         (<["Cache-Control" := "no-cache"]>
            {[ "Content-Type" := "text/event-stream" ]})) in
  let keep key :=
    negb (HasPrefix (ToLower key) "content-") &&
    negb (String.eqb (ToLower key) "cache-control") &&
    negb (String.eqb (ToLower key) "connection") in
  let h := copy_headers keep (RespHeader resp) h0 in
  let lines := match RespBody resp with inl body => scan_lines "" body | inr _ => [] end in
  mkResponse (RespStatus resp) h (StreamBody (stream_lines originalModel lines)).

Definition forwardResponse (now : Z) (resp : HTTPResponse) (originalModel : string)
  : Response :=
  match RespBody resp with
  | inr e =>
      sendErrorResponse
        (NewInternalError (Unix now) "failed to read response" {[ "error" := VString e ]})
  | inl body =>
      match json_unmarshal env body with
      | None =>
          mkResponse (RespStatus resp)
            (writeContentType ∅ (header_get (RespHeader resp) "Content-Type"))
            (DataBody body)
      | Some responseData =>
          let transformedResponse := TransformAzureToOpenAI responseData originalModel in
          JSON_ (copy_headers (fun _ => true) (RespHeader resp) ∅)
                (RespStatus resp) transformedResponse
      end
  end.

(** The Azure clients [NewProxyHandler] builds, keyed by instance name. *)
Definition azureServices (m : Manager) : gmap string InstanceConfig :=
  fold_left
    (fun services cfg =>
       if String.eqb (ProviderType cfg) "azure" then <[Name cfg := cfg]> services
       else services)
    (configs m) ∅.

(** [handleProxyRequest]; [bound] is the outcome of [c.ShouldBindJSON]. *)
Definition handleProxyRequest (m : Manager) (now : Z) (w : World) (endpoint : string)
  (bound : gmap string Value + string) : Outcome * World :=
  match bound with
  | inr e =>
      (Responded (sendErrorResponse
         (NewClientError (Unix now) "invalid JSON payload" 400 {[ "error" := VString e ]})), w)
  | inl payload =>
  match ValidateRequest endpoint payload with
  | Some msg =>
      (Responded (sendErrorResponse
         (NewClientError (Unix now) msg 400 {[ "endpoint" := VString endpoint ]})), w)
  | None =>
  let modelName := match payload !! "model" with Some (VString name) => name | _ => "" end in
  match SelectInstance (pdqsort env) (intn env) m now w modelName 0 "azure" with
  | (Panic, w1) => (Panicked, w1)
  | (Error e, w1) =>
      (Responded (sendErrorResponse
         (NewInstanceError (Unix now) "no suitable instance available"
            (<["model" := VString modelName]>
               (<["endpoint" := VString endpoint]> {[ "error" := VString e ]})))), w1)
  | (Ok selectedInstance, w1) =>
  match GetInstanceConfig m selectedInstance with
  | None =>
      (Responded (sendErrorResponse
         (NewInternalError (Unix now) "failed to get instance config"
            (<["instance" := VString selectedInstance]>
               {[ "error" := VString ("instance not found: " +:+ selectedInstance) ]}))), w1)
  | Some instanceConfig =>
  let deploymentName := GetDeploymentName modelName (ModelDeployments instanceConfig) in
  match TransformOpenAIToAzure (tokenEstimator env) endpoint payload deploymentName with
  | Panic => (Panicked, w1)
  | Error e =>
      (Responded (sendErrorResponse
         (NewInternalError (Unix now) "request transformation failed"
            (<["error" := VString e]> {[ "model" := VString modelName ]}))), w1)
  | Ok transformResult =>
  let '((hasCapacity, _), w2) :=
    CheckRateLimit m now w1 selectedInstance (RequiredTokens transformResult) in
  if negb hasCapacity then
    (Responded (sendErrorResponse
       (NewUpstreamError (Unix now) "rate limit exceeded" 429
          (<["instance" := VString selectedInstance]>
             {[ "tokens" := VInt (RequiredTokens transformResult) ]}))), w2)
  else
  let isStreaming := match payload !! "stream" with Some (VBool true) => true | _ => false end in
  match azureServices m !! selectedInstance with
  | None =>
      (Responded (sendErrorResponse
         (NewInternalError (Unix now) "Azure service not found for instance"
            {[ "instance" := VString selectedInstance ]})), w2)
  | Some azureService =>
  let cleanPayload := CleanRequestMetadata (Payload transformResult) in
  let exchange :=
    if isStreaming then
      StreamRequest (json_marshal env) (http_do env) now azureService endpoint
        cleanPayload deploymentName
    else
      ProxyRequest (json_marshal env) (http_do env) now azureService endpoint
        cleanPayload deploymentName in
  match exchange with
  | Crashed => (Panicked, w2)
  | Failed proxyErr => (Responded (sendErrorResponse proxyErr), w2)
  | Answered resp =>
      if 400 <=? RespStatus resp then
        (Responded (sendErrorResponse (ParseErrorResponse (json_unmarshal env) now resp)),
         recordError now w2 selectedInstance (RespStatus resp))
      else
        let w3 := recordUsage m now (elapsed env) w2 selectedInstance
                    (RequiredTokens transformResult) in
        (Responded
           (if isStreaming then streamResponse resp (OriginalModel transformResult)
            else forwardResponse now resp (OriginalModel transformResult)), w3)
  end end end end end end end.

End Relay.

End Handlers.

(* ===================================================================== *)
(** * The specification's notions, and the cases the properties are
      stated at *)
(* ===================================================================== *)

Import GoInt GoStrings RateLimit Config Errors Storage Instance Services Handlers.

(* --------------------------------------------------------------------- *)
(** ** The sliding-window rate limiter *)
(* --------------------------------------------------------------------- *)

(** The window as the specification reads it: the token part of an entry,
    when its member has one. *)
Definition token_part (e : ZEntry) : option Z := Atoi (before_colon (Member e)).

(** The entries that survive the eviction of scores [<= now - 60]. *)
Definition remaining (now : Z) (w : list ZEntry) : list ZEntry :=
  List.filter (fun e => now - 60 <? Score e) w.

(** The sum of the token parts. *)
Definition window_tokens (w : list ZEntry) : Z :=
  fold_right (fun e acc => default 0 (token_part e) + acc) 0 w.

(** The oldest score of the window, if it has an entry. *)
Definition oldest_score (w : list ZEntry) : option Z :=
  match w with
  | [] => None
  | e :: r => Some (fold_right (fun e acc => Z.min (Score e) acc) (Score e) r)
  end.

(** The oldest score the source computes: it starts from [now] and looks
    only at the entries whose token part parses. *)
Definition oldest_counted (now : Z) (w : list ZEntry) : Z :=
  fold_right
    (fun e acc => match token_part e with Some _ => Z.min (Score e) acc | None => acc end)
    now w.

(** The input-token test that precedes every use of the store. *)
Definition over_input_limit (rl : RateLimiter) (tokens : Z) : bool :=
  (0 <? maxInputTokens rl) && (maxInputTokens rl <? tokens).

(** The claim C1 as the specification states it, at one call: the
    retry-after of a window denial is computed from the oldest score of
    the remaining entries. *)
Definition C1_stated (rl : RateLimiter) (now : Z) (r : Redis) (t : Z) : Prop :=
  let c := fst (CheckCapacity rl now r t) in
  let rem := remaining now (zset r (redisKey rl)) in
  if over_input_limit rl t then has_capacity c = false /\ retry_after c = 60
  else if window_tokens rem + t <=? tokensPerMinute rl then
    has_capacity c = true /\ retry_after c = 0
  else
    has_capacity c = false /\
    exists oldest, oldest_score rem = Some oldest /\
                   retry_after c = Z.max 1 (oldest - (now - 60)).

(* --------------------------------------------------------------------- *)
(** ** The failover strategy *)
(* --------------------------------------------------------------------- *)

Definition priority_of (i : instanceWithState) : Z := Priority (Cfg i).

(** What a correct sort of [l] by priority returns. *)
Definition sorted_by_priority (l sorted : list instanceWithState) : Prop :=
  Permutation l sorted /\
  StronglySorted (fun a b => priority_of a <= priority_of b) sorted.

(** The claim C7 as the specification states it: the instance returned has
    the least priority, and among the instances of least priority the
    least name. *)
Definition C7_stated
  (pdq : (instanceWithState -> Z) -> list instanceWithState -> list instanceWithState)
  (l : list instanceWithState) : Prop :=
  exists i, selectByFailover pdq l = Some (Name (Cfg i)) /\ In i l /\
            (forall j, In j l -> priority_of i <= priority_of j) /\
            (forall j, In j l -> priority_of j = priority_of i ->
                       String.leb (Name (Cfg i)) (Name (Cfg j)) = true).

Definition example_config (name : string) (priority weight : Z) : InstanceConfig :=
  {| Name := name; ProviderType := "azure"; APIKey := "k";
     APIBase := "https://" +:+ name +:+ ".openai.azure.com"; APIVersion := "";
     Priority := priority; Weight := weight; MaxTPM := 60000; MaxInputTokens := 0;
     SupportedModels := ["gpt-4"]; ModelDeployments := ∅;
     Enabled := true; RateLimitEnabled := true |}.

Definition example_instance (name : string) (priority weight : Z) : instanceWithState :=
  mkIWS (example_config name priority weight) (NewInstanceState name 0).

(* --------------------------------------------------------------------- *)
(** ** The weighted strategy *)
(* --------------------------------------------------------------------- *)

Definition weight_of (i : instanceWithState) : Z := Weight (Cfg i).

(** The sum of the weights of a list, as a mathematical integer. *)
Definition sum_weights (l : list instanceWithState) : Z :=
  fold_right (fun i acc => weight_of i + acc) 0 l.

(** [i] is the first instance of [l], in list order, whose prefix sum of
    weights strictly exceeds [target]. *)
Definition first_exceeding (target : Z) (l : list instanceWithState)
  (i : instanceWithState) : Prop :=
  exists l1 l2, l = l1 ++ i :: l2 /\
                target < sum_weights (l1 ++ [i]) /\
                forall k, (1 <= k <= length l1)%nat -> sum_weights (firstn k l) <= target.

(** Whether the draw [target] makes the selector return [name]. *)
Definition chosen_by (target : Z) (l : list instanceWithState) (name : string) : bool :=
  match selectByWeight (fun _ => target) l with
  | Some n => String.eqb n name
  | None => false
  end.

(** The number of draws in [[0, total)] that return [name]. *)
Definition draws_for (l : list instanceWithState) (name : string) : nat :=
  length (List.filter (fun target => chosen_by target l name) (seqZ 0 (sum_weights l))).

(** The sum of the weights of the instances of [l] that carry [name]. *)
Definition weight_named (name : string) (l : list instanceWithState) : Z :=
  fold_right (fun i acc => (if String.eqb (Name (Cfg i)) name then weight_of i else 0) + acc)
             0 l.

Definition names_eqb (o : option string) (name : string) : bool :=
  match o with
  | Some n => String.eqb n name
  | None => false
  end.

(* --------------------------------------------------------------------- *)
(** ** The request transformer *)
(* --------------------------------------------------------------------- *)

Definition model_of (payload : gmap string Value) : string :=
  match payload !! "model" with
  | Some (VString name) => name
  | _ => ""
  end.

(** The clamp condition as the specification states it: the number under
    [max_tokens] is compared as it stands. *)
Definition clamp_stated (payload : gmap string Value) (required : Z) : bool :=
  match payload !! "max_tokens" with
  | Some (VFloat f) =>
      PrimFloat.ltb (to_float64 5000) f &&
      PrimFloat.ltb (to_float64 (required + 5000)) f &&
      negb (Contains (model_of payload) "2024-05-13")
  | _ => false
  end.

(** The clamp condition of the source: the number is first converted to an
    integer, which drops its fraction. *)
Definition clamp_fires (payload : gmap string Value) (required : Z) : bool :=
  match payload !! "max_tokens" with
  | Some (VFloat f) =>
      (5000 <? of_float64 f) &&
      (required + 5000 <? of_float64 f) &&
      negb (Contains (model_of payload) "2024-05-13")
  | _ => false
  end.

Definition C4_stated (estimate : TokenEstimator)
  (endpoint : string) (payload : gmap string Value) (deployment : string) : Prop :=
  forall res, TransformOpenAIToAzure estimate endpoint payload deployment = Ok res ->
    Payload res !! "max_tokens"
    = if clamp_stated payload (RequiredTokens res)
      then Some (VInt (RequiredTokens res + 5000))
      else payload !! "max_tokens".

(** An estimator that answers [n] whatever it is given. *)
Definition constant_estimator (n : Z) : TokenEstimator :=
  {| EstimateChatTokens := fun _ _ _ _ => Ok n;
     EstimateCompletionTokens := fun _ _ _ => Ok n;
     EstimateEmbeddingTokens := fun _ _ _ => Ok n |}.

Definition completion_payload (model : string) (max_tokens : float) : gmap string Value :=
  <["model" := VString model]>
    (<["prompt" := VString "Once upon a time"]> {[ "max_tokens" := VFloat max_tokens ]}).

(* --------------------------------------------------------------------- *)
(** ** The latency average of an instance's state *)
(* --------------------------------------------------------------------- *)

(** The exponential moving average with smoothing 0.1, seeded at the first
    sample. *)
Definition ema_step (avg sample : float) : float :=
  PrimFloat.add (PrimFloat.mul c0_9 avg) (PrimFloat.mul c0_1 sample).

Definition ema (samples : list float) : option float :=
  match samples with
  | [] => None
  | first :: rest => Some (fold_left ema_step rest first)
  end.

(** The operations that change the stored state of one instance, each
    with the clock reading it is performed at. *)
Inductive StateOp :=
| OpSuccess (now tokens elapsed : Z)           (* [recordUsage] *)
| OpError (now statusCode : Z)                 (* [recordError] *)
| OpHealth (now : Z) (healthy : bool) (latency : Z) (err : option string).
                                               (* [updateInstanceHealth] *)

Definition apply_op (m : Manager) (name : string) (w : World) (op : StateOp) : World :=
  match op with
  | OpSuccess now tokens elapsed => recordUsage m now elapsed w name tokens
  | OpError now statusCode => recordError now w name statusCode
  | OpHealth now healthy latency err =>
      updateInstanceHealth now w (mkHealth name healthy latency err)
  end.

Definition run_ops (m : Manager) (name : string) (ops : list StateOp) (w : World) : World :=
  fold_left (apply_op m name) ops w.

Definition latency_ms (d : Z) : float := to_float64 (Milliseconds d).

(** The latencies of the successful requests, oldest first. *)
Definition success_latencies (ops : list StateOp) : list float :=
  flat_map (fun op => match op with
                      | OpSuccess _ _ elapsed => [latency_ms elapsed]
                      | _ => []
                      end) ops.

(** The samples the stored average is the moving average of: a health
    update that reports healthy starts the series afresh with the latency
    of its probe. *)
Definition samples_step (acc : list float) (op : StateOp) : list float :=
  match op with
  | OpSuccess _ _ elapsed => acc ++ [latency_ms elapsed]
  | OpError _ _ => acc
  | OpHealth _ true latency _ => [latency_ms latency]
  | OpHealth _ false _ _ => acc
  end.

Definition samples (ops : list StateOp) : list float := fold_left samples_step ops [].

Definition is_healthy_update (op : StateOp) : bool :=
  match op with
  | OpHealth _ true _ _ => true
  | _ => false
  end.

(** The stored average of instance [name]; the state is created on first
    reference. *)
Definition stored_avg (w : World) (name : string) : option float :=
  match GetInstanceState w 0 name with
  | Some st => AvgLatencyMs st
  | None => None
  end.

(** The claim C5 as the specification states it. *)
Definition C5_stated (m : Manager) (name : string) (ops : list StateOp) (w : World) : Prop :=
  stored_avg (run_ops m name ops w) name = ema (success_latencies ops).

Definition empty_world : World :=
  mkWorld (mkStore ∅ true) (mkRedis ∅ Healthy) [].

Definition float_is (o : option float) (f : float) : bool :=
  match o with
  | Some x => PrimFloat.eqb x f
  | None => false
  end.

(** What one operation does to the stored average. *)
Definition avg_step (avg : option float) (op : StateOp) : option float :=
  match op with
  | OpSuccess _ _ elapsed =>
      match avg with
      | None => Some (latency_ms elapsed)
      | Some a => Some (ema_step a (latency_ms elapsed))
      end
  | OpError _ _ => avg
  | OpHealth _ true latency _ => Some (latency_ms latency)
  | OpHealth _ false _ _ => avg
  end.

(* --------------------------------------------------------------------- *)
(** ** Eligibility and selection *)
(* --------------------------------------------------------------------- *)

(** An entry of the eligible list: the state is the one stored under the
    instance's name, and it is healthy. *)
Definition healthy_in (st : StateStore) (now : Z) (i : instanceWithState) : Prop :=
  Get st now (Name (Cfg i)) = Some (State i) /\ IsHealthy (State i) = true.

(** The long-slice sort rearranges, whatever order it leaves ties in. *)
Definition rearranges
  (pdq : (instanceWithState -> Z) -> list instanceWithState -> list instanceWithState) : Prop :=
  forall key l, Permutation l (pdq key l).

(* --------------------------------------------------------------------- *)
(** ** Health demotion *)
(* --------------------------------------------------------------------- *)

Definition stored_status (w : World) (now : Z) (name : string) : string :=
  match GetInstanceState w now name with
  | Some st => Status st
  | None => ""
  end.

Definition stored_health (w : World) (now : Z) (name : string) : string :=
  match GetInstanceState w now name with
  | Some st => HealthStatus st
  | None => ""
  end.

(** The demotion test on the stored counters:
    [error_count / total_requests * 100 > 50] and [total_requests > 10],
    the quotient and the product being those of binary64. *)
Definition demotion_holds (w : World) (now : Z) (name : string) : bool :=
  match GetInstanceState w now name with
  | Some st => PrimFloat.ltb 50%float (errorRate st) && (10 <? TotalRequests st)
  | None => false
  end.

(** The same test on the counters as exact integers: [2 e > t]. *)
Definition over_half (errors total : Z) : bool := (total <? 2 * errors) && (10 <? total).

Definition counters (errors total : Z) : InstanceState :=
  {| StName := ""; Status := StatusHealthy;
     HealthStatus := "unknown"; ConnectionStatus := "unknown";
     ErrorCount := errors; LastError := None; LastErrorTime := None;
     TotalErrors500 := 0; TotalErrors503 := 0; TotalOtherErrors := 0;
     TotalRequests := total; SuccessfulRequests := 0; TotalTokensServed := 0;
     AvgLatencyMs := None; LastUsed := 0 |}.

(** [n] rounds of the health monitor. *)
Definition sweeps (m : Manager) (now : Z) (n : nat) (w : World) : World :=
  Nat.iter n (performHealthChecks m now) w.

(** The claim C3 as the specification states it: once an error-accounting
    step has demoted an instance, no later selection returns it. *)
Definition C3_stated
  (pdq : (instanceWithState -> Z) -> list instanceWithState -> list instanceWithState)
  (intn : Z -> Z) (m : Manager) (now : Z) (w : World) (name : string) (statusCode : Z)
  : Prop :=
  let w1 := recordError now w name statusCode in
  demotion_holds w1 now name = true ->
  (stored_status w1 now name = StatusError /\ stored_health w1 now name = "unhealthy") /\
  forall (n : nat) (model : string),
    fst (SelectInstanceForRequest pdq intn m now (sweeps m now n w1) model 0 "azure")
    <> Ok name.

(** A state with ten requests, all of them errors. *)
Definition ten_errors (name : string) : InstanceState :=
  {| StName := name; Status := StatusHealthy;
     HealthStatus := "healthy"; ConnectionStatus := "connected";
     ErrorCount := 10; LastError := None; LastErrorTime := None;
     TotalErrors500 := 10; TotalErrors503 := 0; TotalOtherErrors := 0;
     TotalRequests := 10; SuccessfulRequests := 0; TotalTokensServed := 0;
     AvgLatencyMs := None; LastUsed := 0 |}.

Definition world_of (states : gmap string InstanceState) : World :=
  mkWorld (mkStore states true) (mkRedis ∅ Healthy) [].

(* --------------------------------------------------------------------- *)
(** ** The dispatcher *)
(* --------------------------------------------------------------------- *)



(* --------------------------------------------------------------------- *)
(** ** The model name in relayed responses *)
(* --------------------------------------------------------------------- *)



(** The scenario S5 of the specification.  The JSON codec is stood in for
    by one that knows the single chunk of the scenario under the name
    [chunk]. *)
Definition s5_env : Env :=
  {| tokenEstimator := constant_estimator 10;
     json_marshal := fun _ => inl "chunk";
     json_unmarshal := fun s =>
       if String.eqb s "chunk"
       then Some (<["id" := VString "x"]> {[ "model" := VString "gpt-4-0613" ]})
       else None;
     http_do := fun _ _ =>
       inl (mkHTTP 200 [] (inl ("data: chunk" +:+ LF +:+ LF +:+ "data: [DONE]" +:+ LF +:+ LF)));
     pdqsort := fun _ l => l;
     intn := fun _ => 0;
     elapsed := 120000000 |}.

Definition chat_payload (model : string) (stream : bool) : gmap string Value :=
  <["model" := VString model]>
    (<["stream" := VBool stream]>
       {[ "messages" :=
            VSlice [VMap (<["role" := VString "user"]> {[ "content" := VString "hi" ]})] ]}).

(* --------------------------------------------------------------------- *)
(** ** Which token counts the limiter is asked about *)
(* --------------------------------------------------------------------- *)


(* --------------------------------------------------------------------- *)
(** ** The answer to a request denied admission *)
(* --------------------------------------------------------------------- *)

(** The scenario S2 of the specification: instance [A] with
    [max_tpm = 100], a window holding 90 tokens recorded ten seconds ago,
    and a request estimated at 20 tokens. *)
Definition s2_config : InstanceConfig :=
  {| Name := "A"; ProviderType := "azure"; APIKey := "k";
     APIBase := "https://a.openai.azure.com"; APIVersion := "";
     Priority := 1; Weight := 1; MaxTPM := 100; MaxInputTokens := 0;
     SupportedModels := ["gpt-4"]; ModelDeployments := ∅;
     Enabled := true; RateLimitEnabled := true |}.

Definition s2_manager : Manager := NewManager [s2_config] "failover".

Definition s2_world : World :=
  mkWorld (mkStore ∅ true)
          (mkRedis {[ "instance:rate_limit:window:A" := [mkZ 990 "90:17"] ]} Healthy) [].

Definition s2_env : Env :=
  {| tokenEstimator := constant_estimator 20;
     json_marshal := fun _ => inl "request";
     json_unmarshal := fun _ => None;
     http_do := fun _ _ => inr "not reached";
     pdqsort := fun _ l => l;
     intn := fun _ => 0;
     elapsed := 0 |}.

Definition s2_response : Outcome :=
  fst (handleProxyRequest s2_env s2_manager 1000000000000 s2_world
         "/v1/chat/completions" (inl (chat_payload "gpt-4" false))).

(* --------------------------------------------------------------------- *)
(** ** Further notions: errors, the limiter's window, the estimator *)
(* --------------------------------------------------------------------- *)

(** An error of the type [ClassifyError] gives a status and a source. *)
Definition classified (statusCode : Z) (source : string) : ProxyError :=
  mkProxyError (ClassifyError statusCode source) "" statusCode None 0.

(** Every byte of a string satisfies [p]. *)
Fixpoint all_bytes (p : ascii -> bool) (s : string) : bool :=
  match s with
  | EmptyString => true
  | String c r => p c && all_bytes p r
  end.

Definition is_digit (c : ascii) : bool :=
  match digit_of c with
  | Some _ => true
  | None => false
  end.

(** The window stored for a limiter. *)
Definition window_of (rl : RateLimiter) (r : Redis) : list ZEntry := zset r (redisKey rl).

(** The entries a call at [now] keeps, for any window length. *)
Definition fresh (rl : RateLimiter) (now : Z) (w : list ZEntry) : list ZEntry :=
  List.filter (fun e => now - windowSeconds rl <? Score e) w.

Definition last_used_of (i : instanceWithState) : Z := LastUsed (State i).

(** A world with one stored state and one window. *)
Definition demoted_world : World :=
  mkWorld (mkStore {[ "A" := error_step 500 (ten_errors "A") ]} true)
          (mkRedis {[ "instance:rate_limit:window:A" := [mkZ 990 "90:17"] ]} Healthy) [].

(** The answer [CheckRateLimit] gives for an instance in a world: admitted
    without an error. *)
Definition admitted (m : Manager) (now : Z) (w : World) (name : string) (tokens : Z)
  : bool :=
  match fst (CheckRateLimit m now w name tokens) with
  | (true, None) => true
  | _ => false
  end.

(** The entry a capable configuration contributes to the eligible list,
    judged on one world: its stored state if that state is healthy and the
    limiter admits the request. *)
Definition eligible_entry (m : Manager) (now : Z) (w : World) (tokens : Z)
  (cfg : InstanceConfig) : list instanceWithState :=
  match GetInstanceState w now (Name cfg) with
  | Some state =>
      if IsHealthy state && admitted m now w (Name cfg) tokens then [mkIWS cfg state]
      else []
  | None => []
  end.

(** Two stores that a limiter call with eviction cutoff [c] cannot tell
    apart. *)
Definition same_view (c : Z) (r r' : Redis) : Prop :=
  fault r' = fault r /\
  forall key, ZRemRangeByScore c (zset r' key) = ZRemRangeByScore c (zset r key).

(** The sum of the configured weights, as a mathematical integer. *)
Definition config_weights (cfgs : list InstanceConfig) : Z :=
  fold_right (fun cfg acc => Weight cfg + acc) 0 cfgs.

(** A healthy world: two stored states, an empty limiter store. *)
Definition two_configs : list InstanceConfig :=
  [example_config "A" 2 1; example_config "B" 1 3].

(** What the counters and the two status fields of a state owe each
    other: every request counted is a success or an error, every error
    counted falls in one of the three classes (all modulo [2^64]), and the
    health field reads [unhealthy] exactly when the status is [error], the
    only status there is beside [healthy]. *)
Definition consistent (st : InstanceState) : bool :=
  (TotalRequests st =? wrap64 (SuccessfulRequests st + ErrorCount st)) &&
  (ErrorCount st =?
   wrap64 (TotalErrors500 st + TotalErrors503 st + TotalOtherErrors st)) &&
  ((String.eqb (Status st) StatusHealthy &&
    negb (String.eqb (HealthStatus st) "unhealthy")) ||
   (String.eqb (Status st) StatusError && String.eqb (HealthStatus st) "unhealthy")).

Definition stored_consistent (w : World) (name : string) : bool :=
  match states (store w) !! name with
  | Some st => consistent st
  | None => true
  end.

(** The counters of a state: successes, errors, requests, tokens served. *)
Definition tally (st : InstanceState) : Z * Z * Z * Z :=
  (SuccessfulRequests st, ErrorCount st, TotalRequests st, TotalTokensServed st).

Definition is_success (op : StateOp) : bool :=
  match op with OpSuccess _ _ _ => true | _ => false end.

Definition is_error (op : StateOp) : bool :=
  match op with OpError _ _ => true | _ => false end.

Definition count_ops (p : StateOp -> bool) (ops : list StateOp) : Z :=
  Z.of_nat (length (List.filter p ops)).

(** The tokens of the successful requests, as a mathematical integer. *)
Definition tokens_of_ops (ops : list StateOp) : Z :=
  fold_right (fun op acc => match op with OpSuccess _ tokens _ => tokens + acc | _ => acc end)
             0 ops.

(** The limiter store [r'] holds nothing that [r] does not hold, and fails
    as [r] does: entries were at most evicted. *)
Definition shrinks (r r' : Redis) : Prop :=
  fault r' = fault r /\ forall key e, In e (zset r' key) -> In e (zset r key).

(** An upstream that cannot be reached. *)
Definition unreachable (env : Env) : Prop :=
  forall url body, exists e, http_do env url body = inr e.

(** A message [ValidateRequest] accepts: an object with a [role] and a
    [content], whatever their values. *)
Definition message_ok (v : Value) : bool :=
  match v with
  | VMap msgMap =>
      bool_decide (is_Some (msgMap !! "role")) && bool_decide (is_Some (msgMap !! "content"))
  | _ => false
  end.

Definition internal_key (k : string) : bool := HasPrefix k "_internal_".

(** A line holds no line feed. *)
Definition no_LF (line : string) : bool :=
  all_bytes (fun c => negb (Ascii.eqb c "010")) line.

(** A line the scanner delivers: it holds no line feed and fits, with its
    line feed, the 64 KiB the scanner buffers at most. *)
Definition scannable (line : string) : bool :=
  no_LF line && (N.of_nat (String.length line) <? 65536)%N.

(** The text of a body made of the given lines, each ended by a line
    feed. *)
Definition lines_text (lines : list string) : string :=
  fold_right (fun line rest => line +:+ LF +:+ rest) "" lines.

Definition done_line : string := "data: [DONE]".

(** A step on a token count that adds a fixed amount, or nothing. *)
Definition shift (f : Z -> Z) : Prop :=
  (forall c, f c = c) \/ exists d, forall c, f c = wrap64 (c + d).

(** Two ways of walking maps that visit the same entries. *)
Definition same_entries (range1 range2 : gmap string Value -> list (string * Value)) : Prop :=
  forall m, Permutation (range1 m) (range2 m).

(** A walk in the order of the keys' listing, and the same walk reversed. *)
Definition walk_up (m : gmap string Value) : list (string * Value) := map_to_list m.
Definition walk_down (m : gmap string Value) : list (string * Value) := rev (map_to_list m).

(** The sum of the tokens of the time slots, as a mathematical integer. *)
Definition slot_sum (slots : gmap Z Z) : Z :=
  map_fold (fun _ tokens acc => tokens + acc) 0 slots.

(** A window with one entry that is past its time and one that is not. *)
Definition stale_redis : Redis :=
  mkRedis {[ "instance:rate_limit:window:A" := [mkZ 900 "70:1"; mkZ 990 "20:2"] ]} Healthy.


(* ===================================================================== *)
(** * Properties *)
(* ===================================================================== *)

(* --------------------------------------------------------------------- *)
(** ** Machine arithmetic *)
(* --------------------------------------------------------------------- *)

Lemma wrap64_id (z : Z) : - 2 ^ 63 <= z < 2 ^ 63 -> wrap64 z = z.
Proof.
  intros H. unfold wrap64.
  rewrite Z.mod_small by lia. lia.
Qed.

Lemma wrap64_add_l (a b : Z) : wrap64 (wrap64 a + b) = wrap64 (a + b).
Proof.
  unfold wrap64.
  replace ((a + 2 ^ 63) mod 2 ^ 64 - 2 ^ 63 + b + 2 ^ 63)
    with ((a + 2 ^ 63) mod 2 ^ 64 + b) by lia.
  rewrite Zplus_mod_idemp_l. f_equal. f_equal. lia.
Qed.

Lemma add64_id (a b : Z) : - 2 ^ 63 <= a + b < 2 ^ 63 -> add64 a b = a + b.
Proof. apply wrap64_id. Qed.

Lemma sub64_id (a b : Z) : - 2 ^ 63 <= a - b < 2 ^ 63 -> sub64 a b = a - b.
Proof. apply wrap64_id. Qed.

(* --------------------------------------------------------------------- *)
(** ** The sliding-window rate limiter *)
(* --------------------------------------------------------------------- *)

Lemma oldest_counted_le (w : list ZEntry) (a b : Z) :
  b <= a -> Z.min b (oldest_counted b w) = Z.min b (oldest_counted a w).
Proof.
  intros Hab. induction w as [|e w IH]; simpl; [lia|].
  destruct (token_part e); lia.
Qed.

Lemma capacity_loop (w : list ZEntry) (c o : Z) :
  fold_left capacity_step w (wrap64 c, o)
  = (wrap64 (c + window_tokens w), Z.min o (oldest_counted o w)).
Proof.
  revert c o. induction w as [|e w IH]; intros c o; simpl.
  - rewrite Z.add_0_r, Z.min_id. reflexivity.
  - unfold capacity_step at 2. fold (token_part e).
    destruct (token_part e) as [n|] eqn:E; simpl.
    + unfold add64. rewrite wrap64_add_l, IH. f_equal.
      * f_equal. lia.
      * destruct (Z.ltb_spec (Score e) o) as [Hlt|Hge].
        -- rewrite (oldest_counted_le w o (Score e)) by lia. lia.
        -- lia.
    + rewrite IH. reflexivity.
Qed.

Lemma oldest_counted_ub (now : Z) (w : list ZEntry) : oldest_counted now w <= now.
Proof. induction w as [|e w IH]; simpl; [lia|]. destruct (token_part e); lia. Qed.

Lemma oldest_counted_lb (now cutoff : Z) (w : list ZEntry) :
  cutoff < now -> Forall (fun e => cutoff < Score e) w ->
  cutoff < oldest_counted now w.
Proof.
  intros Hnow H. induction H as [|e w He _ IH]; simpl; [lia|].
  destruct (token_part e); lia.
Qed.

Lemma remaining_scores (now : Z) (w : list ZEntry) :
  Forall (fun e => now - 60 < Score e) (remaining now w).
Proof.
  apply List.Forall_forall. intros e He. apply filter_In in He as [_ He]. lia.
Qed.

(** Every denial carries a retry-after of at least one second, whatever
    the limiter, the clock and the store. *)
Lemma denial_retry_after_pos (rl : RateLimiter) (now : Z) (r : Redis) (t : Z) :
  has_capacity (fst (CheckCapacity rl now r t)) = false ->
  1 <= retry_after (fst (CheckCapacity rl now r t)).
Proof.
  unfold CheckCapacity.
  destruct ((0 <? maxInputTokens rl) && (maxInputTokens rl <? t)); simpl; [lia|].
  destruct (pipeline_exec r (redisKey rl) (sub64 now (windowSeconds rl))) as [[entries|] r'];
    simpl; [|discriminate].
  destruct (fold_left capacity_step entries (0, now)) as [cu ot].
  destruct (tokensPerMinute rl <? add64 cu t); simpl; [|discriminate].
  intros _. destruct (Z.ltb_spec (sub64 ot (sub64 now (windowSeconds rl))) 1); lia.
Qed.

(** C1, counterexample.  With [max_tpm = 100], no input cap, the clock at
    1000 and a window holding the single entry [(1005, "90:1")] (written by
    a replica whose clock runs five seconds ahead), a request for 20 tokens
    is denied with [retry_after = 60], not [max(1, 1005 - 940) = 65]. *)
Lemma C1_counterexample :
  ~ C1_stated (NewRateLimiter "A" 100 0) 1000
      (mkRedis {[ "instance:rate_limit:window:A" := [mkZ 1005 "90:1"] ]} Healthy) 20.
Proof.
  unfold C1_stated. vm_compute. intros [_ [oldest [Ho Hr]]].
  injection Ho as <-. discriminate Hr.
Qed.

(** C1, as amended.  For every call of [CheckCapacity] with token count
    [t]: a denial always has [retry_after >= 1]; if [max_input_tokens > 0]
    and [t > max_input_tokens] the call denies with [retry_after = 60]
    whatever the window and the store; otherwise, the store answering and
    the sums staying within the integer range, the call evicts the entries
    with score [<= now - 60], sums the token parts of the remaining
    entries to [current], admits with [retry_after = 0] if
    [current + t <= max_tpm], and denies otherwise with
    [retry_after = max(1, oldest - (now - 60))], where [oldest] is the
    smallest of [now] and the scores of the remaining entries whose token
    part parses. *)
Theorem C1_check_capacity (rl : RateLimiter) (now : Z) (r : Redis) (t : Z) :
  let c := fst (CheckCapacity rl now r t) in
  let rem := remaining now (zset r (redisKey rl)) in
  (has_capacity c = false -> 1 <= retry_after c) /\
  (over_input_limit rl t = true -> has_capacity c = false /\ retry_after c = 60) /\
  (over_input_limit rl t = false ->
   fault r = Healthy -> windowSeconds rl = 60 ->
   - 2 ^ 62 <= now <= 2 ^ 62 ->
   - 2 ^ 63 <= window_tokens rem + t < 2 ^ 63 ->
   zset (snd (CheckCapacity rl now r t)) (redisKey rl) = rem /\
   cap_err c = None /\
   if window_tokens rem + t <=? tokensPerMinute rl then
     has_capacity c = true /\ retry_after c = 0
   else
     has_capacity c = false /\
     retry_after c = Z.max 1 (oldest_counted now rem - (now - 60))).
Proof.
  intros c rem. split; [apply denial_retry_after_pos|]. split.
  - subst c. unfold CheckCapacity, over_input_limit. intros ->. simpl. auto.
  - intros Hin Hf Hw Hnow Hsum. subst c.
    pose proof (oldest_counted_ub now rem) as Hub.
    pose proof (oldest_counted_lb now (now - 60) rem ltac:(lia)
                  (remaining_scores now _)) as Hlb.
    assert (E : fold_left capacity_step rem (0, now)
                = (wrap64 (window_tokens rem), oldest_counted now rem)).
    { change 0 with (wrap64 0) at 1.
      rewrite capacity_loop, Z.add_0_l, Z.min_r by lia. reflexivity. }
    unfold CheckCapacity, over_input_limit in *. rewrite Hin.
    unfold pipeline_exec. rewrite Hf, Hw.
    rewrite sub64_id by lia.
    change (ZRemRangeByScore (now - 60) (zset r (redisKey rl))) with rem.
    rewrite E. unfold add64. rewrite wrap64_add_l, wrap64_id by lia.
    rewrite sub64_id by lia.
    destruct (Z.leb_spec (window_tokens rem + t) (tokensPerMinute rl)) as [Hle|Hgt];
      destruct (Z.ltb_spec (tokensPerMinute rl) (window_tokens rem + t)); try lia;
      simpl; unfold zset; simpl; rewrite lookup_insert_eq; simpl; repeat split.
    destruct (Z.ltb_spec (oldest_counted now rem - (now - 60)) 1); lia.
Qed.

(** The scenario S2 of the specification: one entry of 90 tokens ten
    seconds old, a limit of 100, a request for 20: denied for 50 seconds. *)
Lemma C1_check_capacity_witness :
  let rl := NewRateLimiter "A" 100 0 in
  let r := mkRedis {[ "instance:rate_limit:window:A" := [mkZ 990 "90:17"] ]} Healthy in
  has_capacity (fst (CheckCapacity rl 1000 r 20)) = false /\
  retry_after (fst (CheckCapacity rl 1000 r 20)) = 50.
Proof.
  intros rl r.
  destruct (C1_check_capacity rl 1000 r 20) as (_ & _ & H).
  specialize (H eq_refl eq_refl eq_refl ltac:(lia)
                ltac:(vm_compute; split; [discriminate | reflexivity])).
  destruct H as (_ & _ & H). vm_compute in H. exact H.
Defined.

(** C6.  For every call of [CheckCapacity] that reaches the coordination
    store (the request is not over the per-request input cap) and whose
    pipeline returns an error, whether nothing was executed or the
    eviction succeeded and the range-read failed, the request is admitted
    with [retry_after = 0] and the error returned is nil; the manager's
    [CheckRateLimit] hands the same admission, with a nil error, to the
    selector and the dispatcher. *)
Theorem C6_fail_open (rl : RateLimiter) (now : Z) (r : Redis) (t : Z) :
  over_input_limit rl t = false ->
  fault r <> Healthy ->
  fst (CheckCapacity rl now r t) = mkCapacity true 0 None /\
  forall (m : Manager) (w : World) (name : string),
    rateLimiters m !! name = Some rl -> redis w = r ->
    fst (CheckRateLimit m (now * 1000000000) w name t) = (true, None).
Proof.
  intros Hin Hf.
  assert (E : fst (CheckCapacity rl now r t) = mkCapacity true 0 None).
  { unfold CheckCapacity, over_input_limit in *. rewrite Hin.
    unfold pipeline_exec. destruct (fault r); [congruence| |]; reflexivity. }
  split; [exact E|].
  intros m w name Hrl Hr. unfold CheckRateLimit. rewrite Hrl, Hr.
  unfold Unix. rewrite Z.div_mul by lia.
  destruct (CheckCapacity rl now r t) as [c r'] eqn:Ec.
  simpl in E. subst c. reflexivity.
Qed.

Lemma C6_fail_open_witness :
  fst (CheckCapacity (NewRateLimiter "A" 100 0) 1000
         (mkRedis {[ "instance:rate_limit:window:A" := [mkZ 990 "500:17"] ]} Down) 20)
  = mkCapacity true 0 None.
Proof.
  apply (C6_fail_open (NewRateLimiter "A" 100 0) 1000
           (mkRedis {[ "instance:rate_limit:window:A" := [mkZ 990 "500:17"] ]} Down) 20).
  - reflexivity.
  - discriminate.
Defined.

(* --------------------------------------------------------------------- *)
(** ** Sorting by insertion *)
(* --------------------------------------------------------------------- *)

Section InsertionSort.
Context {A : Type}.
Variable key : A -> Z.

Let less (a b : A) : bool := key a <? key b.

Lemma insert_left_perm (x : A) (rp : list A) :
  Permutation (GoSort.insert_left less x rp) (x :: rp).
Proof.
  induction rp as [|y rp IH]; simpl; [reflexivity|].
  destruct (less x y); [|reflexivity].
  rewrite IH. apply perm_swap.
Qed.

Lemma insert_left_past_all (x : A) (rp : list A) :
  Forall (fun y => key x < key y) rp ->
  GoSort.insert_left less x rp = rp ++ [x].
Proof.
  induction 1 as [|y rp Hy _ IH]; simpl; [reflexivity|].
  unfold less at 1. destruct (Z.ltb_spec (key x) (key y)); [|lia].
  rewrite IH. reflexivity.
Qed.

Lemma insert_left_keeps_last (x i : A) (rp : list A) :
  List.last rp x = i -> rp <> [] -> key i <= key x ->
  List.last (GoSort.insert_left less x rp) x = i.
Proof.
  induction rp as [|y rp IH]; intros Hl Hne Hk; [congruence|].
  simpl GoSort.insert_left. unfold less at 1.
  destruct (Z.ltb_spec (key x) (key y)) as [Hlt|Hge].
  - destruct rp as [|z rp].
    + simpl in Hl. subst y. lia.
    + assert (Hl' : List.last (z :: rp) x = i) by exact Hl.
      specialize (IH Hl' ltac:(discriminate) Hk).
      change (List.last (y :: GoSort.insert_left less x (z :: rp)) x = i).
      destruct (GoSort.insert_left less x (z :: rp)) as [|u v] eqn:E.
      * pose proof (insert_left_perm x (z :: rp)) as P. rewrite E in P.
        apply Permutation_nil in P. discriminate.
      * exact IH.
  - exact Hl.
Qed.

(** After the elements of [p] have been inserted, the sorted slice is a
    rearrangement of [p] that starts with the earliest of the elements of
    least key. *)
Lemma insertion_first_min (p : list A) :
  let rp := fold_left (fun rp x => GoSort.insert_left less x rp) p [] in
  Permutation rp p /\
  (p = [] \/
   exists i l1 l2, p = l1 ++ i :: l2 /\ (forall d, List.last rp d = i) /\ rp <> [] /\
                   Forall (fun j => key i < key j) l1 /\
                   Forall (fun j => key i <= key j) l2).
Proof.
  induction p as [|x p IH] using rev_ind; simpl.
  - split; [reflexivity | left; reflexivity].
  - rewrite fold_left_app. simpl.
    set (rp := fold_left (fun rp x => GoSort.insert_left less x rp) p []) in *.
    destruct IH as [P D]. split.
    + rewrite insert_left_perm, P. apply Permutation_cons_append.
    + right. destruct D as [->|(i & l1 & l2 & -> & Hlast & Hne & H1 & H2)].
      * symmetry in P. apply Permutation_nil in P. rewrite P. simpl.
        exists x, [], []. repeat split; auto; discriminate.
      * destruct (Z.lt_ge_cases (key x) (key i)) as [Hlt|Hge].
        -- assert (F : Forall (fun y => key x < key y) (l1 ++ i :: l2)).
           { apply Forall_app. split; [|constructor].
             - eapply List.Forall_impl; [|exact H1]. simpl. intros; lia.
             - lia.
             - eapply List.Forall_impl; [|exact H2]. simpl. intros; lia. }
           assert (F' : Forall (fun y => key x < key y) rp).
           { rewrite P. exact F. }
           rewrite (insert_left_past_all x rp F').
           exists x, (l1 ++ i :: l2), []. repeat split; auto.
           ++ intros d. apply List.last_last.
           ++ destruct rp; discriminate.
        -- exists i, l1, (l2 ++ [x]). repeat split; auto.
           ++ rewrite <- app_assoc. reflexivity.
           ++ intros d.
              assert (E : forall l d1 d2, l <> [] -> @List.last A l d1 = List.last l d2).
              { clear. induction l as [|a [|b l] IH]; intros d1 d2 Hn;
                  [congruence | reflexivity |].
                change (List.last (b :: l) d1 = List.last (b :: l) d2).
                apply IH. discriminate. }
              rewrite (E _ d x).
              ** apply insert_left_keeps_last; auto.
              ** intro E0. pose proof (insert_left_perm x rp) as Q.
                 rewrite E0 in Q. apply Permutation_nil in Q. discriminate.
           ++ intro E0. pose proof (insert_left_perm x rp) as Q.
              rewrite E0 in Q. apply Permutation_nil in Q. discriminate.
           ++ apply Forall_app. split; [exact H2|]. constructor; [lia|constructor].
Qed.

End InsertionSort.

(* --------------------------------------------------------------------- *)
(** ** The failover strategy *)
(* --------------------------------------------------------------------- *)

(** C7, counterexample.  Two eligible instances of equal priority, listed
    as [b] then [a]: the selector returns [b], the one listed first, and
    not [a], the one of least name. *)
Lemma C7_counterexample :
  ~ C7_stated (fun _ l => l) [example_instance "b" 1 1; example_instance "a" 1 1].
Proof.
  intros (i & Hsel & Hin & _ & Hname).
  vm_compute in Hsel. injection Hsel as Hi.
  specialize (Hname (example_instance "a" 1 1) ltac:(right; left; reflexivity)).
  destruct Hin as [<-|[<-|[]]].
  - specialize (Hname eq_refl). vm_compute in Hname. discriminate.
  - vm_compute in Hi. discriminate.
Qed.

(** C7, as amended.  For every non-empty list of eligible instances under
    the failover strategy the selector returns an instance of least
    priority (for more than twelve instances: provided the library's sort
    returns the list sorted); names are never compared: among at most
    twelve eligible instances, the instance returned is the earliest in
    list order of those of least priority. *)
Theorem C7_failover
  (pdq : (instanceWithState -> Z) -> list instanceWithState -> list instanceWithState)
  (l : list instanceWithState) :
  l <> [] ->
  ((12 < length l)%nat -> sorted_by_priority l (pdq (fun i => Priority (Cfg i)) l)) ->
  exists i, selectByFailover pdq l = Some (Name (Cfg i)) /\ In i l /\
            (forall j, In j l -> priority_of i <= priority_of j) /\
            ((length l <= 12)%nat ->
             exists l1 l2, l = l1 ++ i :: l2 /\
                           Forall (fun j => priority_of i < priority_of j) l1).
Proof.
  intros Hne Hpdq. unfold selectByFailover, sort_by, GoSort.Slice.
  destruct (Nat.leb_spec (length l) 12) as [Hlen|Hlen].
  - destruct (insertion_first_min priority_of l) as [P [->|D]]; [congruence|].
    destruct D as (i & l1 & l2 & El & Hlast & Hrp & H1 & H2).
    exists i. unfold GoSort.insertionSort.
    change (fun a b => Priority (Cfg a) <? Priority (Cfg b))
      with (fun a b => priority_of a <? priority_of b).
    set (rp := fold_left _ l []) in *.
    rewrite (app_removelast_last i Hrp), Hlast, rev_app_distr. simpl.
    split; [reflexivity|]. split; [|split].
    + rewrite El. apply in_or_app. right. left. reflexivity.
    + intros j Hj. rewrite El in Hj. apply in_app_or in Hj as [Hj|[<-|Hj]].
      * rewrite List.Forall_forall in H1. specialize (H1 j Hj). simpl in H1. lia.
      * lia.
      * rewrite List.Forall_forall in H2. exact (H2 j Hj).
    + intros _. exists l1, l2. auto.
  - destruct (Hpdq Hlen) as [P S].
    destruct (pdq (fun i => Priority (Cfg i)) l) as [|i s] eqn:E.
    + apply Permutation_nil_r in P. congruence.
    + exists i. simpl. split; [reflexivity|]. split; [|split].
      * eapply Permutation_in; [symmetry; exact P | left; reflexivity].
      * intros j Hj. apply (Permutation_in _ P) in Hj as [<-|Hj]; [lia|].
        apply StronglySorted_inv in S as [_ S].
        rewrite List.Forall_forall in S. exact (S j Hj).
      * lia.
Qed.

Lemma C7_failover_witness :
  exists i, selectByFailover (fun _ l => l)
              [example_instance "b" 2 1; example_instance "c" 1 1; example_instance "a" 1 1]
            = Some (Name (Cfg i)) /\ Name (Cfg i) = "c".
Proof.
  destruct (C7_failover (fun _ l => l)
              [example_instance "b" 2 1; example_instance "c" 1 1; example_instance "a" 1 1]
              ltac:(discriminate) ltac:(simpl; lia)) as (i & Hsel & _).
  exists i. split; [exact Hsel|].
  vm_compute in Hsel. injection Hsel as Hi. symmetry. exact Hi.
Defined.

(* --------------------------------------------------------------------- *)
(** ** The weighted strategy *)
(* --------------------------------------------------------------------- *)

Lemma sum_weights_app (l1 l2 : list instanceWithState) :
  sum_weights (l1 ++ l2) = sum_weights l1 + sum_weights l2.
Proof. induction l1 as [|i l1 IH]; simpl; [reflexivity|]. rewrite IH. lia. Qed.

Lemma sum_weights_pos (l : list instanceWithState) :
  Forall (fun i => 1 <= weight_of i) l -> 0 <= sum_weights l.
Proof. induction 1; simpl; lia. Qed.

Lemma sum_weights_firstn_le (l : list instanceWithState) (k : nat) :
  Forall (fun i => 1 <= weight_of i) l -> sum_weights (firstn k l) <= sum_weights l.
Proof.
  intros H. rewrite <- (firstn_skipn k l) at 2. rewrite sum_weights_app.
  assert (0 <= sum_weights (skipn k l)); [|lia].
  apply sum_weights_pos. rewrite <- (firstn_skipn k l) in H.
  apply Forall_app in H. tauto.
Qed.

Lemma totalWeight_sum (l : list instanceWithState) (c : Z) :
  fold_left (fun total i => add64 total (Weight (Cfg i))) l (wrap64 c)
  = wrap64 (c + sum_weights l).
Proof.
  revert c. induction l as [|i l IH]; intros c; simpl.
  - rewrite Z.add_0_r. reflexivity.
  - unfold add64 at 2. rewrite wrap64_add_l, IH. f_equal. unfold weight_of. lia.
Qed.

(** The walk over the list, started with the running sum [c]. *)
Lemma weight_walk_spec (l : list instanceWithState) (c target : Z) :
  Forall (fun i => 1 <= weight_of i) l ->
  0 <= c -> c + sum_weights l < 2 ^ 63 ->
  (c + sum_weights l <= target -> weight_walk c target l = None) /\
  (c <= target < c + sum_weights l ->
   exists l1 i l2, l = l1 ++ i :: l2 /\
                   weight_walk c target l = Some (Name (Cfg i)) /\
                   c + sum_weights l1 <= target < c + sum_weights (l1 ++ [i])).
Proof.
  intros H. revert c. induction H as [|i l Hi Hl IH]; intros c Hc Hs.
  - simpl in *. split; [reflexivity | lia].
  - pose proof (sum_weights_pos l Hl) as Hp.
    change (sum_weights (i :: l)) with (weight_of i + sum_weights l) in *.
    simpl weight_walk. fold (weight_of i). rewrite add64_id by lia.
    destruct (IH (c + weight_of i) ltac:(lia) ltac:(lia)) as [IHn IHs].
    split.
    + intros Ht. destruct (Z.ltb_spec target (c + weight_of i)); [lia|].
      apply IHn. lia.
    + intros Ht. destruct (Z.ltb_spec target (c + weight_of i)) as [Hlt|Hge].
      * exists [], i, l. simpl. repeat split; lia.
      * destruct (IHs ltac:(lia)) as (l1 & j & l2 & -> & Hw & Hlt).
        exists (i :: l1), j, l2. repeat split; auto.
        -- change (sum_weights (i :: l1)) with (weight_of i + sum_weights l1). lia.
        -- change (sum_weights ((i :: l1) ++ [j]))
             with (weight_of i + sum_weights (l1 ++ [j])). lia.
Qed.

Lemma filter_all_length {A : Type} (f : A -> bool) (b : bool) (l : list A) :
  (forall x, In x l -> f x = b) ->
  length (List.filter f l) = if b then length l else 0%nat.
Proof.
  induction l as [|x l IH]; intros H; simpl; [destruct b; reflexivity|].
  rewrite (H x (or_introl eq_refl)).
  specialize (IH (fun y Hy => H y (or_intror Hy))).
  destruct b; simpl; lia.
Qed.

(** Over the draws [[c, c + sum)], the walk started at [c] returns [name]
    as often as the weights carrying that name add up to. *)
Lemma weight_walk_count (name : string) (l : list instanceWithState) (c : Z) :
  Forall (fun i => 1 <= weight_of i) l ->
  0 <= c -> c + sum_weights l < 2 ^ 63 ->
  Z.of_nat (length (List.filter (fun target => names_eqb (weight_walk c target l) name)
                                (seqZ c (sum_weights l))))
  = weight_named name l.
Proof.
  intros H. revert c. induction H as [|i l Hi Hl IH]; intros c Hc Hs.
  - reflexivity.
  - pose proof (sum_weights_pos l Hl) as Hp.
    change (sum_weights (i :: l)) with (weight_of i + sum_weights l) in *.
    change (weight_named name (i :: l))
      with ((if String.eqb (Name (Cfg i)) name then weight_of i else 0) + weight_named name l).
    rewrite seqZ_app by lia. rewrite List.filter_app, length_app, Nat2Z.inj_add.
    f_equal.
    + rewrite (filter_all_length _ (String.eqb (Name (Cfg i)) name)).
      * rewrite length_seqZ. destruct (String.eqb (Name (Cfg i)) name); lia.
      * intros t Ht. apply list_elem_of_In, elem_of_seqZ in Ht.
        simpl. fold (weight_of i). rewrite add64_id by lia.
        destruct (Z.ltb_spec t (c + weight_of i)); [reflexivity | lia].
    + rewrite <- (IH (c + weight_of i)) by lia. do 2 f_equal.
      apply List.filter_ext_in. intros t Ht.
      apply list_elem_of_In, elem_of_seqZ in Ht.
      simpl. fold (weight_of i). rewrite add64_id by lia.
      destruct (Z.ltb_spec t (c + weight_of i)); [lia | reflexivity].
Qed.

Lemma weight_named_unique (l : list instanceWithState) (i : instanceWithState) :
  NoDup (map (fun i => Name (Cfg i)) l) -> In i l ->
  weight_named (Name (Cfg i)) l = weight_of i.
Proof.
  induction l as [|j l IH]; intros Hnd Hin; [destruct Hin|].
  apply NoDup_cons in Hnd as [Hj Hnd]. simpl.
  destruct Hin as [->|Hin].
  - rewrite String.eqb_refl.
    assert (E : weight_named (Name (Cfg i)) l = 0); [|lia].
    clear IH Hnd. induction l as [|k l IH]; [reflexivity|]. simpl.
    destruct (String.eqb_spec (Name (Cfg k)) (Name (Cfg i))) as [Ek|_].
    + exfalso. apply Hj. rewrite <- Ek. left.
    + rewrite IH; [lia|]. intro Hc. apply Hj. right. exact Hc.
  - destruct (String.eqb_spec (Name (Cfg j)) (Name (Cfg i))) as [Ej|_].
    + exfalso. apply Hj. rewrite Ej.
      apply list_elem_of_In. apply in_map_iff. exists i. auto.
    + rewrite (IH Hnd Hin). lia.
Qed.

Lemma totalWeight_eq (l : list instanceWithState) :
  - 2 ^ 63 <= sum_weights l < 2 ^ 63 -> totalWeight l = sum_weights l.
Proof.
  intros H. unfold totalWeight. change 0 with (wrap64 0) at 1.
  rewrite totalWeight_sum, Z.add_0_l. apply wrap64_id. exact H.
Qed.

(** C9.  Under the weighted strategy, with weights of at least one (as the
    configuration loader enforces) whose sum fits the integer range: for
    every target in [[0, Σ weight)] the selector returns the first instance
    in list order whose prefix sum of weights strictly exceeds the target;
    were no prefix sum to exceed the draw, it would return the first
    instance; and, instance names being distinct, exactly [weight] of the
    [Σ weight] equally likely targets select a given instance, which is
    the probability [weight / Σ weight]. *)
Theorem C9_weighted (l : list instanceWithState) :
  l <> [] ->
  Forall (fun i => 1 <= weight_of i) l ->
  sum_weights l < 2 ^ 63 ->
  (forall target, 0 <= target < sum_weights l ->
     exists i, selectByWeight (fun _ => target) l = Some (Name (Cfg i)) /\
               first_exceeding target l i) /\
  (forall intn, sum_weights l <= intn (totalWeight l) ->
     selectByWeight intn l = head_name l) /\
  (NoDup (map (fun i => Name (Cfg i)) l) ->
   forall i, In i l ->
     Z.of_nat (draws_for l (Name (Cfg i))) = weight_of i /\
     Z.of_nat (length (seqZ 0 (sum_weights l))) = sum_weights l).
Proof.
  intros Hne Hw Hs.
  pose proof (sum_weights_pos l Hw) as Hp.
  assert (Hpos : 1 <= sum_weights l).
  { destruct Hw as [|i l Hi Hl]; [congruence|].
    pose proof (sum_weights_pos l Hl).
    change (sum_weights (i :: l)) with (weight_of i + sum_weights l). lia. }
  assert (Ht : totalWeight l = sum_weights l) by (apply totalWeight_eq; lia).
  assert (Hsel : forall target, 0 <= target < sum_weights l ->
            selectByWeight (fun _ => target) l = weight_walk 0 target l /\
            exists l1 i l2, l = l1 ++ i :: l2 /\
              weight_walk 0 target l = Some (Name (Cfg i)) /\
              0 + sum_weights l1 <= target < 0 + sum_weights (l1 ++ [i])).
  { intros target Htg.
    destruct (weight_walk_spec l 0 target Hw ltac:(lia) ltac:(lia)) as [_ Hsome].
    destruct (Hsome ltac:(lia)) as (l1 & i & l2 & El & Hwalk & Hint).
    split; [|exists l1, i, l2; auto].
    unfold selectByWeight. rewrite Ht.
    destruct (Z.leb_spec (sum_weights l) 0); [lia|]. rewrite Hwalk. reflexivity. }
  split; [|split].
  - intros target Htg. destruct (Hsel target Htg) as [E (l1 & i & l2 & El & Hwalk & Hint)].
    exists i. split; [congruence|]. exists l1, l2. repeat split; [exact El | lia |].
    intros k Hk. rewrite El, firstn_app.
    replace (k - length l1)%nat with 0%nat by lia. simpl. rewrite app_nil_r.
    assert (Hw1 : Forall (fun i => 1 <= weight_of i) l1).
    { rewrite El in Hw. apply Forall_app in Hw. tauto. }
    pose proof (sum_weights_firstn_le l1 k Hw1). lia.
  - intros intn Hi. unfold selectByWeight. rewrite Ht in *.
    destruct (Z.leb_spec (sum_weights l) 0); [lia|].
    destruct (weight_walk_spec l 0 (intn (sum_weights l)) Hw ltac:(lia) ltac:(lia))
      as [Hnone _].
    rewrite Hnone by lia. reflexivity.
  - intros Hnd i Hin. split; [|rewrite length_seqZ; lia].
    rewrite <- (weight_named_unique l i Hnd Hin).
    rewrite <- (weight_walk_count (Name (Cfg i)) l 0 Hw ltac:(lia) ltac:(lia)).
    unfold draws_for. do 2 f_equal. apply List.filter_ext_in. intros t Htin.
    apply list_elem_of_In, elem_of_seqZ in Htin.
    unfold chosen_by. destruct (Hsel t ltac:(lia)) as [-> _]. reflexivity.
Qed.

(** The scenario S4 of the specification: weights 1, 2 and 7. *)
Lemma C9_weighted_witness :
  let l := [example_instance "a" 0 1; example_instance "b" 0 2; example_instance "c" 0 7] in
  selectByWeight (fun _ => 2) l = Some "b" /\
  Z.of_nat (draws_for l "c") = 7.
Proof.
  intros l.
  assert (Hne : l <> []) by discriminate.
  assert (Hw : Forall (fun i => 1 <= weight_of i) l)
    by (repeat constructor; vm_compute; discriminate).
  assert (Hs : sum_weights l < 2 ^ 63) by (vm_compute; reflexivity).
  destruct (C9_weighted l Hne Hw Hs) as (Hfirst & _ & Hcount).
  split.
  - destruct (Hfirst 2 ltac:(vm_compute; split; [discriminate | reflexivity]))
      as (i & Hsel & _).
    pose proof Hsel as Hname. vm_compute in Hname.
    rewrite Hsel. symmetry. exact Hname.
  - assert (Hnd : NoDup (map (fun i => Name (Cfg i)) l)).
    { apply (bool_decide_unpack _). vm_compute. exact I. }
    exact (proj1 (Hcount Hnd (example_instance "c" 0 7)
                    ltac:(right; right; left; reflexivity))).
Defined.

(* --------------------------------------------------------------------- *)
(** ** The request transformer *)
(* --------------------------------------------------------------------- *)

(** C4, counterexample.  With an estimate of 2000 and model [gpt-4], a
    payload whose [max_tokens] is 7000.5 exceeds both 5000 and
    [2000 + 5000], yet it is left as it is: its integer part, 7000, does
    not exceed 7000. *)
Lemma C4_counterexample :
  ~ C4_stated (constant_estimator 2000) "/v1/completions"
      (completion_payload "gpt-4" 7000.5%float) "gpt4".
Proof.
  intros H. specialize (H _ eq_refl). vm_compute in H. discriminate H.
Qed.

Lemma transform_inversion (estimate : TokenEstimator)
  (endpoint : string) (payload : gmap string Value) (deployment : string)
  (res : TransformResult) :
  TransformOpenAIToAzure estimate endpoint payload deployment = Ok res ->
  exists modelName,
    payload !! "model" = Some (VString modelName) /\ modelName <> "" /\
    estimateTokens estimate endpoint (delete "model" payload) modelName
    = Ok (RequiredTokens res) /\
    OriginalModel res = ToLower modelName /\
    Endpoint res = endpoint /\ Method res = "POST" /\
    Payload res =
      match delete "model" payload !! "max_tokens" with
      | Some (VFloat f) =>
          if (5000 <? of_float64 f) && (add64 (RequiredTokens res) 5000 <? of_float64 f) &&
             negb (Contains modelName "2024-05-13")
          then <["max_tokens" := VInt (add64 (RequiredTokens res) 5000)]> (delete "model" payload)
          else delete "model" payload
      | _ => delete "model" payload
      end.
Proof.
  unfold TransformOpenAIToAzure.
  destruct (payload !! "model") as [[| | | |modelName| |]|] eqn:Em; try discriminate.
  destruct (String.eqb_spec modelName "") as [|Hne]; [discriminate|].
  destruct (estimateTokens estimate endpoint (delete "model" payload) modelName)
    as [req| |] eqn:Ee;
    try discriminate.
  intros [= <-]. exists modelName. simpl. repeat split; auto.
Qed.

(** C4, as amended.  [TransformOpenAIToAzure] rewrites the payload's
    [max_tokens] to [required_tokens + 5000] if and only if [max_tokens]
    is present as a number whose integer part (the fraction dropped) is
    [> 5000] and [> required_tokens + 5000] and the model name does not
    contain [2024-05-13]; in every other case [max_tokens] is left
    unchanged.  Every other key but [model], which is removed, is kept. *)
Theorem C4_max_tokens_clamp (estimate : TokenEstimator)
  (endpoint : string) (payload : gmap string Value) (deployment : string)
  (res : TransformResult) :
  TransformOpenAIToAzure estimate endpoint payload deployment = Ok res ->
  0 <= RequiredTokens res <= 2 ^ 62 ->
  Payload res !! "max_tokens"
  = (if clamp_fires payload (RequiredTokens res)
     then Some (VInt (RequiredTokens res + 5000))
     else payload !! "max_tokens") /\
  Payload res !! "model" = None /\
  forall k, k <> "max_tokens" -> k <> "model" -> Payload res !! k = payload !! k.
Proof.
  intros Ht Hreq.
  destruct (transform_inversion _ _ _ _ _ Ht) as (modelName & Em & _ & _ & _ & _ & _ & Ep).
  rewrite lookup_delete_ne in Ep by discriminate.
  rewrite add64_id in Ep by lia.
  unfold clamp_fires, model_of. rewrite Em, Ep.
  destruct (payload !! "max_tokens") as [[| |f| | | |]|] eqn:Emax;
    try (rewrite lookup_delete_ne, lookup_delete_eq, Emax by discriminate;
         repeat split; auto; intros k _ Hk; rewrite lookup_delete_ne by congruence;
         reflexivity).
  destruct ((5000 <? of_float64 f) && (RequiredTokens res + 5000 <? of_float64 f) &&
            negb (Contains modelName "2024-05-13")).
  - rewrite lookup_insert_eq, lookup_insert_ne, lookup_delete_eq by discriminate.
    repeat split; auto. intros k Hk1 Hk2.
    rewrite lookup_insert_ne, lookup_delete_ne by congruence. reflexivity.
  - rewrite lookup_delete_ne, lookup_delete_eq, Emax by discriminate.
    repeat split; auto. intros k _ Hk. rewrite lookup_delete_ne by congruence. reflexivity.
Qed.

(** The scenario S6 of the specification. *)
Lemma C4_max_tokens_clamp_witness :
  (forall res,
     TransformOpenAIToAzure (constant_estimator 2000) "/v1/completions"
       (completion_payload "gpt-4" 50000%float) "gpt4" = Ok res ->
     Payload res !! "max_tokens" = Some (VInt 7000)) /\
  (forall res,
     TransformOpenAIToAzure (constant_estimator 2000) "/v1/completions"
       (completion_payload "gpt-4o-2024-05-13" 50000%float) "gpt4o" = Ok res ->
     Payload res !! "max_tokens" = Some (VFloat 50000%float)).
Proof.
  split; intros res Hres.
  - destruct (C4_max_tokens_clamp _ _ _ _ res Hres) as [H _].
    + injection Hres as <-. vm_compute. split; discriminate.
    + rewrite H. injection Hres as <-. vm_compute. reflexivity.
  - destruct (C4_max_tokens_clamp _ _ _ _ res Hres) as [H _].
    + injection Hres as <-. vm_compute. split; discriminate.
    + rewrite H. injection Hres as <-. vm_compute. reflexivity.
Defined.

(* --------------------------------------------------------------------- *)
(** ** The latency average of an instance's state *)
(* --------------------------------------------------------------------- *)

(** C5, counterexample.  One successful request that took 100 ms, then one
    health update reporting healthy after a probe of 50 ms: the stored
    average is 50, not the average 100 of the successful requests. *)
Lemma C5_counterexample :
  ~ C5_stated (NewManager [example_config "A" 1 1] "failover") "A"
      [OpSuccess 1000000000 10 100000000; OpHealth 2000000000 true 50000000 None]
      empty_world.
Proof.
  unfold C5_stated. intros H.
  apply (f_equal (fun o => float_is o 50%float)) in H.
  vm_compute in H. discriminate H.
Qed.

Lemma ema_snoc (acc : list float) (x : float) :
  ema (acc ++ [x]) = Some (match ema acc with None => x | Some a => ema_step a x end).
Proof.
  destruct acc as [|first rest]; simpl; [reflexivity|].
  rewrite fold_left_app. reflexivity.
Qed.

Lemma ema_samples_step (acc : list float) (op : StateOp) :
  ema (samples_step acc op) = avg_step (ema acc) op.
Proof.
  destruct op as [now tokens elapsed|now code|now [|] latency err]; simpl; auto.
  rewrite ema_snoc. destruct (ema acc); reflexivity.
Qed.

Lemma get_avg_any_clock (w : World) (name : string) (now : Z) :
  store_up (store w) = true ->
  exists st, GetInstanceState w now name = Some st /\
             AvgLatencyMs st = stored_avg w name.
Proof.
  intros Hup. unfold stored_avg, GetInstanceState, Get. rewrite Hup.
  eexists. split; [reflexivity|].
  destruct (states (store w) !! name); reflexivity.
Qed.

Lemma set_then_get (w : World) (name : string) (st : InstanceState) :
  store_up (store w) = true ->
  let w' := snd (UpdateInstanceState w name st) in
  store_up (store w') = true /\ stored_avg w' name = AvgLatencyMs st.
Proof.
  intros Hup. unfold UpdateInstanceState, Set_, stored_avg, GetInstanceState, Get.
  rewrite Hup. simpl. rewrite lookup_insert_eq. auto.
Qed.

Lemma update_usage_store (m : Manager) (now : Z) (w : World) (name : string) (tokens : Z) :
  store (snd (Instance.UpdateUsage m now w name tokens)) = store w.
Proof.
  unfold Instance.UpdateUsage. destruct (rateLimiters m !! name); [|reflexivity].
  destruct (RateLimit.UpdateUsage _ _ _ _ _). reflexivity.
Qed.

Lemma stored_avg_store (w1 w2 : World) (name : string) :
  store w1 = store w2 -> stored_avg w1 name = stored_avg w2 name.
Proof. unfold stored_avg, GetInstanceState. intros ->. reflexivity. Qed.

Lemma apply_op_avg (m : Manager) (name : string) (w : World) (op : StateOp) :
  store_up (store w) = true ->
  store_up (store (apply_op m name w op)) = true /\
  stored_avg (apply_op m name w op) name = avg_step (stored_avg w name) op.
Proof.
  intros Hup. destruct op as [now tokens elapsed|now code|now healthy latency err]; simpl.
  - unfold recordUsage.
    set (w1 := snd (Instance.UpdateUsage m now w name tokens)).
    assert (Hs : store w1 = store w) by apply update_usage_store.
    assert (Hup1 : store_up (store w1) = true) by (rewrite Hs; exact Hup).
    destruct (get_avg_any_clock w1 name now Hup1) as (st & -> & Hst).
    destruct (set_then_get w1 name (usage_step now tokens elapsed st) Hup1) as [H1 H2].
    split; [exact H1|]. rewrite H2. simpl.
    rewrite Hst, (stored_avg_store w1 w name Hs).
    destruct (stored_avg w name); reflexivity.
  - unfold recordError.
    destruct (get_avg_any_clock w name now Hup) as (st & -> & Hst).
    destruct (set_then_get w name (error_step code st) Hup) as [H1 H2].
    split; [exact H1|]. rewrite H2, <- Hst. unfold error_step.
    destruct (_ && _); reflexivity.
  - unfold updateInstanceHealth. simpl.
    destruct (get_avg_any_clock w name now Hup) as (st & -> & Hst).
    destruct (set_then_get w name (health_step now (mkHealth name healthy latency err) st) Hup)
      as [H1 H2].
    split; [exact H1|]. rewrite H2, <- Hst. unfold health_step. simpl.
    destruct healthy; reflexivity.
Qed.

Lemma samples_without_healthy_update (ops : list StateOp) (acc : list float) :
  forallb (fun op => negb (is_healthy_update op)) ops = true ->
  fold_left samples_step ops acc = acc ++ success_latencies ops.
Proof.
  revert acc. induction ops as [|op ops IH]; intros acc H; simpl in *.
  - rewrite app_nil_r. reflexivity.
  - apply andb_prop in H as [Hop H]. rewrite (IH _ H).
    destruct op as [now tokens elapsed|now code|now [|] latency err]; simpl in *;
      try discriminate; try reflexivity.
    rewrite <- app_assoc. reflexivity.
Qed.

(** C5, as amended.  Whenever [avg_latency_ms] is present in an instance's
    state, it equals the exponential moving average with smoothing 0.1
    ([avg <- 0.9 avg + 0.1 elapsed_ms], seeded at the first sample) of the
    probe latency of the last health update that reported healthy, if
    there was one, followed by the latencies of the successful requests
    recorded since then (since the creation of the state if there was
    none).  Success accounting extends the series, error accounting and
    unhealthy health updates leave the average unchanged, and a healthy
    health update overwrites it with its probe latency. *)
Theorem C5_latency_average (m : Manager) (name : string) (ops : list StateOp) (w : World) :
  store_up (store w) = true ->
  states (store w) !! name = None ->
  stored_avg (run_ops m name ops w) name = ema (samples ops) /\
  (forallb (fun op => negb (is_healthy_update op)) ops = true ->
   samples ops = success_latencies ops) /\
  (forall op, stored_avg (apply_op m name (run_ops m name ops w) op) name
              = avg_step (stored_avg (run_ops m name ops w) name) op).
Proof.
  intros Hup Hnew.
  assert (Hinv : store_up (store (run_ops m name ops w)) = true /\
                 stored_avg (run_ops m name ops w) name = ema (samples ops)).
  { unfold run_ops, samples. induction ops as [|op ops IH] using rev_ind.
    - simpl. split; [exact Hup|].
      unfold stored_avg, GetInstanceState, Get. rewrite Hup, Hnew. reflexivity.
    - rewrite !fold_left_app. simpl. destruct IH as [IH1 IH2].
      destruct (apply_op_avg m name _ op IH1) as [H1 H2].
      split; [exact H1|]. rewrite H2, IH2, ema_samples_step. reflexivity. }
  destruct Hinv as [Hup' Havg]. split; [exact Havg|]. split.
  - intros H. unfold samples. rewrite samples_without_healthy_update by exact H.
    reflexivity.
  - intros op. apply apply_op_avg. exact Hup'.
Qed.

Lemma C5_latency_average_witness :
  float_is
    (stored_avg
       (run_ops (NewManager [example_config "A" 1 1] "failover") "A"
          [OpSuccess 1000000000 10 100000000; OpError 1500000000 500;
           OpSuccess 2000000000 10 200000000]
          empty_world) "A")
    110%float = true.
Proof.
  destruct (C5_latency_average (NewManager [example_config "A" 1 1] "failover") "A"
              [OpSuccess 1000000000 10 100000000; OpError 1500000000 500;
               OpSuccess 2000000000 10 200000000]
              empty_world eq_refl eq_refl) as [H _].
  rewrite H. vm_compute. reflexivity.
Defined.

(* --------------------------------------------------------------------- *)
(** ** Eligibility and selection *)
(* --------------------------------------------------------------------- *)

Lemma check_rate_limit_world (m : Manager) (now : Z) (w : World) (name : string) (t : Z) :
  store (snd (CheckRateLimit m now w name t)) = store w /\
  limiter_calls (snd (CheckRateLimit m now w name t)) = limiter_calls w ++ [(name, t)].
Proof.
  unfold CheckRateLimit. destruct (rateLimiters m !! name) as [rl|]; [|auto].
  destruct (CheckCapacity rl (Unix now) (redis w) t). auto.
Qed.

Lemma eligible_fold (m : Manager) (now tokens : Z) (cfgs : list InstanceConfig)
  (acc : list instanceWithState) (w : World) :
  Forall (healthy_in (store w) now) acc ->
  let r := fold_left (eligible_step m now tokens) cfgs (acc, w) in
  store (snd r) = store w /\
  Forall (healthy_in (store w) now) (fst r) /\
  exists calls, limiter_calls (snd r) = limiter_calls w ++ calls /\
                Forall (fun c => snd c = tokens) calls.
Proof.
  revert acc w. induction cfgs as [|cfg cfgs IH]; intros acc w Hacc; simpl.
  - repeat split; auto. exists []. rewrite app_nil_r. auto.
  - unfold eligible_step at 2. unfold GetInstanceState.
    destruct (Get (store w) now (Name cfg)) as [state|] eqn:Eg; [|apply IH; exact Hacc].
    destruct (IsHealthy state) eqn:Eh; simpl; [|apply IH; exact Hacc].
    destruct (check_rate_limit_world m now w (Name cfg) tokens) as [Hs Hc].
    destruct (CheckRateLimit m now w (Name cfg) tokens) as [[hasCapacity err] w'].
    simpl in Hs, Hc.
    assert (Hacc' : Forall (healthy_in (store w') now) acc) by (rewrite Hs; exact Hacc).
    assert (Hnew : Forall (healthy_in (store w') now) (acc ++ [mkIWS cfg state])).
    { apply Forall_app. split; [exact Hacc'|]. constructor; [|constructor].
      split; simpl; [rewrite Hs; exact Eg | exact Eh]. }
    assert (K : forall acc', Forall (healthy_in (store w') now) acc' ->
              let r := fold_left (eligible_step m now tokens) cfgs (acc', w') in
              store (snd r) = store w /\
              Forall (healthy_in (store w) now) (fst r) /\
              exists calls, limiter_calls (snd r) = limiter_calls w ++ calls /\
                            Forall (fun c => snd c = tokens) calls).
    { intros acc' Ha. destruct (IH acc' w' Ha) as (H1 & H2 & calls & H3 & H4).
      rewrite Hs in H1, H2. repeat split; auto.
      exists ((Name cfg, tokens) :: calls). rewrite H3, Hc, <- app_assoc.
      split; [reflexivity|]. constructor; auto. }
    destruct err; [apply K; exact Hacc'|].
    destruct hasCapacity; simpl; apply K; assumption.
Qed.

Lemma insertionSort_perm {A : Type} (key : A -> Z) (l : list A) :
  Permutation l (GoSort.insertionSort (fun a b => key a <? key b) l).
Proof.
  unfold GoSort.insertionSort.
  destruct (insertion_first_min key l) as [P _].
  rewrite <- Permutation_rev. symmetry. exact P.
Qed.

Lemma head_name_in (l : list instanceWithState) (name : string) :
  head_name l = Some name -> exists i, In i l /\ Name (Cfg i) = name.
Proof.
  destruct l as [|i l]; [discriminate|]. intros [= <-]. exists i. split; [left|]; reflexivity.
Qed.

Lemma weight_walk_in (l : list instanceWithState) (c target : Z) (name : string) :
  weight_walk c target l = Some name -> exists i, In i l /\ Name (Cfg i) = name.
Proof.
  revert c. induction l as [|i l IH]; intros c; simpl; [discriminate|].
  destruct (target <? add64 c (Weight (Cfg i))).
  - intros [= <-]. exists i. split; [left|]; reflexivity.
  - intros H. destruct (IH _ H) as (j & Hj & Hn). exists j. split; [right|]; assumption.
Qed.

Lemma sort_by_head_in
  (pdq : (instanceWithState -> Z) -> list instanceWithState -> list instanceWithState)
  (key : instanceWithState -> Z) (l : list instanceWithState) (name : string) :
  rearranges pdq ->
  head_name (sort_by pdq key l) = Some name -> exists i, In i l /\ Name (Cfg i) = name.
Proof.
  intros Hp H. apply head_name_in in H as (i & Hi & Hn). exists i. split; [|exact Hn].
  unfold sort_by, GoSort.Slice in Hi.
  destruct (length l <=? 12)%nat.
  - eapply Permutation_in; [symmetry; apply insertionSort_perm | exact Hi].
  - eapply Permutation_in; [symmetry; apply Hp | exact Hi].
Qed.

(** Whatever the strategy, the instance selected is one of the eligible
    list: its stored state is healthy. *)
Lemma selection_is_healthy
  (pdq : (instanceWithState -> Z) -> list instanceWithState -> list instanceWithState)
  (intn : Z -> Z) (m : Manager) (now : Z) (w : World)
  (model : string) (tokens : Z) (provider : string) (name : string) :
  rearranges pdq ->
  fst (SelectInstanceForRequest pdq intn m now w model tokens provider) = Ok name ->
  exists st, GetInstanceState w now name = Some st /\ IsHealthy st = true.
Proof.
  intros Hp. unfold SelectInstanceForRequest.
  destruct (List.filter (capable model tokens provider) (configs m)) as [|cfg cfgs] eqn:Ef;
    [discriminate|].
  destruct (eligible_fold m now tokens (cfg :: cfgs) [] w ltac:(constructor))
    as (_ & Hel & _).
  destruct (fold_left (eligible_step m now tokens) (cfg :: cfgs) ([], w)) as [el w'].
  simpl in Hel. destruct el as [|i rest]; [discriminate|].
  cbv beta iota. set (el := i :: rest) in *. simpl fst.
  set (chosen := if String.eqb _ "failover" then _ else _).
  assert (Hin : forall n, chosen = Some n -> exists j, In j el /\ Name (Cfg j) = n).
  { subst chosen. intros n.
    assert (Hw : selectByWeight intn el = Some n -> exists j, In j el /\ Name (Cfg j) = n).
    { unfold selectByWeight. destruct (totalWeight el <=? 0); [discriminate|].
      destruct (weight_walk 0 (intn (totalWeight el)) el) eqn:Ew.
      - intros [= <-]. eapply weight_walk_in. exact Ew.
      - apply head_name_in. }
    destruct (String.eqb (routingStrategy m) "failover");
      [apply sort_by_head_in; exact Hp|].
    destruct (String.eqb (routingStrategy m) "weighted"); [exact Hw|].
    destruct (String.eqb (routingStrategy m) "round_robin");
      apply sort_by_head_in; exact Hp. }
  destruct chosen as [n|]; [|discriminate]. intros [= <-].
  destruct (Hin n eq_refl) as (j & Hj & <-).
  rewrite List.Forall_forall in Hel. destruct (Hel j Hj) as [Hg Hh].
  exists (State j). split; assumption.
Qed.

(* --------------------------------------------------------------------- *)
(** ** Health demotion *)
(* --------------------------------------------------------------------- *)

(** C3, counterexample.  Instance [A] has answered ten requests with
    errors; the eleventh error demotes it.  One round of the health
    monitor later (its probe always reports healthy) a request for
    [gpt-4] is routed to [A] again. *)
Lemma C3_counterexample :
  ~ C3_stated (fun _ l => l) (fun _ => 0)
      (NewManager [example_config "A" 1 1] "failover") 1000000000
      (world_of {[ "A" := ten_errors "A" ]}) "A" 500.
Proof.
  intros H. destruct (H ltac:(vm_compute; reflexivity)) as [_ Hsel].
  apply (Hsel 1%nat "gpt-4"). vm_compute. reflexivity.
Qed.

(** On counters up to 400 the binary64 test of the source decides exactly
    whether more than half of more than ten requests failed. *)
Lemma error_rate_test_exact :
  forallb
    (fun total =>
       forallb
         (fun errors =>
            Bool.eqb
              (PrimFloat.ltb 50%float (errorRate (counters errors total)) && (10 <? total))
              (over_half errors total))
         (seqZ 0 (total + 1)))
    (seqZ 1 400) = true.
Proof. vm_compute. reflexivity. Qed.

Lemma error_step_demotes (statusCode : Z) (st : InstanceState) :
  let st' := error_step statusCode st in
  PrimFloat.ltb 50%float (errorRate st') && (10 <? TotalRequests st') = true ->
  Status st' = StatusError /\ HealthStatus st' = "unhealthy".
Proof.
  unfold error_step.
  match goal with |- context [if ?c then _ else _] => destruct c eqn:E end.
  - simpl. auto.
  - cbv zeta. intros H. rewrite E in H. discriminate.
Qed.

Lemma update_health_other (now : Z) (w : World) (result : healthCheckResult) (name : string) :
  instanceName result <> name ->
  store_up (store (updateInstanceHealth now w result)) = store_up (store w) /\
  states (store (updateInstanceHealth now w result)) !! name = states (store w) !! name.
Proof.
  intros Hne. unfold updateInstanceHealth, GetInstanceState, Get, UpdateInstanceState, Set_.
  destruct (store_up (store w)) eqn:Hup; [|auto].
  simpl. rewrite lookup_insert_ne by exact Hne. auto.
Qed.

Lemma update_health_same (now : Z) (w : World) (result : healthCheckResult) :
  store_up (store w) = true -> isHealthy result = true ->
  store_up (store (updateInstanceHealth now w result)) = true /\
  exists st, states (store (updateInstanceHealth now w result)) !! instanceName result
             = Some st /\ Status st = StatusHealthy.
Proof.
  intros Hup Hh. unfold updateInstanceHealth, GetInstanceState, Get, UpdateInstanceState, Set_.
  rewrite Hup. simpl. split; [reflexivity|].
  rewrite lookup_insert_eq. eexists. split; [reflexivity|].
  unfold health_step. rewrite Hh. reflexivity.
Qed.

(** A round of the health monitor leaves every configured instance with
    the status [healthy]. *)
Lemma health_sweep_restores (now : Z) (name : string) (cfgs : list InstanceConfig)
  (w : World) :
  store_up (store w) = true ->
  In name (map Name cfgs) \/
  (exists st, states (store w) !! name = Some st /\ Status st = StatusHealthy) ->
  let w' := fold_left (fun w cfg => updateInstanceHealth now w (performSingleHealthCheck cfg))
                      cfgs w in
  store_up (store w') = true /\
  exists st, states (store w') !! name = Some st /\ Status st = StatusHealthy.
Proof.
  revert w. induction cfgs as [|cfg cfgs IH]; intros w Hup H; simpl.
  - destruct H as [[]|H]. auto.
  - destruct (String.eqb_spec (Name cfg) name) as [E|Hne].
    + destruct (update_health_same now w (performSingleHealthCheck cfg) Hup eq_refl)
        as [Hup' Hst].
      simpl in Hst. rewrite E in Hst. apply IH; [exact Hup'|]. right. exact Hst.
    + destruct (update_health_other now w (performSingleHealthCheck cfg) name Hne)
        as [Hup' Hsame].
      apply IH; [congruence|].
      destruct H as [[H|H]|H]; [contradiction | left; exact H | right].
      rewrite Hsame. exact H.
Qed.

(** C3, as amended.  After any error-accounting step, if
    [error_count / total_requests * 100 > 50] and [total_requests > 10],
    the instance's state has [status = error] and
    [health_status = "unhealthy"]; every selection filters out an
    instance whose stored status is not healthy, so no selection returns
    the demoted instance for as long as its status stays [error]; and a
    round of the health monitor, whose probe reports healthy, sets the
    status of every configured instance back to [healthy], after which it
    can be selected again. *)
Theorem C3_health_demotion
  (pdq : (instanceWithState -> Z) -> list instanceWithState -> list instanceWithState)
  (intn : Z -> Z) (m : Manager) (now : Z) (w : World) (name : string) (statusCode : Z) :
  let w1 := recordError now w name statusCode in
  (demotion_holds w1 now name = true ->
   stored_status w1 now name = StatusError /\ stored_health w1 now name = "unhealthy") /\
  (rearranges pdq ->
   forall (w2 : World) (model : string) (tokens : Z) (provider : string),
     stored_status w2 now name <> StatusHealthy ->
     fst (SelectInstanceForRequest pdq intn m now w2 model tokens provider) <> Ok name) /\
  (store_up (store w) = true -> In name (map Name (configs m)) ->
   stored_status (performHealthChecks m now w1) now name = StatusHealthy).
Proof.
  intros w1. split; [|split].
  - subst w1. unfold recordError, demotion_holds, stored_status, stored_health.
    destruct (GetInstanceState w now name) as [st|] eqn:Eg.
    + unfold GetInstanceState, Get in Eg.
      destruct (store_up (store w)) eqn:Hup; [|discriminate].
      unfold UpdateInstanceState, Set_, GetInstanceState, Get. rewrite Hup. simpl.
      rewrite lookup_insert_eq. simpl. apply error_step_demotes.
    + rewrite Eg. discriminate.
  - intros Hp w2 model tokens provider Hst Hsel.
    destruct (selection_is_healthy _ _ _ _ _ _ _ _ _ Hp Hsel) as (st & Hg & Hh).
    apply Hst. unfold stored_status. rewrite Hg.
    unfold IsHealthy in Hh. apply String.eqb_eq in Hh. exact Hh.
  - intros Hup Hin.
    assert (Hup1 : store_up (store w1) = true).
    { subst w1. unfold recordError, GetInstanceState, Get, UpdateInstanceState, Set_.
      rewrite Hup. simpl. reflexivity. }
    destruct (health_sweep_restores now name (configs m) w1 Hup1 (or_introl Hin))
      as [Hup2 (st & Hst & Hs)].
    unfold stored_status, GetInstanceState, Get.
    unfold performHealthChecks. rewrite Hup2, Hst. exact Hs.
Qed.

(** The scenario S3 of the specification: the eleventh error demotes [A];
    the next request is not routed to it. *)
Lemma C3_health_demotion_witness :
  let m := NewManager [example_config "A" 1 1; example_config "B" 2 1] "failover" in
  let w1 := recordError 1000000000 (world_of {[ "A" := ten_errors "A" ]}) "A" 500 in
  stored_status w1 1000000000 "A" = StatusError /\
  fst (SelectInstanceForRequest (fun _ l => l) (fun _ => 0) m 1000000000 w1 "gpt-4" 0 "azure")
  <> Ok "A".
Proof.
  intros m w1.
  destruct (C3_health_demotion (fun _ l => l) (fun _ => 0) m 1000000000
              (world_of {[ "A" := ten_errors "A" ]}) "A" 500) as (Hd & Hs & _).
  destruct (Hd ltac:(vm_compute; reflexivity)) as [Hst _].
  split; [exact Hst|].
  apply Hs.
  - intros key l. reflexivity.
  - subst w1. rewrite Hst. discriminate.
Defined.

(* --------------------------------------------------------------------- *)
(** ** The dispatcher *)
(* --------------------------------------------------------------------- *)







(* --------------------------------------------------------------------- *)
(** ** The model name in relayed responses *)
(* --------------------------------------------------------------------- *)




(* --------------------------------------------------------------------- *)
(** ** Which token counts the limiter is asked about *)
(* --------------------------------------------------------------------- *)



(* --------------------------------------------------------------------- *)
(** ** The answer to a request denied admission *)
(* --------------------------------------------------------------------- *)

(** C2, the behaviour of the source.  In the scenario S2 the limiter
    denies the request with [retry_after = 50], and the dispatcher answers
    with the upstream error 429 "rate limit exceeded"; but the details of
    that error hold only [instance] and [tokens], so that
    [GetRetryAfter] is 0 and the response has no [Retry-After] header. *)
Theorem C2_denial_without_retry_after :
  retry_after (fst (CheckCapacity (NewRateLimiter "A" 100 0) 1000 (redis s2_world) 20)) = 50 /\
  exists r,
    s2_response = Responded r /\
    r = sendErrorResponse
          (NewUpstreamError 1000 "rate limit exceeded" 429
             (<["instance" := VString "A"]> {[ "tokens" := VInt 20 ]})) /\
    Code r = 429 /\
    Body_ r = JSONBody
                {[ "error" :=
                     VMap (<["message" := VString "rate limit exceeded"]>
                             (<["type" := VString "upstream_error"]>
                                {[ "code" := VInt 429 ]})) ]} /\
    GetRetryAfter
      (NewUpstreamError 1000 "rate limit exceeded" 429
         (<["instance" := VString "A"]> {[ "tokens" := VInt 20 ]})) = 0 /\
    Header r !! "Retry-After" = None.
Proof.
  split; [vm_compute; reflexivity|].
  eexists. split; [vm_compute; reflexivity|].
  repeat split; vm_compute; reflexivity.
Qed.

(** No error the dispatcher builds for a denial carries [retry_after]:
    whatever the request, a denial at the dispatcher's rate-limit check is
    answered without a [Retry-After] header. *)
Lemma denial_response_header (now : Z) (name : string) (tokens : Z) :
  Header (sendErrorResponse
            (NewUpstreamError (Unix now) "rate limit exceeded" 429
               (<["instance" := VString name]> {[ "tokens" := VInt tokens ]})))
  !! "Retry-After" = None.
Proof.
  unfold sendErrorResponse, GetRetryAfter. simpl.
  rewrite lookup_insert_ne by discriminate.
  rewrite lookup_singleton_ne by discriminate.
  simpl. unfold JSON_, writeContentType. simpl.
  rewrite lookup_empty. simpl. rewrite lookup_insert_ne by discriminate.
  apply lookup_empty.
Qed.

(* ===================================================================== *)
(** * Further properties of the code *)
(* ===================================================================== *)

(* --------------------------------------------------------------------- *)
(** ** Error classification *)
(* --------------------------------------------------------------------- *)

(** X1.  An error of the type [ClassifyError] assigns to a status and a
    source is retryable exactly when the status is 500 or more, or it is a
    429 that came from upstream; a status below 400 is classified as an
    internal error, which such a status never makes retryable. *)
Theorem X1_retryable_classified (statusCode : Z) (source : string) :
  IsRetryable (classified statusCode source)
  = (500 <=? statusCode) || ((statusCode =? 429) && String.eqb source "upstream").
Proof.
  unfold IsRetryable, classified, ClassifyError. simpl.
  destruct (Z.leb_spec 400 statusCode), (Z.ltb_spec statusCode 500),
    (Z.leb_spec 500 statusCode), (Z.eqb_spec statusCode 429),
    (String.eqb source "upstream"); simpl; try reflexivity; try lia;
    repeat match goal with
           | |- context [?a <=? ?b] => destruct (Z.leb_spec a b); try lia
           | |- context [?a =? ?b] => destruct (Z.eqb_spec a b); try lia
           end; reflexivity.
Qed.

(* --------------------------------------------------------------------- *)
(** ** The member written for a usage, read back *)
(* --------------------------------------------------------------------- *)

Lemma parse_digits_app (ds s : string) (acc : Z) :
  parse_digits acc (ds +:+ s)
  = match parse_digits acc ds with
    | Some v => parse_digits v s
    | None => None
    end.
Proof.
  revert acc. induction ds as [|c ds IH]; intros acc; simpl; [reflexivity|].
  destruct (digit_of c); [apply IH | reflexivity].
Qed.

Lemma all_bytes_app (p : ascii -> bool) (a b : string) :
  all_bytes p (a +:+ b) = all_bytes p a && all_bytes p b.
Proof.
  induction a as [|c a IH]; simpl; [reflexivity|].
  rewrite IH. apply andb_assoc.
Qed.

Lemma digit_of_pretty_char (d : N) :
  (d < 10)%N -> digit_of (pretty_N_char d) = Some (Z.of_N d).
Proof.
  intros H.
  assert (E : (d = 0 \/ d = 1 \/ d = 2 \/ d = 3 \/ d = 4 \/ d = 5 \/ d = 6 \/ d = 7 \/
               d = 8 \/ d = 9)%N) by lia.
  decompose [or] E; subst d; reflexivity.
Qed.

Lemma append_snoc (a : string) (c : ascii) (s : string) :
  a +:+ String c s = (a +:+ String c "") +:+ s.
Proof.
  induction a as [|b a IH]; [reflexivity|].
  change (String b (a +:+ String c s) = String b ((a +:+ String c "") +:+ s)).
  rewrite <- IH. reflexivity.
Qed.

Lemma append_empty (a : string) : a +:+ "" = a.
Proof.
  induction a as [|b a IH]; [reflexivity|].
  change (String b (a +:+ "") = String b a). rewrite IH. reflexivity.
Qed.

(** The decimal digits [pretty] puts in front of a string. *)
Lemma pretty_N_go_digits (x : N) :
  forall s, exists ds,
    pretty_N_go x s = ds +:+ s /\
    all_bytes is_digit ds = true /\
    ((0 < x)%N -> ds <> "") /\
    parse_digits 0 ds = Some (Z.of_N x).
Proof.
  induction x as [x IH] using (well_founded_induction N.lt_wf_0). intros s.
  destruct (N.eq_dec x 0%N) as [->|Hx].
  - exists "". rewrite pretty_N_go_0. repeat split. intros H. lia.
  - rewrite pretty_N_go_step by lia.
    assert (Hd : (x `mod` 10 < 10)%N) by (apply N.mod_lt; lia).
    destruct (IH (x `div` 10)%N ltac:(apply N.div_lt; lia)
                 (String (pretty_N_char (x `mod` 10)%N) s))
      as (ds & E & Hall & _ & Hp).
    exists (ds +:+ String (pretty_N_char (x `mod` 10)%N) "").
    rewrite E. split; [|split; [|split]].
    + apply append_snoc.
    + rewrite all_bytes_app, Hall. simpl. unfold is_digit.
      rewrite digit_of_pretty_char by exact Hd. reflexivity.
    + intros _. destruct ds; discriminate.
    + rewrite parse_digits_app, Hp. simpl.
      rewrite digit_of_pretty_char by exact Hd. f_equal.
      rewrite (N.div_mod x 10%N) at 3 by lia. lia.
Qed.

Lemma digit_not_sign (c : ascii) :
  is_digit c = true -> Ascii.eqb c "-" = false /\ Ascii.eqb c "+" = false /\
                       Ascii.eqb c ":" = false.
Proof.
  destruct c as [[] [] [] [] [] [] [] []]; vm_compute; intros H;
    try discriminate H; auto.
Qed.

Lemma Atoi_digits (ds : string) (n : Z) :
  ds <> "" -> all_bytes is_digit ds = true -> parse_digits 0 ds = Some n ->
  Atoi ds = (if in_int64 n then Some n else None) /\
  Atoi ("-" +:+ ds) = (if in_int64 (- n) then Some (- n) else None).
Proof.
  intros Hne Hall Hp. destruct ds as [|c r]; [congruence|].
  simpl in Hall. apply andb_prop in Hall as [Hc _].
  destruct (digit_not_sign c Hc) as (Hm & Hpl & _).
  split.
  - unfold Atoi. cbv zeta. rewrite Hm, Hpl. cbv beta iota delta [orb].
    rewrite Hp. reflexivity.
  - change (Atoi (String "-" (String c r))
            = if in_int64 (- n) then Some (- n) else None).
    unfold Atoi. cbv zeta. change (Ascii.eqb "-" "-") with true.
    cbv beta iota delta [orb]. rewrite Hp. reflexivity.
Qed.

Lemma before_colon_app (a b : string) :
  all_bytes (fun c => negb (Ascii.eqb c ":")) a = true ->
  before_colon (a +:+ String ":" b) = a.
Proof.
  induction a as [|c a IH]; simpl; [reflexivity|].
  intros H. apply andb_prop in H as [Hc Ha].
  destruct (Ascii.eqb c ":"); [discriminate|]. rewrite (IH Ha). reflexivity.
Qed.

Lemma digits_no_colon (ds : string) :
  all_bytes is_digit ds = true ->
  all_bytes (fun c => negb (Ascii.eqb c ":")) ds = true.
Proof.
  induction ds as [|c ds IH]; simpl; [reflexivity|].
  intros H. apply andb_prop in H as [Hc Hds].
  destruct (digit_not_sign c Hc) as (_ & _ & ->). simpl. exact (IH Hds).
Qed.

(** What [%d] prints: [0], or the digits of the magnitude after an
    optional minus sign. *)
Lemma pretty_Z_shape (z : Z) :
  exists ds, ds <> "" /\ all_bytes is_digit ds = true /\
             parse_digits 0 ds = Some (Z.abs z) /\
             pretty z = if z <? 0 then "-" +:+ ds else ds.
Proof.
  destruct z as [|p|p].
  - exists "0". repeat split. discriminate.
  - destruct (pretty_N_go_digits (N.pos p) "") as (ds & E & Hall & Hne & Hp).
    exists ds. split; [apply Hne; lia|]. split; [exact Hall|]. split; [exact Hp|].
    change (pretty (Z.pos p)) with (pretty_N_go (N.pos p) "").
    rewrite E. apply append_empty.
  - destruct (pretty_N_go_digits (N.pos p) "") as (ds & E & Hall & Hne & Hp).
    exists ds. split; [apply Hne; lia|]. split; [exact Hall|]. split; [exact Hp|].
    change (pretty (Z.neg p)) with ("-" +:+ pretty_N_go (N.pos p) "").
    rewrite E, append_empty. reflexivity.
Qed.

Lemma usage_member_tokens (tokens nanos score : Z) :
  in_int64 tokens = true ->
  token_part (mkZ score (usage_member tokens nanos)) = Some tokens.
Proof.
  intros Hr. unfold token_part, usage_member. simpl Member.
  destruct (pretty_Z_shape tokens) as (ds & Hne & Hall & Hp & E).
  rewrite E.
  destruct (Atoi_digits ds (Z.abs tokens) Hne Hall Hp) as [Hpos Hneg].
  destruct (Z.ltb_spec tokens 0) as [Hlt|Hge].
  - replace (("-" +:+ ds) +:+ ":" +:+ pretty nanos)
      with (("-" +:+ ds) +:+ String ":" (pretty nanos)) by reflexivity.
    rewrite before_colon_app.
    + rewrite Hneg. replace (- Z.abs tokens) with tokens by lia. rewrite Hr. reflexivity.
    + simpl. apply digits_no_colon. exact Hall.
  - replace (ds +:+ ":" +:+ pretty nanos) with (ds +:+ String ":" (pretty nanos))
      by reflexivity.
    rewrite before_colon_app by (apply digits_no_colon; exact Hall).
    rewrite Hpos. replace (Z.abs tokens) with tokens by lia. rewrite Hr. reflexivity.
Qed.

(** X2.  The member [UpdateUsage] writes for a token count reads back as
    that count: whatever the nanosecond part, the text before the first
    colon of ["<tokens>:<nanos>"] converts to [tokens], for every token
    count of the integer range, negative ones included; so the loops of
    [GetCurrentUsage] and of [CheckCapacity] both add exactly [tokens] for
    such an entry. *)
Theorem X2_member_round_trip (tokens nanos score : Z) :
  in_int64 tokens = true ->
  let e := mkZ score (usage_member tokens nanos) in
  token_part e = Some tokens /\
  (forall usage, current_usage_step usage e = add64 usage tokens) /\
  (forall usage oldest, fst (capacity_step (usage, oldest) e) = add64 usage tokens).
Proof.
  intros Hr e. pose proof (usage_member_tokens tokens nanos score Hr) as H.
  fold e in H. unfold token_part in H.
  split; [exact H|]. split.
  - intros usage. unfold current_usage_step. rewrite H. reflexivity.
  - intros usage oldest. unfold capacity_step. rewrite H. reflexivity.
Qed.

Lemma X2_member_round_trip_witness :
  token_part (mkZ 1000 (usage_member 1500 1000000000123)) = Some 1500.
Proof.
  pose proof (X2_member_round_trip 1500 1000000000123 1000 eq_refl) as H.
  cbv zeta in H. destruct H as [H _]. exact H.
Defined.

(* --------------------------------------------------------------------- *)
(** ** The limiter's window across its operations *)
(* --------------------------------------------------------------------- *)

Lemma current_usage_loop (w : list ZEntry) (c : Z) :
  fold_left current_usage_step w (wrap64 c) = wrap64 (c + window_tokens w).
Proof.
  revert c. induction w as [|e w IH]; intros c; simpl.
  - rewrite Z.add_0_r. reflexivity.
  - unfold current_usage_step at 2. fold (token_part e).
    destruct (token_part e) as [n|]; simpl.
    + unfold add64. rewrite wrap64_add_l, IH. f_equal. lia.
    + rewrite IH. reflexivity.
Qed.

Lemma capacity_loop_usage (w : list ZEntry) (c o : Z) :
  fst (fold_left capacity_step w (c, o)) = fold_left current_usage_step w c.
Proof.
  revert c o. induction w as [|e w IH]; intros c o; simpl; [reflexivity|].
  unfold capacity_step at 2, current_usage_step at 2.
  destruct (Atoi (before_colon (Member e))); simpl; apply IH.
Qed.

(** X3.  On a store that answers, [GetCurrentUsage] and [CheckCapacity]
    see the same usage and leave the same window: a request within the
    input cap is admitted exactly when the usage [GetCurrentUsage] reports
    plus its tokens does not exceed [tokensPerMinute].  On a store that
    fails they part: [GetCurrentUsage] returns the error, [CheckCapacity]
    admits. *)
Theorem X3_usage_and_capacity_agree (rl : RateLimiter) (now : Z) (r : Redis) (t : Z) :
  over_input_limit rl t = false ->
  (fault r = Healthy ->
   exists usage,
     fst (GetCurrentUsage rl now r) = inl usage /\
     has_capacity (fst (CheckCapacity rl now r t))
     = negb (tokensPerMinute rl <? add64 usage t) /\
     snd (GetCurrentUsage rl now r) = snd (CheckCapacity rl now r t)) /\
  (fault r <> Healthy ->
   (exists err, fst (GetCurrentUsage rl now r) = inr err) /\
   has_capacity (fst (CheckCapacity rl now r t)) = true /\
   snd (GetCurrentUsage rl now r) = snd (CheckCapacity rl now r t)).
Proof.
  intros Hin. unfold over_input_limit in Hin.
  unfold GetCurrentUsage, CheckCapacity, pipeline_exec. rewrite Hin. split.
  - intros ->. eexists. split; [reflexivity|].
    set (entries := ZRemRangeByScore _ _).
    pose proof (capacity_loop_usage entries 0 now) as E.
    destruct (fold_left capacity_step entries (0, now)) as [cu ot]. simpl in E. subst cu.
    destruct (tokensPerMinute rl <? _); simpl; auto.
  - intros Hf. destruct (fault r) eqn:Ef; [congruence| |]; simpl; eauto.
Qed.

Lemma X3_usage_and_capacity_agree_witness :
  let rl := NewRateLimiter "A" 100 0 in
  let r := mkRedis {[ "instance:rate_limit:window:A" := [mkZ 990 "90:17"] ]} Healthy in
  fst (GetCurrentUsage rl 1000 r) = inl 90 /\
  has_capacity (fst (CheckCapacity rl 1000 r 10)) = true.
Proof.
  intros rl r.
  destruct (X3_usage_and_capacity_agree rl 1000 r 10 eq_refl) as [H _].
  destruct (H eq_refl) as (usage & Hu & Hc & _).
  assert (E : usage = 90) by (vm_compute in Hu; congruence).
  subst usage. split; [exact Hu|]. rewrite Hc. reflexivity.
Defined.

Lemma evicted_scores (cutoff : Z) (w : list ZEntry) :
  Forall (fun e => cutoff < Score e) (ZRemRangeByScore cutoff w).
Proof.
  apply List.Forall_forall. intros e He. apply filter_In in He as [_ He]. lia.
Qed.

(** X4.  Whenever the store executes the eviction, the window that
    [CheckCapacity], [GetCurrentUsage] and [UpdateUsage] leave behind holds
    only entries scored after [now - windowSeconds], and the windows of
    the other instances are as they were. *)
Theorem X4_window_evicted_on_touch (rl : RateLimiter) (now nanos : Z) (r : Redis) (t : Z) :
  fault r <> Down ->
  let cutoff := sub64 now (windowSeconds rl) in
  let touched (r' : Redis) :=
    Forall (fun e => cutoff < Score e) (window_of rl r') /\
    forall key, key <> redisKey rl -> zsets r' !! key = zsets r !! key in
  (over_input_limit rl t = false -> touched (snd (CheckCapacity rl now r t))) /\
  touched (snd (GetCurrentUsage rl now r)) /\
  (fault r = Healthy -> touched (snd (RateLimit.UpdateUsage rl now nanos r t))).
Proof.
  intros Hf cutoff touched.
  assert (K : forall w' f, touched (mkRedis (<[redisKey rl := ZRemRangeByScore cutoff w']>
                                               (zsets r)) f)).
  { intros w' f. split.
    - unfold window_of, zset. simpl. rewrite lookup_insert_eq. simpl.
      apply evicted_scores.
    - intros key Hk. simpl. apply lookup_insert_ne. congruence. }
  split; [|split].
  - intros Hin. unfold over_input_limit in Hin. unfold CheckCapacity, pipeline_exec.
    rewrite Hin. fold cutoff. destruct (fault r) eqn:Ef; [|congruence|]; simpl.
    + destruct (fold_left capacity_step _ _) as [cu ot].
      destruct (tokensPerMinute rl <? add64 cu t); simpl; apply K.
    + apply K.
  - unfold GetCurrentUsage. fold cutoff. destruct (fault r) eqn:Ef; [|congruence|]; apply K.
  - intros Hh. unfold RateLimit.UpdateUsage. rewrite Hh. simpl. apply K.
Qed.

Lemma X4_window_evicted_on_touch_witness :
  Forall (fun e => 940 < Score e)
    (window_of (NewRateLimiter "A" 100 0)
       (snd (GetCurrentUsage (NewRateLimiter "A" 100 0) 1000
               (mkRedis {[ "instance:rate_limit:window:A" :=
                             [mkZ 900 "50:1"; mkZ 990 "90:17"] ]} Healthy)))).
Proof.
  pose proof (X4_window_evicted_on_touch (NewRateLimiter "A" 100 0) 1000 0
                (mkRedis {[ "instance:rate_limit:window:A" :=
                              [mkZ 900 "50:1"; mkZ 990 "90:17"] ]} Healthy)
                0 ltac:(discriminate)) as H.
  destruct H as (_ & [H _] & _). exact H.
Defined.

Lemma ZRemRangeByScore_idem (cutoff : Z) (w : list ZEntry) :
  ZRemRangeByScore cutoff (ZRemRangeByScore cutoff w) = ZRemRangeByScore cutoff w.
Proof.
  unfold ZRemRangeByScore. induction w as [|e w IH]; simpl; [reflexivity|].
  destruct (cutoff <? Score e) eqn:E; simpl; [rewrite E, IH|]; auto.
Qed.





(* --------------------------------------------------------------------- *)
(** ** Resetting *)
(* --------------------------------------------------------------------- *)

(** X6.  On a store that answers, [Reset] empties the limiter's window and
    touches no other; resetting again changes nothing; afterwards the
    usage is 0 and every request within the input cap and within
    [tokensPerMinute] is admitted.  On a store that fails, [Reset] returns
    an error and the store is as it was. *)
Theorem X6_reset (rl : RateLimiter) (now : Z) (r : Redis) (t : Z) :
  (fault r = Healthy ->
   let r1 := snd (Reset rl r) in
   fst (Reset rl r) = None /\
   window_of rl r1 = [] /\
   (forall key, key <> redisKey rl -> zsets r1 !! key = zsets r !! key) /\
   Reset rl r1 = (None, r1) /\
   fst (GetCurrentUsage rl now r1) = inl 0 /\
   (over_input_limit rl t = false -> in_int64 t = true -> t <= tokensPerMinute rl ->
    has_capacity (fst (CheckCapacity rl now r1 t)) = true)) /\
  (fault r <> Healthy -> exists err, Reset rl r = (Some err, r)).
Proof.
  split.
  - intros Hf. unfold Reset. rewrite Hf. cbn [fst snd].
    assert (Hw : zset (mkRedis (delete (redisKey rl) (zsets r)) Healthy) (redisKey rl) = []).
    { unfold zset. cbn [zsets]. rewrite lookup_delete_eq. reflexivity. }
    split; [reflexivity|]. split; [exact Hw|]. split.
    { intros key Hk. cbn [zsets]. apply lookup_delete_ne. congruence. }
    split.
    { cbn [fault zsets]. rewrite delete_delete_eq. reflexivity. }
    split.
    { unfold GetCurrentUsage. cbn [fault]. rewrite Hw. reflexivity. }
    intros Hin Hr Hle. unfold over_input_limit in Hin.
    unfold CheckCapacity, pipeline_exec. rewrite Hin. cbn [fault]. rewrite Hw.
    cbn [ZRemRangeByScore List.filter fold_left].
    unfold in_int64, min_int64, max_int64 in Hr.
    apply andb_prop in Hr as [H1 H2]. apply Z.leb_le in H1, H2.
    rewrite add64_id by lia.
    destruct (Z.ltb_spec (tokensPerMinute rl) (0 + t)); [lia | reflexivity].
  - intros Hf. unfold Reset. destruct (fault r); [congruence| |]; eauto.
Qed.

Lemma X6_reset_witness :
  let rl := NewRateLimiter "A" 100 0 in
  let r := mkRedis {[ "instance:rate_limit:window:A" := [mkZ 990 "90:17"] ]} Healthy in
  window_of rl (snd (Reset rl r)) = [] /\
  has_capacity (fst (CheckCapacity rl 1000 (snd (Reset rl r)) 100)) = true.
Proof.
  intros rl r. destruct (X6_reset rl 1000 r 100) as [H _].
  destruct (H eq_refl) as (_ & Hw & _ & _ & _ & Hc).
  split; [exact Hw|]. apply Hc; [reflexivity | reflexivity | vm_compute; discriminate].
Defined.

(** X7.  [ResetInstance] on stores that answer returns no error, leaves
    the instance with the state of a fresh one (so its status is healthy
    again) and with an empty window, keeps the states of the other
    instances, and is a no-op when repeated. *)
Theorem X7_reset_instance (m : Manager) (now : Z) (w : World) (name : string) :
  store_up (store w) = true -> fault (redis w) = Healthy ->
  let w1 := snd (ResetInstance m w name) in
  fst (ResetInstance m w name) = None /\
  GetInstanceState w1 now name = Some (NewInstanceState name now) /\
  (forall rl, rateLimiters m !! name = Some rl -> window_of rl (redis w1) = []) /\
  (forall other, other <> name ->
     GetInstanceState w1 now other = GetInstanceState w now other) /\
  ResetInstance m w1 name = (None, w1).
Proof.
  intros Hup Hf. unfold ResetInstance, Delete. rewrite Hup.
  destruct (rateLimiters m !! name) as [rl|] eqn:Erl.
  - unfold Reset. rewrite Hf. cbn [fst snd].
    split; [reflexivity|]. split.
    { unfold GetInstanceState, Get. cbn [store store_up states].
      rewrite lookup_delete_eq. reflexivity. }
    split.
    { intros rl' [= <-]. unfold window_of, zset. cbn [redis zsets].
      rewrite lookup_delete_eq. reflexivity. }
    split.
    { intros other Ho. unfold GetInstanceState, Get. cbn [store store_up states].
      rewrite Hup, lookup_delete_ne by congruence. reflexivity. }
    cbn [store store_up states redis fault zsets limiter_calls].
    rewrite !delete_delete_eq. reflexivity.
  - cbn [fst snd]. split; [reflexivity|]. split.
    { unfold GetInstanceState, Get. cbn [store store_up states].
      rewrite lookup_delete_eq. reflexivity. }
    split; [discriminate|]. split.
    { intros other Ho. unfold GetInstanceState, Get. cbn [store store_up states].
      rewrite Hup, lookup_delete_ne by congruence. reflexivity. }
    cbn [store store_up states redis limiter_calls].
    rewrite delete_delete_eq. reflexivity.
Qed.

Lemma X7_reset_instance_witness :
  stored_status demoted_world 0 "A" = StatusError /\
  GetInstanceState
    (snd (ResetInstance (NewManager [example_config "A" 1 1] "failover") demoted_world "A"))
    0 "A"
  = Some (NewInstanceState "A" 0).
Proof.
  split; [vm_compute; reflexivity|].
  destruct (X7_reset_instance (NewManager [example_config "A" 1 1] "failover") 0
              demoted_world "A" eq_refl eq_refl) as (_ & H & _).
  exact H.
Defined.

(* --------------------------------------------------------------------- *)
(** ** The round-robin strategy and what selection returns *)
(* --------------------------------------------------------------------- *)

(** X8.  Under the round-robin strategy, for up to twelve eligible
    instances, the selector returns the instance used least recently, and
    of several used equally long ago the one listed first. *)
Theorem X8_round_robin
  (pdq : (instanceWithState -> Z) -> list instanceWithState -> list instanceWithState)
  (l : list instanceWithState) :
  l <> [] -> (length l <= 12)%nat ->
  exists i l1 l2,
    selectByRoundRobin pdq l = Some (Name (Cfg i)) /\
    l = l1 ++ i :: l2 /\
    Forall (fun j => last_used_of i < last_used_of j) l1 /\
    Forall (fun j => last_used_of i <= last_used_of j) l2.
Proof.
  intros Hne Hlen. unfold selectByRoundRobin, sort_by, GoSort.Slice.
  destruct (Nat.leb_spec (length l) 12) as [_|]; [|lia].
  destruct (insertion_first_min last_used_of l) as [P [->|D]]; [congruence|].
  destruct D as (i & l1 & l2 & El & Hlast & Hrp & H1 & H2).
  exists i, l1, l2. unfold GoSort.insertionSort.
  change (fun a b : instanceWithState => LastUsed (State a) <? LastUsed (State b))
    with (fun a b : instanceWithState => last_used_of a <? last_used_of b).
  set (rp := fold_left _ l []) in *.
  rewrite (app_removelast_last i Hrp), Hlast, rev_app_distr. simpl. auto.
Qed.

Lemma X8_round_robin_witness :
  selectByRoundRobin (fun _ l => l)
    [mkIWS (example_config "a" 1 1) (NewInstanceState "a" 30);
     mkIWS (example_config "b" 1 1) (NewInstanceState "b" 10);
     mkIWS (example_config "c" 1 1) (NewInstanceState "c" 10)]
  = Some "b".
Proof.
  destruct (X8_round_robin (fun _ l => l)
              [mkIWS (example_config "a" 1 1) (NewInstanceState "a" 30);
               mkIWS (example_config "b" 1 1) (NewInstanceState "b" 10);
               mkIWS (example_config "c" 1 1) (NewInstanceState "c" 10)]
              ltac:(discriminate) ltac:(simpl; lia)) as (i & l1 & l2 & H & _).
  rewrite H. vm_compute in H |- *. symmetry. exact H.
Defined.

(* --------------------------------------------------------------------- *)
(** ** Eligibility and selection *)
(* --------------------------------------------------------------------- *)

Lemma zset_insert (z : gmap string (list ZEntry)) (f : PipeFault) (k k' : string)
  (v : list ZEntry) :
  zset (mkRedis (<[k := v]> z) f) k' = if decide (k = k') then v else zset (mkRedis z f) k'.
Proof.
  unfold zset. cbn [zsets]. destruct (decide (k = k')) as [<-|Hne].
  - rewrite lookup_insert_eq. reflexivity.
  - rewrite lookup_insert_ne by exact Hne. reflexivity.
Qed.

Lemma same_view_refl (c : Z) (r : Redis) : same_view c r r.
Proof. split; auto. Qed.

Lemma same_view_evict (c : Z) (r r' : Redis) (key : string) :
  same_view c r r' ->
  same_view c r
    (mkRedis (<[key := ZRemRangeByScore c (zset r' key)]> (zsets r')) (fault r')).
Proof.
  intros [Hf Hz]. split; [exact Hf|]. intros k. rewrite zset_insert.
  destruct (decide (key = k)) as [<-|_].
  - rewrite ZRemRangeByScore_idem. apply Hz.
  - destruct r'. apply Hz.
Qed.

Lemma pipeline_view (c : Z) (r r' : Redis) (key : string) :
  same_view c r r' ->
  fst (pipeline_exec r' key c) = fst (pipeline_exec r key c) /\
  same_view c r (snd (pipeline_exec r' key c)).
Proof.
  intros Hv. pose proof Hv as [Hf Hz]. unfold pipeline_exec. rewrite <- Hf.
  destruct (fault r') eqn:Ef; cbn [fst snd].
  - split; [rewrite Hz; reflexivity|]. rewrite <- Ef. apply same_view_evict. exact Hv.
  - split; [reflexivity | exact Hv].
  - split; [reflexivity|]. rewrite <- Ef. apply same_view_evict. exact Hv.
Qed.

(** A call of [CheckCapacity] answers by what is in view, and leaves the
    view as it was. *)
Lemma CheckCapacity_view (rl : RateLimiter) (now : Z) (r r' : Redis) (t : Z) :
  same_view (sub64 now (windowSeconds rl)) r r' ->
  fst (CheckCapacity rl now r' t) = fst (CheckCapacity rl now r t) /\
  same_view (sub64 now (windowSeconds rl)) r (snd (CheckCapacity rl now r' t)).
Proof.
  intros Hv. unfold CheckCapacity.
  destruct ((0 <? maxInputTokens rl) && (maxInputTokens rl <? t)); [split; auto|].
  destruct (pipeline_view _ r r' (redisKey rl) Hv) as [H1 H2].
  destruct (pipeline_exec r' (redisKey rl) _) as [o' p'].
  destruct (pipeline_exec r (redisKey rl) _) as [o p].
  cbn [fst snd] in H1, H2. subst o'.
  destruct o as [entries|]; [|split; [reflexivity | exact H2]].
  destruct (fold_left capacity_step entries (0, now)) as [cu ot].
  destruct (tokensPerMinute rl <? add64 cu t); (split; [reflexivity | exact H2]).
Qed.

(** The loop of the selector over the capable configurations, started in
    a world [wk] that shows what [w] shows: it collects, in order, the
    entries judged on [w]. *)
Lemma eligible_fold_pure (m : Manager) (now tokens ws : Z) :
  (forall name rl, rateLimiters m !! name = Some rl -> windowSeconds rl = ws) ->
  forall (cfgs : list InstanceConfig) (acc : list instanceWithState) (w wk : World),
    store wk = store w ->
    same_view (sub64 (Unix now) ws) (redis w) (redis wk) ->
    let r := fold_left (eligible_step m now tokens) cfgs (acc, wk) in
    fst r = acc ++ flat_map (eligible_entry m now w tokens) cfgs /\
    store (snd r) = store w /\
    same_view (sub64 (Unix now) ws) (redis w) (redis (snd r)).
Proof.
  intros Hws. induction cfgs as [|cfg cfgs IH]; intros acc w wk Hs Hv.
  - simpl. rewrite app_nil_r. auto.
  - cbn [fold_left flat_map].
    assert (K : exists wk',
               eligible_step m now tokens (acc, wk) cfg
               = (acc ++ eligible_entry m now w tokens cfg, wk') /\
               store wk' = store w /\
               same_view (sub64 (Unix now) ws) (redis w) (redis wk')).
    { unfold eligible_step, eligible_entry, GetInstanceState. rewrite Hs.
      destruct (Get (store w) now (Name cfg)) as [state|];
        [|exists wk; rewrite app_nil_r; auto].
      destruct (IsHealthy state); cbn [negb andb];
        [|exists wk; rewrite app_nil_r; auto].
      unfold admitted, CheckRateLimit.
      destruct (rateLimiters m !! Name cfg) as [rl|] eqn:El.
      - specialize (Hws _ _ El). subst ws.
        destruct (CheckCapacity_view rl (Unix now) (redis w) (redis wk) tokens Hv)
          as [H1 H2].
        destruct (CheckCapacity rl (Unix now) (redis wk) tokens) as [c r'].
        destruct (CheckCapacity rl (Unix now) (redis w) tokens) as [c0 r0].
        cbn [fst snd] in *. subst c0.
        exists (mkWorld (store wk) r' (limiter_calls wk ++ [(Name cfg, tokens)])).
        split; [|split; [exact Hs | exact H2]].
        destruct (cap_err c), (has_capacity c); cbn [negb andb];
          rewrite ?app_nil_r; reflexivity.
      - cbn [fst negb].
        exists (mkWorld (store wk) (redis wk) (limiter_calls wk ++ [(Name cfg, tokens)])).
        split; [reflexivity|]. split; [exact Hs | exact Hv]. }
    destruct K as (wk' & -> & Hs' & Hv').
    destruct (IH (acc ++ eligible_entry m now w tokens cfg) w wk' Hs' Hv')
      as (H1 & H2 & H3).
    rewrite <- app_assoc in H1. auto.
Qed.

Lemma NewManager_limiters (cfgs : list InstanceConfig) (strategy name : string)
  (rl : RateLimiter) :
  rateLimiters (NewManager cfgs strategy) !! name = Some rl ->
  exists cfg, In cfg cfgs /\ Name cfg = name /\
              Enabled cfg = true /\ RateLimitEnabled cfg = true /\
              rl = NewRateLimiter name (MaxTPM cfg) (MaxInputTokens cfg).
Proof.
  unfold NewManager. cbn [rateLimiters].
  set (P := fun (l : list InstanceConfig) (n : string) (x : RateLimiter) =>
              exists cfg, In cfg l /\ Name cfg = n /\
                Enabled cfg = true /\ RateLimitEnabled cfg = true /\
                x = NewRateLimiter n (MaxTPM cfg) (MaxInputTokens cfg)).
  assert (G : forall l (acc : gmap string RateLimiter) done,
             (forall n x, acc !! n = Some x -> P (done ++ l) n x) ->
             forall n x,
               fold_left
                 (fun m instance =>
                    if Enabled instance && RateLimitEnabled instance then
                      <[Name instance :=
                          NewRateLimiter (Name instance) (MaxTPM instance)
                            (MaxInputTokens instance)]> m
                    else m) l acc !! n = Some x ->
               P (done ++ l) n x).
  { induction l as [|c l IH]; intros acc done Hacc n x; cbn [fold_left]; [apply Hacc|].
    intros H. replace (done ++ c :: l) with ((done ++ [c]) ++ l)
      by (rewrite <- app_assoc; reflexivity).
    eapply IH; [|exact H]. intros n' x' Hl. rewrite <- app_assoc. cbn [app].
    destruct (Enabled c && RateLimitEnabled c) eqn:Ec; [|apply Hacc; exact Hl].
    destruct (decide (Name c = n')) as [<-|Hne].
    - rewrite lookup_insert_eq in Hl. injection Hl as <-.
      apply andb_prop in Ec as [E1 E2].
      exists c. split; [apply in_or_app; right; left; reflexivity|]. auto.
    - rewrite lookup_insert_ne in Hl by exact Hne. apply Hacc. exact Hl. }
  intros H. apply (G cfgs ∅ [] ltac:(intros n x Hx; rewrite lookup_empty in Hx; discriminate)
                     name rl H).
Qed.

Lemma NewManager_window (cfgs : list InstanceConfig) (strategy : string) :
  forall name rl, rateLimiters (NewManager cfgs strategy) !! name = Some rl ->
                  windowSeconds rl = 60.
Proof.
  intros name rl H. apply NewManager_limiters in H as (cfg & _ & _ & _ & _ & ->).
  reflexivity.
Qed.







Lemma eligible_weights (m : Manager) (now : Z) (w : World) (tokens : Z)
  (cfgs : list InstanceConfig) :
  Forall (fun cfg => 1 <= Weight cfg) cfgs ->
  let el := flat_map (eligible_entry m now w tokens) cfgs in
  Z.of_nat (length el) <= sum_weights el <= config_weights cfgs.
Proof.
  intros H. cbv zeta. induction H as [|cfg cfgs Hc _ IH]; [simpl; lia|].
  cbn [flat_map config_weights fold_right]. fold (config_weights cfgs).
  rewrite length_app, sum_weights_app.
  assert (K : (length (eligible_entry m now w tokens cfg) = 0%nat /\
               sum_weights (eligible_entry m now w tokens cfg) = 0) \/
              (length (eligible_entry m now w tokens cfg) = 1%nat /\
               sum_weights (eligible_entry m now w tokens cfg) = Weight cfg)).
  { unfold eligible_entry.
    destruct (GetInstanceState w now (Name cfg)) as [st|]; [|left; auto].
    destruct (IsHealthy st && admitted m now w (Name cfg) tokens); [right|left; auto].
    split; [reflexivity|]. unfold sum_weights, weight_of. cbn [fold_right Cfg]. lia. }
  destruct K as [[K1 K2]|[K1 K2]]; rewrite K1, K2; lia.
Qed.

Lemma filter_weights (p : InstanceConfig -> bool) (cfgs : list InstanceConfig) :
  Forall (fun cfg => 1 <= Weight cfg) cfgs ->
  Forall (fun cfg => 1 <= Weight cfg) (List.filter p cfgs) /\
  config_weights (List.filter p cfgs) <= config_weights cfgs.
Proof.
  induction 1 as [|cfg cfgs Hc _ [IH1 IH2]]; cbn [List.filter]; [split; [constructor|lia]|].
  cbn [config_weights fold_right]. fold (config_weights cfgs).
  destruct (p cfg); [|split; [exact IH1 | lia]].
  split; [constructor; assumption|].
  cbn [config_weights fold_right]. fold (config_weights (List.filter p cfgs)). lia.
Qed.

Lemma sort_by_perm
  (pdq : (instanceWithState -> Z) -> list instanceWithState -> list instanceWithState)
  (key : instanceWithState -> Z) (l : list instanceWithState) :
  rearranges pdq -> Permutation l (sort_by pdq key l).
Proof.
  intros Hp. unfold sort_by, GoSort.Slice.
  destruct (length l <=? 12)%nat; [apply insertionSort_perm | apply Hp].
Qed.

Lemma sort_by_head_some
  (pdq : (instanceWithState -> Z) -> list instanceWithState -> list instanceWithState)
  (key : instanceWithState -> Z) (l : list instanceWithState) :
  rearranges pdq -> l <> [] -> head_name (sort_by pdq key l) <> None.
Proof.
  intros Hp Hne. pose proof (sort_by_perm pdq key l Hp) as P.
  destruct (sort_by pdq key l); [|discriminate].
  apply Permutation_nil_r in P. contradiction.
Qed.

(** Selection by a manager built by [NewManager] does not panic when the
    weights are positive and their sum fits the integer range. *)
Lemma selection_no_panic
  (pdq : (instanceWithState -> Z) -> list instanceWithState -> list instanceWithState)
  (intn : Z -> Z) (cfgs : list InstanceConfig) (strategy : string)
  (now : Z) (w : World) (model : string) (tokens : Z) (provider : string) :
  rearranges pdq ->
  Forall (fun cfg => 1 <= Weight cfg) cfgs -> config_weights cfgs < 2 ^ 63 ->
  fst (SelectInstanceForRequest pdq intn (NewManager cfgs strategy) now w
         model tokens provider) <> Panic.
Proof.
  intros Hp Hw Hsum. set (m := NewManager cfgs strategy).
  unfold SelectInstanceForRequest.
  destruct (eligible_fold_pure m now tokens 60 (NewManager_window cfgs strategy)
              (List.filter (capable model tokens provider) cfgs) [] w w eq_refl
              (same_view_refl _ _)) as (H1 & _).
  change (configs m) with cfgs.
  destruct (filter_weights (capable model tokens provider) cfgs Hw) as [Hwf Hsf].
  pose proof (eligible_weights m now w tokens _ Hwf) as Hel. cbn zeta in Hel.
  destruct (List.filter (capable model tokens provider) cfgs) as [|c0 cs] eqn:Ef;
    [discriminate|].
  destruct (fold_left (eligible_step m now tokens) _ ([], w)) as [el w'].
  cbn [fst app] in H1. rewrite <- H1 in Hel. clear H1.
  destruct el as [|i rest]; [discriminate|].
  set (el := i :: rest) in *. cbv beta iota zeta. cbn [fst].
  assert (Hne : el <> []) by discriminate.
  assert (Hlen : 1 <= Z.of_nat (length el)) by (subst el; simpl; lia).
  assert (Hwt : selectByWeight intn el <> None).
  { unfold selectByWeight. rewrite totalWeight_eq by lia.
    destruct (Z.leb_spec (sum_weights el) 0); [lia|].
    destruct (weight_walk 0 (intn (sum_weights el)) el); [discriminate|].
    subst el. discriminate. }
  pose proof (sort_by_head_some pdq (fun i => Priority (Cfg i)) el Hp Hne) as Hfo.
  pose proof (sort_by_head_some pdq (fun i => LastUsed (State i)) el Hp Hne) as Hrr.
  fold (selectByFailover pdq el) in Hfo. fold (selectByRoundRobin pdq el) in Hrr.
  destruct (String.eqb (routingStrategy m) "failover");
    [destruct (selectByFailover pdq el); [discriminate | contradiction]|].
  destruct (String.eqb (routingStrategy m) "weighted");
    [destruct (selectByWeight intn el); [discriminate | contradiction]|].
  destruct (String.eqb (routingStrategy m) "round_robin");
    [destruct (selectByRoundRobin pdq el); [discriminate | contradiction]|].
  destruct (selectByFailover pdq el); [discriminate | contradiction].
Qed.

(** X11.  With every configured weight at least one, as the configuration
    loader requires, and the sum of the weights within the integer range,
    selection by a manager built by [NewManager] never panics, whatever the
    strategy, the stores and the draw: the weighted strategy never asks
    for a random number below a bound that is not positive, and no
    strategy indexes an empty list.  It returns a name or one of its two
    errors. *)
Theorem X11_selection_never_panics
  (pdq : (instanceWithState -> Z) -> list instanceWithState -> list instanceWithState)
  (intn : Z -> Z) (cfgs : list InstanceConfig) (strategy : string)
  (now : Z) (w : World) (model : string) (tokens : Z) (provider : string) :
  rearranges pdq ->
  Forall (fun cfg => 1 <= Weight cfg) cfgs -> config_weights cfgs < 2 ^ 63 ->
  let r := fst (SelectInstanceForRequest pdq intn (NewManager cfgs strategy) now w
                  model tokens provider) in
  r <> Panic /\
  (forall msg, r = Error msg ->
     msg = "no suitable instances found for model " +:+ model \/
     msg = "no healthy instances with capacity found for model " +:+ model).
Proof.
  intros Hp Hw Hsum. cbv zeta. split; [apply selection_no_panic; assumption|].
  unfold SelectInstanceForRequest.
  destruct (List.filter (capable model tokens provider) _) as [|c cs];
    [intros msg [= <-]; left; reflexivity|].
  destruct (fold_left _ (c :: cs) ([], w)) as [el w'].
  destruct el as [|i rest]; [intros msg [= <-]; right; reflexivity|].
  cbv beta iota zeta. cbn [fst]. intros msg.
  destruct (if String.eqb _ "failover" then _ else _); discriminate.
Qed.

Lemma X11_selection_never_panics_witness :
  fst (SelectInstanceForRequest (fun _ l => l) (fun _ => 3)
         (NewManager two_configs "weighted") 0 empty_world "gpt-4" 0 "azure") <> Panic.
Proof.
  pose proof (X11_selection_never_panics (fun _ l => l) (fun _ => 3) two_configs
                "weighted" 0 empty_world "gpt-4" 0 "azure"
                (fun _ l => Permutation_refl l)) as H.
  cbv zeta in H. apply H.
  - repeat constructor; simpl; lia.
  - vm_compute. reflexivity.
Defined.

Lemma NoDup_name_inj (cfgs : list InstanceConfig) (a b : InstanceConfig) :
  List.NoDup (map Name cfgs) -> In a cfgs -> In b cfgs -> Name a = Name b -> a = b.
Proof.
  induction cfgs as [|c cfgs IH]; intros Hnd Ha Hb Hn; [destruct Ha|].
  cbn [map] in Hnd. apply List.NoDup_cons_iff in Hnd as [Hnot Hnd].
  destruct Ha as [<-|Ha], Hb as [<-|Hb]; auto.
  - exfalso. apply Hnot. rewrite Hn. apply in_map. exact Hb.
  - exfalso. apply Hnot. rewrite <- Hn. apply in_map. exact Ha.
Qed.






(* --------------------------------------------------------------------- *)
(** ** The stored state under accounting and health updates *)
(* --------------------------------------------------------------------- *)

Lemma wrap64_add_r (a b : Z) : wrap64 (a + wrap64 b) = wrap64 (a + b).
Proof. rewrite Z.add_comm, wrap64_add_l, Z.add_comm. reflexivity. Qed.

Lemma consistent_spec (st : InstanceState) :
  consistent st = true <->
  TotalRequests st = wrap64 (SuccessfulRequests st + ErrorCount st) /\
  ErrorCount st = wrap64 (TotalErrors500 st + TotalErrors503 st + TotalOtherErrors st) /\
  ((Status st = StatusHealthy /\ HealthStatus st <> "unhealthy") \/
   (Status st = StatusError /\ HealthStatus st = "unhealthy")).
Proof.
  unfold consistent.
  rewrite !andb_true_iff, orb_true_iff, !andb_true_iff, negb_true_iff, !Z.eqb_eq,
    !String.eqb_eq, String.eqb_neq.
  tauto.
Qed.

Lemma consistent_fresh (name : string) (now : Z) : consistent (NewInstanceState name now) = true.
Proof. reflexivity. Qed.

Lemma consistent_usage (now tokens elapsed : Z) (st : InstanceState) :
  consistent st = true -> consistent (usage_step now tokens elapsed st) = true.
Proof.
  rewrite !consistent_spec. cbn [usage_step TotalRequests SuccessfulRequests ErrorCount
    TotalErrors500 TotalErrors503 TotalOtherErrors Status HealthStatus].
  intros (H1 & H2 & H3). split; [|split; assumption].
  unfold add64. rewrite H1, !wrap64_add_l. f_equal. lia.
Qed.

Lemma consistent_error (statusCode : Z) (st : InstanceState) :
  consistent st = true -> consistent (error_step statusCode st) = true.
Proof.
  rewrite !consistent_spec. intros (H1 & H2 & H3). unfold error_step.
  set (counted := mkState _ _ _ _ (add64 (ErrorCount st) 1) _ _ _ _ _ _ _ _ _ _).
  assert (C1 : TotalRequests counted
               = wrap64 (SuccessfulRequests counted + ErrorCount counted)).
  { subst counted. cbn [TotalRequests SuccessfulRequests ErrorCount].
    unfold add64. rewrite H1, wrap64_add_l, wrap64_add_r. f_equal. lia. }
  assert (C2 : ErrorCount counted
               = wrap64 (TotalErrors500 counted + TotalErrors503 counted
                         + TotalOtherErrors counted)).
  { subst counted. cbn [ErrorCount TotalErrors500 TotalErrors503 TotalOtherErrors].
    unfold add64. rewrite H2, wrap64_add_l.
    destruct (statusCode =? 500).
    - replace (wrap64 (TotalErrors500 st + 1) + TotalErrors503 st + TotalOtherErrors st)
        with (wrap64 (TotalErrors500 st + 1) + (TotalErrors503 st + TotalOtherErrors st))
        by lia.
      rewrite wrap64_add_l. f_equal. lia.
    - destruct (statusCode =? 503).
      + replace (TotalErrors500 st + wrap64 (TotalErrors503 st + 1) + TotalOtherErrors st)
          with (wrap64 (TotalErrors503 st + 1) + (TotalErrors500 st + TotalOtherErrors st))
          by lia.
        rewrite wrap64_add_l. f_equal. lia.
      + rewrite wrap64_add_r. f_equal. lia. }
  destruct (PrimFloat.ltb 50 (errorRate counted) && (10 <? TotalRequests counted)).
  - cbn [TotalRequests SuccessfulRequests ErrorCount TotalErrors500 TotalErrors503
         TotalOtherErrors Status HealthStatus]. auto.
  - split; [exact C1|]. split; [exact C2|]. exact H3.
Qed.

Lemma consistent_health (now : Z) (result : healthCheckResult) (st : InstanceState) :
  consistent st = true -> consistent (health_step now result st) = true.
Proof.
  rewrite !consistent_spec. intros (H1 & H2 & _). unfold health_step.
  destruct (isHealthy result);
    cbn [TotalRequests SuccessfulRequests ErrorCount TotalErrors500 TotalErrors503
         TotalOtherErrors Status HealthStatus];
    (split; [exact H1|]; split; [exact H2|]).
  - left. split; [reflexivity | discriminate].
  - right. auto.
Qed.

(** What one operation does to the state store: nothing, or it stores the
    step of the state [Get] returned. *)
Lemma apply_op_store (m : Manager) (name : string) (w : World) (op : StateOp) :
  store_up (store (apply_op m name w op)) = store_up (store w) /\
  (store_up (store w) = false -> store (apply_op m name w op) = store w) /\
  (store_up (store w) = true ->
   exists now,
     let st := default (NewInstanceState name now) (states (store w) !! name) in
     states (store (apply_op m name w op))
     = <[name := match op with
                 | OpSuccess n tokens elapsed => usage_step n tokens elapsed st
                 | OpError _ statusCode => error_step statusCode st
                 | OpHealth n healthy latency err =>
                     health_step n (mkHealth name healthy latency err) st
                 end]> (states (store w))).
Proof.
  assert (U : forall now tokens,
             store (snd (Instance.UpdateUsage m now w name tokens)) = store w).
  { intros now tokens. unfold Instance.UpdateUsage.
    destruct (rateLimiters m !! name) as [rl|]; [|reflexivity].
    destruct (RateLimit.UpdateUsage rl (Unix now) now (redis w) tokens). reflexivity. }
  destruct op as [now tokens elapsed | now statusCode | now healthy latency err];
    cbn [apply_op]; unfold recordUsage, recordError, updateInstanceHealth,
      GetInstanceState, UpdateInstanceState, Get, Set_; cbn [instanceName];
    rewrite ?U;
    destruct (store_up (store w)) eqn:Eu; cbn [snd store store_up states];
    rewrite ?U, ?Eu; cbn [snd store store_up states];
    (split; [reflexivity|];
     split; [intros Hx; first [discriminate Hx | reflexivity]
            | intros Hx; first [discriminate Hx | exists now; reflexivity]]).
Qed.

(** X13.  Whatever sequence of success accountings, error accountings and
    health updates is applied to an instance, a stored state whose
    counters and status fields are consistent stays so: the requests
    counted are the successes plus the errors, the errors counted are
    those of the three classes, the health field reads [unhealthy] exactly
    when the status is [error], and the status is never anything but
    [healthy] or [error]: [rate_limited] is never stored. *)
Theorem X13_state_invariants (m : Manager) (name : string) (ops : list StateOp)
  (w : World) :
  stored_consistent w name = true ->
  stored_consistent (run_ops m name ops w) name = true /\
  forall now st, GetInstanceState (run_ops m name ops w) now name = Some st ->
                 consistent st = true /\ Status st <> StatusRateLimited.
Proof.
  intros H.
  assert (K : stored_consistent (run_ops m name ops w) name = true).
  { revert w H. induction ops as [|op ops IH]; intros w H; [exact H|].
    cbn [run_ops fold_left]. apply IH. unfold stored_consistent in *.
    destruct (apply_op_store m name w op) as (_ & Hd & Hu).
    destruct (store_up (store w)).
    - destruct (Hu eq_refl) as [now E]. cbn zeta in E. rewrite E, lookup_insert_eq.
      assert (C : consistent (default (NewInstanceState name now)
                                (states (store w) !! name)) = true).
      { destruct (states (store w) !! name); [exact H | reflexivity]. }
      destruct op; [apply consistent_usage | apply consistent_error
                    | apply consistent_health]; exact C.
    - rewrite (Hd eq_refl). exact H. }
  split; [exact K|]. intros now st Hg.
  assert (C : consistent st = true).
  { unfold GetInstanceState, Get in Hg. unfold stored_consistent in K.
    destruct (store_up (store (run_ops m name ops w))); [|discriminate].
    injection Hg as <-.
    destruct (states (store (run_ops m name ops w)) !! name); [exact K | reflexivity]. }
  split; [exact C|]. apply consistent_spec in C as (_ & _ & [[E _]|[E _]]);
    rewrite E; discriminate.
Qed.

Lemma X13_state_invariants_witness :
  stored_consistent
    (run_ops (NewManager [example_config "A" 1 1] "failover") "A"
       [OpError 5 500; OpSuccess 6 10 7; OpHealth 8 false 9 None]
       (world_of {[ "A" := ten_errors "A" ]})) "A" = true.
Proof.
  apply (X13_state_invariants (NewManager [example_config "A" 1 1] "failover") "A"
           [OpError 5 500; OpSuccess 6 10 7; OpHealth 8 false 9 None]
           (world_of {[ "A" := ten_errors "A" ]})).
  vm_compute. reflexivity.
Defined.

Lemma tally_default (name : string) (now : Z) (o : option InstanceState) :
  tally (default (NewInstanceState name now) o) = tally (default (NewInstanceState name 0) o).
Proof. destruct o; reflexivity. Qed.

Lemma count_ops_snoc (p : StateOp -> bool) (ops : list StateOp) (op : StateOp) :
  count_ops p (ops ++ [op]) = count_ops p ops + (if p op then 1 else 0).
Proof.
  unfold count_ops. rewrite List.filter_app, length_app. cbn [List.filter].
  destruct (p op); simpl; lia.
Qed.

Lemma tokens_of_ops_snoc (ops : list StateOp) (op : StateOp) :
  tokens_of_ops (ops ++ [op])
  = tokens_of_ops ops + match op with OpSuccess _ tokens _ => tokens | _ => 0 end.
Proof.
  unfold tokens_of_ops. induction ops as [|o ops IH]; cbn [app fold_right].
  - destruct op; lia.
  - rewrite IH. destruct o; lia.
Qed.

Lemma run_ops_snoc (m : Manager) (name : string) (ops : list StateOp) (op : StateOp)
  (w : World) :
  run_ops m name (ops ++ [op]) w = apply_op m name (run_ops m name ops w) op.
Proof. unfold run_ops. rewrite fold_left_app. reflexivity. Qed.

Lemma tuple4_eq {A B C D : Type} (a a' : A) (b b' : B) (c c' : C) (d d' : D) :
  a = a' -> b = b' -> c = c' -> d = d' -> (a, b, c, d) = (a', b', c', d').
Proof. intros -> -> -> ->. reflexivity. Qed.

Lemma run_ops_tally (m : Manager) (name : string) (w : World) (ops : list StateOp) :
  store_up (store w) = true -> states (store w) !! name = None ->
  store_up (store (run_ops m name ops w)) = true /\
  tally (default (NewInstanceState name 0) (states (store (run_ops m name ops w)) !! name))
  = (wrap64 (count_ops is_success ops), wrap64 (count_ops is_error ops),
     wrap64 (count_ops is_success ops + count_ops is_error ops),
     wrap64 (tokens_of_ops ops)).
Proof.
  intros Hup Hnone. induction ops as [|op ops [IH1 IH2]] using rev_ind.
  - split; [exact Hup|]. cbn [run_ops fold_left]. rewrite Hnone. reflexivity.
  - rewrite run_ops_snoc.
    destruct (apply_op_store m name (run_ops m name ops w) op) as (Hu & _ & Hs).
    split; [rewrite Hu; exact IH1|].
    destruct (Hs IH1) as [now E]. cbn zeta in E.
    pose proof (tally_default name now (states (store (run_ops m name ops w)) !! name)) as T.
    rewrite IH2 in T.
    set (st := default (NewInstanceState name now)
                 (states (store (run_ops m name ops w)) !! name)) in *.
    rewrite E, lookup_insert_eq. cbn [default from_option]. unfold id.
    unfold tally in T. injection T as T1 T2 T3 T4.
    rewrite !count_ops_snoc, tokens_of_ops_snoc.
    destruct op as [n tokens elapsed | n statusCode | n healthy latency err];
      cbn [is_success is_error].
    + unfold tally. cbn [usage_step SuccessfulRequests ErrorCount TotalRequests
                         TotalTokensServed].
      unfold add64. rewrite T1, T2, T3, T4, !wrap64_add_l, !Z.add_0_r.
      apply tuple4_eq; try reflexivity; apply (f_equal wrap64); lia.
    + assert (Q : tally (error_step statusCode st)
                  = (SuccessfulRequests st, add64 (ErrorCount st) 1,
                     add64 (TotalRequests st) 1, TotalTokensServed st)).
      { unfold error_step.
        destruct (PrimFloat.ltb 50 (errorRate _) && (10 <? TotalRequests _));
          reflexivity. }
      rewrite Q. unfold add64. rewrite T1, T2, T3, T4, !wrap64_add_l, !Z.add_0_r.
      apply tuple4_eq; try reflexivity; apply (f_equal wrap64); lia.
    + assert (Q : tally (health_step n (mkHealth name healthy latency err) st) = tally st).
      { unfold health_step. destruct (isHealthy _); reflexivity. }
      rewrite Q. unfold tally. rewrite T1, T2, T3, T4, !Z.add_0_r. reflexivity.
Qed.

(** X14.  On a state store that answers, starting from an instance without
    a stored state, every accounting is counted once, whatever health
    updates come between: the stored counters are the number of successes,
    the number of errors, their sum, and the sum of the tokens of the
    successes, each modulo [2^64]. *)
Theorem X14_accounting_counts (m : Manager) (name : string) (ops : list StateOp)
  (w : World) (now : Z) :
  store_up (store w) = true -> states (store w) !! name = None ->
  exists st,
    GetInstanceState (run_ops m name ops w) now name = Some st /\
    SuccessfulRequests st = wrap64 (count_ops is_success ops) /\
    ErrorCount st = wrap64 (count_ops is_error ops) /\
    TotalRequests st = wrap64 (count_ops is_success ops + count_ops is_error ops) /\
    TotalTokensServed st = wrap64 (tokens_of_ops ops).
Proof.
  intros Hup Hnone. destruct (run_ops_tally m name w ops Hup Hnone) as [H1 H2].
  unfold GetInstanceState, Get. rewrite H1. eexists. split; [reflexivity|].
  rewrite <- tally_default with (now := now) in H2. unfold tally in H2.
  injection H2 as T1 T2 T3 T4. auto.
Qed.

Lemma X14_accounting_counts_witness :
  exists st,
    GetInstanceState
      (run_ops (NewManager [example_config "A" 1 1] "failover") "A"
         [OpSuccess 1 10 2; OpError 3 503; OpHealth 4 true 5 None; OpSuccess 6 20 7]
         empty_world) 8 "A" = Some st /\
    TotalTokensServed st = 30.
Proof.
  destruct (X14_accounting_counts (NewManager [example_config "A" 1 1] "failover") "A"
              [OpSuccess 1 10 2; OpError 3 503; OpHealth 4 true 5 None; OpSuccess 6 20 7]
              empty_world 8 eq_refl eq_refl) as (st & Hg & _ & _ & _ & Ht).
  exists st. split; [exact Hg | exact Ht].
Defined.

(* --------------------------------------------------------------------- *)
(** ** What the dispatcher answers and accounts *)
(* --------------------------------------------------------------------- *)

Lemma no_retry_after_header (e : ProxyError) :
  GetRetryAfter e = 0 -> Header (sendErrorResponse e) !! "Retry-After" = None.
Proof.
  intros H. unfold sendErrorResponse. rewrite H. cbn [Z.ltb Z.compare].
  unfold JSON_, writeContentType. cbn [Header]. rewrite lookup_empty.
  rewrite lookup_insert_ne by discriminate. apply lookup_empty.
Qed.

Ltac no_retry_after :=
  unfold GetRetryAfter, NewClientError, NewUpstreamError, NewInstanceError, NewInternalError;
  cbn [Details];
  repeat (rewrite lookup_insert_ne by discriminate);
  rewrite ?lookup_singleton_ne by discriminate;
  reflexivity.

Lemma proxy_request_no_retry_after (env : Env) (now : Z) (cfg : InstanceConfig)
  (endpoint : string) (payload : gmap string Value) (deploymentName : string)
  (e : ProxyError) :
  ProxyRequest (json_marshal env) (http_do env) now cfg endpoint payload deploymentName
  = Failed e ->
  GetRetryAfter e = 0.
Proof.
  unfold ProxyRequest. destruct (buildAzureURL cfg endpoint deploymentName); [|discriminate].
  destruct (json_marshal env payload); [|intros [= <-]; no_retry_after].
  destruct (http_do env s s0); [discriminate|]. intros [= <-]. no_retry_after.
Qed.

Lemma parse_error_no_retry_after (env : Env) (now : Z) (resp : HTTPResponse) :
  GetRetryAfter (ParseErrorResponse (json_unmarshal env) now resp) = 0.
Proof.
  unfold ParseErrorResponse. destruct (RespBody resp); [|no_retry_after].
  destruct (json_unmarshal env s); [|no_retry_after].
  destruct (match g !! "error" with Some (VMap _) => _ | _ => _ end). no_retry_after.
Qed.

(** X15.  No error the dispatcher answers with carries a [Retry-After]
    header: whatever the request, the stores and the upstream, a response
    of the dispatcher with a status of 400 or more has none.  This holds
    for a denial by the rate limiter and for an upstream 429 alike: the
    errors built on the way hold no [retry_after] among their details. *)
Theorem X15_no_retry_after (env : Env) (m : Manager) (now : Z) (w : World)
  (endpoint : string) (bound : gmap string Value + string) (r : Response) (w' : World) :
  handleProxyRequest env m now w endpoint bound = (Responded r, w') ->
  400 <= Code r ->
  Header r !! "Retry-After" = None.
Proof.
  unfold handleProxyRequest. intros H Hcode.
  destruct bound as [payload|e];
    [|injection H as <- _; apply no_retry_after_header; no_retry_after].
  destruct (ValidateRequest endpoint payload);
    [injection H as <- _; apply no_retry_after_header; no_retry_after|].
  destruct (SelectInstance _ _ m now w _ 0 "azure") as [[name|e|] w1];
    [|injection H as <- _; apply no_retry_after_header; no_retry_after|discriminate].
  destruct (GetInstanceConfig m name) as [cfg|];
    [|injection H as <- _; apply no_retry_after_header; no_retry_after].
  destruct (TransformOpenAIToAzure _ _ _ _) as [tr|e|];
    [|injection H as <- _; apply no_retry_after_header; no_retry_after|discriminate].
  destruct (CheckRateLimit m now w1 name (RequiredTokens tr)) as [[cap err] w2].
  destruct cap; cbn [negb] in H;
    [|injection H as <- _; apply no_retry_after_header; no_retry_after].
  destruct (azureServices m !! name) as [svc|];
    [|injection H as <- _; apply no_retry_after_header; no_retry_after].
  set (streaming := match payload !! "stream" with Some (VBool true) => true | _ => false end)
    in H.
  destruct (if streaming then _ else _) as [resp|e|] eqn:Ex; [| |discriminate].
  - destruct (Z.leb_spec 400 (RespStatus resp)) as [Hge|Hlt].
    + injection H as <- _. apply no_retry_after_header, parse_error_no_retry_after.
    + injection H as <- _. destruct streaming.
      * exfalso. revert Hcode. unfold streamResponse. cbn [Code]. lia.
      * revert Hcode. unfold forwardResponse. destruct (RespBody resp).
        -- destruct (json_unmarshal env s); unfold JSON_; cbn [Code]; lia.
        -- intros _. apply no_retry_after_header. no_retry_after.
  - injection H as <- _. apply no_retry_after_header.
    destruct streaming; [unfold StreamRequest in Ex|];
      eapply proxy_request_no_retry_after; exact Ex.
Qed.

Lemma X15_no_retry_after_witness :
  exists r, s2_response = Responded r /\ Code r = 429 /\ Header r !! "Retry-After" = None.
Proof.
  eexists. split; [vm_compute; reflexivity|]. split; [reflexivity|].
  eapply (X15_no_retry_after s2_env s2_manager 1000000000000 s2_world
            "/v1/chat/completions" (inl (chat_payload "gpt-4" false))).
  - vm_compute. reflexivity.
  - vm_compute. discriminate.
Defined.

Lemma shrinks_refl (r : Redis) : shrinks r r.
Proof. split; auto. Qed.

Lemma shrinks_trans (r1 r2 r3 : Redis) : shrinks r1 r2 -> shrinks r2 r3 -> shrinks r1 r3.
Proof.
  intros [F1 Z1] [F2 Z2]. split; [congruence|]. intros key e H. apply Z1, Z2, H.
Qed.

Lemma shrinks_evict (r : Redis) (key : string) (c : Z) :
  shrinks r (mkRedis (<[key := ZRemRangeByScore c (zset r key)]> (zsets r)) (fault r)).
Proof.
  split; [reflexivity|]. intros k e. rewrite zset_insert.
  destruct (decide (key = k)) as [<-|_].
  - unfold ZRemRangeByScore. rewrite filter_In. tauto.
  - destruct r. auto.
Qed.

Lemma CheckCapacity_shrinks (rl : RateLimiter) (now : Z) (r : Redis) (t : Z) :
  shrinks r (snd (CheckCapacity rl now r t)).
Proof.
  unfold CheckCapacity.
  destruct ((0 <? maxInputTokens rl) && (maxInputTokens rl <? t)); [apply shrinks_refl|].
  unfold pipeline_exec. destruct (fault r) eqn:Ef; cbn beta iota zeta.
  - destruct (fold_left capacity_step _ _) as [cu ot].
    rewrite <- Ef. destruct (tokensPerMinute rl <? add64 cu t); apply shrinks_evict.
  - apply shrinks_refl.
  - rewrite <- Ef. apply shrinks_evict.
Qed.

Lemma CheckRateLimit_frame (m : Manager) (now : Z) (w : World) (name : string) (t : Z) :
  store (snd (CheckRateLimit m now w name t)) = store w /\
  shrinks (redis w) (redis (snd (CheckRateLimit m now w name t))).
Proof.
  unfold CheckRateLimit. destruct (rateLimiters m !! name) as [rl|].
  - pose proof (CheckCapacity_shrinks rl (Unix now) (redis w) t) as H.
    destruct (CheckCapacity rl (Unix now) (redis w) t). split; [reflexivity | exact H].
  - split; [reflexivity | apply shrinks_refl].
Qed.

Lemma eligible_fold_frame (m : Manager) (now tokens : Z) (cfgs : list InstanceConfig)
  (acc : list instanceWithState) (w : World) :
  store (snd (fold_left (eligible_step m now tokens) cfgs (acc, w))) = store w /\
  shrinks (redis w) (redis (snd (fold_left (eligible_step m now tokens) cfgs (acc, w)))).
Proof.
  revert acc w. induction cfgs as [|cfg cfgs IH]; intros acc w.
  - split; [reflexivity | apply shrinks_refl].
  - cbn [fold_left].
    assert (K : exists acc' w', eligible_step m now tokens (acc, w) cfg = (acc', w') /\
                                store w' = store w /\ shrinks (redis w) (redis w')).
    { unfold eligible_step.
      destruct (GetInstanceState w now (Name cfg)) as [state|];
        [|exists acc, w; split; [reflexivity|]; split; [reflexivity | apply shrinks_refl]].
      destruct (negb (IsHealthy state));
        [exists acc, w; split; [reflexivity|]; split; [reflexivity | apply shrinks_refl]|].
      destruct (CheckRateLimit_frame m now w (Name cfg) tokens) as [H1 H2].
      destruct (CheckRateLimit m now w (Name cfg) tokens) as [[hasCapacity err] w'].
      cbn [snd] in H1, H2.
      destruct err; [|destruct (negb hasCapacity)]; eauto. }
    destruct K as (acc' & w' & -> & Hs & Hr).
    destruct (IH acc' w') as [H1 H2]. split; [congruence|].
    eapply shrinks_trans; eassumption.
Qed.

Lemma selection_frame
  (pdq : (instanceWithState -> Z) -> list instanceWithState -> list instanceWithState)
  (intn : Z -> Z) (m : Manager) (now : Z) (w : World)
  (model : string) (tokens : Z) (provider : string) :
  store (snd (SelectInstanceForRequest pdq intn m now w model tokens provider)) = store w /\
  shrinks (redis w)
    (redis (snd (SelectInstanceForRequest pdq intn m now w model tokens provider))).
Proof.
  unfold SelectInstanceForRequest.
  destruct (List.filter (capable model tokens provider) (configs m)) as [|c cs];
    [split; [reflexivity | apply shrinks_refl]|].
  pose proof (eligible_fold_frame m now tokens (c :: cs) [] w) as H.
  destruct (fold_left (eligible_step m now tokens) (c :: cs) ([], w)) as [el w'].
  destruct el; exact H.
Qed.

Lemma unreachable_not_answered (env : Env) (now : Z) (cfg : InstanceConfig)
  (endpoint : string) (payload : gmap string Value) (deploymentName : string)
  (resp : HTTPResponse) :
  unreachable env ->
  ProxyRequest (json_marshal env) (http_do env) now cfg endpoint payload deploymentName
  <> Answered resp.
Proof.
  intros Hu. unfold ProxyRequest.
  destruct (buildAzureURL cfg endpoint deploymentName) as [url|]; [|discriminate].
  destruct (json_marshal env payload) as [body|]; [|discriminate].
  destruct (Hu url body) as [e ->]. discriminate.
Qed.

(** X16.  A request that upstream does not answer is not accounted: when
    the HTTP exchange fails, whatever else happens, the dispatcher leaves
    the state store as it found it (neither a success nor an error is
    recorded, so an unreachable upstream never demotes an instance) and
    adds no usage to any window of the limiter (entries are at most
    evicted); the client receives an error or the handler panics. *)
Theorem X16_unanswered_not_accounted (env : Env) (m : Manager) (now : Z) (w : World)
  (endpoint : string) (bound : gmap string Value + string) :
  unreachable env ->
  let out := handleProxyRequest env m now w endpoint bound in
  store (snd out) = store w /\
  shrinks (redis w) (redis (snd out)) /\
  (fst out = Panicked \/ exists e, fst out = Responded (sendErrorResponse e)).
Proof.
  intros Hu. cbv zeta. unfold handleProxyRequest.
  destruct bound as [payload|e];
    [|split; [reflexivity|]; split; [apply shrinks_refl | right; eexists; reflexivity]].
  destruct (ValidateRequest endpoint payload);
    [split; [reflexivity|]; split; [apply shrinks_refl | right; eexists; reflexivity]|].
  pose proof (selection_frame (pdqsort env) (intn env) m now w
                (match payload !! "model" with Some (VString name) => name | _ => "" end)
                0 "azure") as [S1 R1].
  unfold SelectInstance.
  destruct (SelectInstanceForRequest _ _ m now w _ 0 "azure") as [[name|e|] w1];
    cbn [snd] in S1, R1;
    [| split; [exact S1|]; split; [exact R1 | right; eexists; reflexivity]
     | split; [exact S1|]; split; [exact R1 | left; reflexivity]].
  destruct (GetInstanceConfig m name) as [cfg|];
    [|split; [exact S1|]; split; [exact R1 | right; eexists; reflexivity]].
  destruct (TransformOpenAIToAzure _ _ _ _) as [tr|e|];
    [| split; [exact S1|]; split; [exact R1 | right; eexists; reflexivity]
     | split; [exact S1|]; split; [exact R1 | left; reflexivity]].
  destruct (CheckRateLimit_frame m now w1 name (RequiredTokens tr)) as [S2 R2].
  destruct (CheckRateLimit m now w1 name (RequiredTokens tr)) as [[cap err] w2].
  cbn [snd] in S2, R2.
  assert (S : store w2 = store w) by congruence.
  assert (R : shrinks (redis w) (redis w2)) by (eapply shrinks_trans; eassumption).
  destruct cap; cbn [negb];
    [|split; [exact S|]; split; [exact R | right; eexists; reflexivity]].
  destruct (azureServices m !! name) as [svc|];
    [|split; [exact S|]; split; [exact R | right; eexists; reflexivity]].
  set (streaming := match payload !! "stream" with Some (VBool true) => true | _ => false end).
  destruct (if streaming then _ else _) as [resp|e|] eqn:Ex.
  - exfalso. destruct streaming; [unfold StreamRequest in Ex|];
      eapply unreachable_not_answered; eauto.
  - split; [exact S|]. split; [exact R | right; eexists; reflexivity].
  - split; [exact S|]. split; [exact R | left; reflexivity].
Qed.

Lemma X16_unanswered_not_accounted_witness :
  store (snd (handleProxyRequest s2_env s2_manager 1000000000000 empty_world
                "/v1/chat/completions" (inl (chat_payload "gpt-4" false))))
  = store empty_world.
Proof.
  pose proof (X16_unanswered_not_accounted s2_env s2_manager 1000000000000 empty_world
                "/v1/chat/completions" (inl (chat_payload "gpt-4" false))
                (fun _ _ => ex_intro _ "not reached" eq_refl)) as H.
  cbv zeta in H. destruct H as [H _]. exact H.
Defined.

(* --------------------------------------------------------------------- *)
(** ** The request transformer *)
(* --------------------------------------------------------------------- *)

Lemma HasPrefix_append (p s : string) : HasPrefix (p +:+ s) p = true.
Proof.
  induction p as [|c p IH]; [destruct s; reflexivity|].
  simpl. rewrite Ascii.eqb_refl. exact IH.
Qed.

Lemma append_inj (p a b : string) : p +:+ a = p +:+ b -> a = b.
Proof.
  induction p as [|c p IH]; [auto|]. simpl. intros [= H]. auto.
Qed.

(** X17.  Metadata added by [AddRequestMetadata] never reaches upstream and
    disturbs nothing: cleaning the payload after adding metadata gives
    what cleaning the payload alone gives (the payload itself when it has
    no key with the internal prefix); every metadata entry is stored under
    its prefixed key, whatever the order in which the metadata is walked;
    and the keys without the prefix are as they were. *)
Theorem X17_metadata_round_trip (payload metadata : gmap string Value) :
  CleanRequestMetadata (AddRequestMetadata payload metadata) = CleanRequestMetadata payload /\
  (forall k v, metadata !! k = Some v ->
               AddRequestMetadata payload metadata !! ("_internal_" +:+ k) = Some v) /\
  (forall k, internal_key k = false ->
             AddRequestMetadata payload metadata !! k = payload !! k) /\
  (forall k, internal_key k = true -> CleanRequestMetadata payload !! k = None) /\
  ((forall k, internal_key k = true -> payload !! k = None) ->
   CleanRequestMetadata (AddRequestMetadata payload metadata) = payload).
Proof.
  assert (G : CleanRequestMetadata (AddRequestMetadata payload metadata)
              = CleanRequestMetadata payload /\
              (forall k v, metadata !! k = Some v ->
                 AddRequestMetadata payload metadata !! ("_internal_" +:+ k) = Some v) /\
              (forall k, internal_key k = false ->
                 AddRequestMetadata payload metadata !! k = payload !! k)).
  { unfold AddRequestMetadata.
    apply (map_fold_weak_ind
             (fun r md =>
                CleanRequestMetadata r = CleanRequestMetadata payload /\
                (forall k v, md !! k = Some v -> r !! ("_internal_" +:+ k) = Some v) /\
                (forall k, internal_key k = false -> r !! k = payload !! k))).
    - split; [reflexivity|]. split; [|reflexivity].
      intros k v H. rewrite lookup_empty in H. discriminate.
    - intros i x m r Hi (H1 & H2 & H3). split; [|split].
      + rewrite <- H1. unfold CleanRequestMetadata. apply map_filter_insert_not.
        intros y. cbn [fst]. rewrite HasPrefix_append. discriminate.
      + intros k v. destruct (decide (i = k)) as [<-|Hne].
        * rewrite !lookup_insert_eq. auto.
        * rewrite lookup_insert_ne by exact Hne. intros Hk.
          rewrite lookup_insert_ne; [apply H2; exact Hk|].
          intros E. apply append_inj in E. contradiction.
      + intros k Hk. rewrite lookup_insert_ne; [apply H3; exact Hk|].
        intros <-. unfold internal_key in Hk. rewrite HasPrefix_append in Hk. discriminate. }
  destruct G as (G1 & G2 & G3). split; [exact G1|]. split; [exact G2|]. split; [exact G3|].
  split.
  - intros k Hk. unfold CleanRequestMetadata. apply map_lookup_filter_None. right.
    intros x _. cbn [fst]. unfold internal_key in Hk. rewrite Hk. discriminate.
  - intros H. rewrite G1. unfold CleanRequestMetadata. apply map_filter_id.
    intros k x Hx. cbn [fst]. destruct (HasPrefix k "_internal_") eqn:E; [|reflexivity].
    rewrite (H k E) in Hx. discriminate.
Qed.

Lemma X17_metadata_round_trip_witness :
  CleanRequestMetadata
    (AddRequestMetadata (chat_payload "gpt-4" false) {[ "trace" := VString "t" ]})
  = chat_payload "gpt-4" false.
Proof.
  destruct (X17_metadata_round_trip (chat_payload "gpt-4" false)
              {[ "trace" := VString "t" ]}) as (_ & _ & _ & _ & H).
  apply H. intros k Hk. unfold chat_payload.
  repeat (rewrite lookup_insert_ne; [|intros <-; discriminate Hk]).
  rewrite lookup_singleton_ne; [reflexivity | intros <-; discriminate Hk].
Defined.

Lemma validate_messages_ok (i : Z) (messages : list Value) :
  validate_messages i messages = None <-> forallb message_ok messages = true.
Proof.
  revert i. induction messages as [|v rest IH]; intros i; [simpl; tauto|].
  cbn [validate_messages forallb]. rewrite andb_true_iff, <- (IH (i + 1)).
  destruct v; cbn [message_ok];
    try (split; [discriminate | intros [H _]; discriminate H]).
  destruct (m !! "role") as [r|]; [|split; [discriminate | intros [H _]; discriminate H]].
  destruct (m !! "content") as [c|]; [|split; [discriminate | intros [H _]; discriminate H]].
  rewrite !bool_decide_eq_true_2 by eauto. cbn [andb]. tauto.
Qed.

Lemma validate_messages_first (i : Z) (l1 l2 : list Value) (v : Value) :
  forallb message_ok l1 = true -> message_ok v = false ->
  exists what,
    validate_messages i (l1 ++ v :: l2)
    = Some ("message " +:+ pretty (i + Z.of_nat (length l1)) +:+ what).
Proof.
  revert i. induction l1 as [|a l1 IH]; intros i H1 Hv.
  - cbn [app length Z.of_nat validate_messages]. rewrite Z.add_0_r.
    destruct v; try (eexists; reflexivity). cbn [message_ok] in Hv.
    destruct (m !! "role") as [r|]; [|eexists; reflexivity].
    destruct (m !! "content") as [c|]; [|eexists; reflexivity].
    rewrite !bool_decide_eq_true_2 in Hv by eauto. discriminate.
  - cbn [forallb] in H1. apply andb_prop in H1 as [Ha H1].
    destruct a; try discriminate Ha. cbn [message_ok] in Ha.
    apply andb_prop in Ha as [Hr Hc]. apply bool_decide_eq_true_1 in Hr as [r Hr], Hc.
    destruct Hc as [c Hc].
    cbn [app validate_messages]. rewrite Hr, Hc.
    destruct (IH (i + 1) H1 Hv) as [what E]. exists what. rewrite E.
    replace (i + 1 + Z.of_nat (length l1)) with (i + Z.of_nat (length (VMap m :: l1)))
      by (cbn [length]; lia).
    reflexivity.
Qed.

(** X18.  What [ValidateRequest] accepts.  A chat request passes exactly
    when [messages] is a non-empty array of objects that each hold a
    [role] and a [content] (of any value), and a rejection for a bad
    message names the index of the first one; a completion request passes
    exactly when [prompt] is present, an embedding request exactly when
    [input] is; a request to any other endpoint always passes.  The
    [model] is never looked at. *)
Theorem X18_validate_request (endpoint : string) (payload : gmap string Value) :
  (ValidateRequest "/v1/chat/completions" payload = None <->
   exists messages, payload !! "messages" = Some (VSlice messages) /\
                    messages <> [] /\ forallb message_ok messages = true) /\
  (forall l1 v l2,
     payload !! "messages" = Some (VSlice (l1 ++ v :: l2)) ->
     forallb message_ok l1 = true -> message_ok v = false ->
     exists what,
       ValidateRequest "/v1/chat/completions" payload
       = Some ("message " +:+ pretty (Z.of_nat (length l1)) +:+ what)) /\
  (ValidateRequest "/v1/completions" payload = None <-> is_Some (payload !! "prompt")) /\
  (ValidateRequest "/v1/embeddings" payload = None <-> is_Some (payload !! "input")) /\
  (endpoint <> "/v1/chat/completions" -> endpoint <> "/v1/completions" ->
   endpoint <> "/v1/embeddings" -> ValidateRequest endpoint payload = None) /\
  (forall v, ValidateRequest endpoint (<["model" := v]> payload)
             = ValidateRequest endpoint payload).
Proof.
  split; [|split; [|split; [|split; [|split]]]].
  - unfold ValidateRequest. cbn [String.eqb Ascii.eqb Bool.eqb].
    destruct (payload !! "messages") as [v|].
    2:{ split; [discriminate | intros (ms & H & _); discriminate H]. }
    destruct v; try (split; [discriminate | intros (ms & H & _); discriminate H]).
    destruct l as [|a l].
    + split; [discriminate | intros (ms & [= <-] & H & _); contradiction].
    + rewrite validate_messages_ok. split.
      * intros H. exists (a :: l). split; [reflexivity|]. split; [discriminate | exact H].
      * intros (ms & [= <-] & _ & H). exact H.
  - intros l1 v l2 Hm H1 Hv. unfold ValidateRequest.
    cbn [String.eqb Ascii.eqb Bool.eqb]. rewrite Hm.
    destruct (validate_messages_first 0 l1 l2 v H1 Hv) as [what E].
    rewrite Z.add_0_l in E. exists what. rewrite <- E.
    destruct l1; reflexivity.
  - unfold ValidateRequest. cbn [String.eqb Ascii.eqb Bool.eqb].
    destruct (payload !! "prompt"); split; eauto; try discriminate.
    intros [x H]. discriminate H.
  - unfold ValidateRequest. cbn [String.eqb Ascii.eqb Bool.eqb].
    destruct (payload !! "input"); split; eauto; try discriminate.
    intros [x H]. discriminate H.
  - intros H1 H2 H3. unfold ValidateRequest.
    apply String.eqb_neq in H1, H2, H3. rewrite H1, H2, H3. reflexivity.
  - intros v. unfold ValidateRequest.
    rewrite !lookup_insert_ne by discriminate. reflexivity.
Qed.

Lemma X18_validate_request_witness :
  ValidateRequest "/v1/models" (chat_payload "gpt-4" false) = None.
Proof.
  destruct (X18_validate_request "/v1/models" (chat_payload "gpt-4" false))
    as (_ & _ & _ & _ & H & _).
  apply H; discriminate.
Defined.






(* --------------------------------------------------------------------- *)
(** ** Relaying a stream *)
(* --------------------------------------------------------------------- *)

Lemma scan_lines_line (line : string) :
  no_LF line = true ->
  forall cur rest,
    scan_lines cur (line +:+ LF +:+ rest) = dropCR (cur +:+ line) :: scan_lines "" rest.
Proof.
  intros H. induction line as [|c line IH]; intros cur rest.
  - rewrite append_empty. reflexivity.
  - cbn [no_LF all_bytes] in H. apply andb_prop in H as [Hc Hl].
    apply negb_true_iff in Hc.
    change (scan_lines cur (String c (line +:+ LF +:+ rest))
            = dropCR (cur +:+ String c line) :: scan_lines "" rest).
    cbn [scan_lines]. rewrite Hc, (IH Hl), <- append_snoc. reflexivity.
Qed.

Lemma scan_lines_text (lines : list string) :
  Forall (fun line => scannable line = true) lines ->
  scan_lines "" (lines_text lines) = map dropCR lines.
Proof.
  induction 1 as [|line lines Hl _ IH]; [reflexivity|].
  cbn [lines_text fold_right map]. fold (lines_text lines).
  apply andb_prop in Hl as [Hl _].
  rewrite (scan_lines_line line Hl "" (lines_text lines)), IH. reflexivity.
Qed.

Lemma HasPrefix_split (p s : string) :
  HasPrefix s p = true -> exists r, s = p +:+ r.
Proof.
  revert s. induction p as [|c p IH]; intros s H; [exists s; reflexivity|].
  destruct s as [|a s]; [discriminate|]. cbn [HasPrefix] in H.
  destruct (Ascii.eqb_spec c a) as [<-|]; [|discriminate].
  destruct (IH s H) as [r ->]. exists r. reflexivity.
Qed.

Lemma substring_all (s : string) : String.substring 0 (String.length s) s = s.
Proof. induction s as [|c s IH]; [reflexivity|]. cbn. rewrite IH. reflexivity. Qed.

Lemma TrimPrefix_append (p r : string) : TrimPrefix (p +:+ r) p = r.
Proof.
  unfold TrimPrefix. rewrite HasPrefix_append.
  induction p as [|c p IH].
  - cbn [String.length]. rewrite Nat.sub_0_r. apply substring_all.
  - exact IH.
Qed.

(** A data line is the end-of-stream line exactly when it reads
    [data: [DONE]]. *)
Lemma done_test (line : string) :
  HasPrefix line "data: " && String.eqb (TrimPrefix line "data: ") "[DONE]"
  = String.eqb line done_line.
Proof.
  destruct (HasPrefix line "data: ") eqn:Hp.
  - apply HasPrefix_split in Hp as [r ->]. rewrite TrimPrefix_append. cbn [andb].
    destruct (String.eqb_spec r "[DONE]") as [->|Hne]; [reflexivity|].
    symmetry. apply String.eqb_neq. intros E. apply Hne.
    apply (append_inj "data: "). exact E.
  - cbn [andb]. symmetry. apply String.eqb_neq. intros ->. discriminate Hp.
Qed.

Lemma stream_lines_done (env : Env) (model : string) (lines1 lines2 : list string) :
  Forall (fun line => line <> done_line) lines1 ->
  stream_lines env model (lines1 ++ done_line :: lines2)
  = stream_lines env model lines1 ++ [RawChunk (done_line +:+ LF +:+ LF)] /\
  length (stream_lines env model lines1) = length lines1.
Proof.
  induction 1 as [|line lines1 Hl _ [IH1 IH2]]; [split; reflexivity|].
  cbn [app stream_lines length].
  pose proof (done_test line) as T. apply String.eqb_neq in Hl. rewrite Hl in T.
  destruct (HasPrefix line "data: "); cbn [andb] in T.
  - rewrite T. destruct (json_unmarshal env (TrimPrefix line "data: "));
      rewrite IH1; cbn [app length]; rewrite IH2; auto.
  - rewrite IH1. cbn [app length]. rewrite IH2. auto.
Qed.

(** X20.  How a stream is relayed.  For an upstream body of lines ended by
    line feeds, each short enough for the scanner's buffer, every line before the first [data: [DONE]] is answered by
    exactly one write, in order; then [data: [DONE]] is written, followed
    by two line feeds; and of what upstream sends after it nothing is
    relayed.  A carriage return before the line feed is dropped before the
    line is looked at. *)
Theorem X20_stream_until_done (env : Env) (resp : HTTPResponse) (model : string)
  (lines1 lines2 : list string) (last : string) :
  Forall (fun line => scannable line = true) (lines1 ++ last :: lines2) ->
  Forall (fun line => dropCR line <> done_line) lines1 ->
  dropCR last = done_line ->
  RespBody resp = inl (lines_text (lines1 ++ last :: lines2)) ->
  Body_ (streamResponse env resp model)
  = StreamBody (stream_lines env model (map dropCR lines1)
                ++ [RawChunk (done_line +:+ LF +:+ LF)]) /\
  length (stream_lines env model (map dropCR lines1)) = length lines1.
Proof.
  intros Hlf Hnd Hlast Hbody. unfold streamResponse. cbn [Body_]. rewrite Hbody.
  rewrite (scan_lines_text _ Hlf), map_app. cbn [map]. rewrite Hlast.
  assert (H : Forall (fun line => line <> done_line) (map dropCR lines1)).
  { apply List.Forall_forall. intros x Hx. apply in_map_iff in Hx as (l & <- & Hl).
    rewrite List.Forall_forall in Hnd. apply Hnd. exact Hl. }
  destruct (stream_lines_done env model _ (map dropCR lines2) H) as [E1 E2].
  rewrite E1, E2, length_map. auto.
Qed.

Lemma X20_stream_until_done_witness :
  Body_ (streamResponse s5_env
           (mkHTTP 200 []
              (inl (lines_text ["data: chunk"; ""; "data: [DONE]"; ""; "data: late"])))
           "gpt-4")
  = StreamBody
      (stream_lines s5_env "gpt-4" (map dropCR ["data: chunk"; ""])
       ++ [RawChunk (done_line +:+ LF +:+ LF)]).
Proof.
  apply (X20_stream_until_done s5_env
           (mkHTTP 200 []
              (inl (lines_text ["data: chunk"; ""; "data: [DONE]"; ""; "data: late"])))
           "gpt-4" ["data: chunk"; ""] [""; "data: late"] "data: [DONE]").
  - repeat constructor.
  - repeat constructor; discriminate.
  - reflexivity.
  - reflexivity.
Defined.

Lemma set_header_other (h : gmap string string) (k key value : string) :
  k <> key -> set_header h k value !! key = h !! key.
Proof.
  intros Hne. unfold set_header. destruct (String.eqb value "").
  - apply lookup_delete_ne. exact Hne.
  - apply lookup_insert_ne. exact Hne.
Qed.

Lemma copy_headers_frame (keep : string -> bool) (hdr : list (string * list string))
  (h : gmap string string) (key : string) :
  keep key = false -> copy_headers keep hdr h !! key = h !! key.
Proof.
  intros Hk. unfold copy_headers. revert h.
  induction hdr as [|kv hdr IH]; intros h; [reflexivity|].
  cbn [fold_left]. rewrite IH. destruct (keep (fst kv)) eqn:E; [|reflexivity].
  assert (Hne : fst kv <> key) by (intros <-; congruence).
  generalize (snd kv). intros values. revert h.
  induction values as [|v values IHv]; intros h; [reflexivity|].
  cbn [fold_left]. rewrite IHv. apply set_header_other. exact Hne.
Qed.

(** X21.  Whatever headers upstream sends, a streamed response goes out
    with the status upstream answered and with [Content-Type:
    text/event-stream], [Cache-Control: no-cache] and [Connection:
    keep-alive]: no upstream header replaces or removes these three. *)
Theorem X21_stream_headers (env : Env) (resp : HTTPResponse) (model : string) :
  Code (streamResponse env resp model) = RespStatus resp /\
  Header (streamResponse env resp model) !! "Content-Type" = Some "text/event-stream" /\
  Header (streamResponse env resp model) !! "Cache-Control" = Some "no-cache" /\
  Header (streamResponse env resp model) !! "Connection" = Some "keep-alive".
Proof.
  unfold streamResponse. cbn [Code Header].
  split; [reflexivity|].
  split; [|split]; rewrite copy_headers_frame by reflexivity;
    repeat (rewrite lookup_insert_ne by discriminate);
    first [apply lookup_insert_eq | apply lookup_singleton_eq].
Qed.

Lemma transform_without_model (estimate : TokenEstimator) (endpoint : string)
  (payload : gmap string Value) (deploymentName : string) :
  model_of payload = "" ->
  TransformOpenAIToAzure estimate endpoint payload deploymentName
  = Error "model name is required".
Proof.
  unfold model_of, TransformOpenAIToAzure.
  destruct (payload !! "model") as [v|]; [|reflexivity].
  destruct v; try reflexivity. intros ->. reflexivity.
Qed.

(** X22.  A request without a model is never relayed and never answered
    as a client error.  When the payload's [model] is missing, is not a
    string or is empty, validation does not object; the dispatcher then
    answers 503 "no suitable instance available" or, should an instance
    list the empty model, 500 "request transformation failed" (or 500
    "failed to get instance config", or it panics in selection): whatever
    upstream would have said plays no part, and the state store is left
    as it was. *)
Theorem X22_request_without_model (env : Env) (m : Manager) (now : Z) (w : World)
  (endpoint : string) (payload : gmap string Value) :
  model_of payload = "" ->
  ValidateRequest endpoint payload = None ->
  let out := handleProxyRequest env m now w endpoint (inl payload) in
  (fst out = Panicked \/
   exists e,
     fst out = Responded (sendErrorResponse e) /\
     ((StatusCode e = 503 /\ Message e = "no suitable instance available") \/
      (StatusCode e = 500 /\ Message e = "failed to get instance config") \/
      (StatusCode e = 500 /\ Message e = "request transformation failed"))) /\
  store (snd out) = store w.
Proof.
  intros Hm Hv. cbv zeta. unfold handleProxyRequest. rewrite Hv.
  fold (model_of payload).
  pose proof (selection_frame (pdqsort env) (intn env) m now w (model_of payload) 0 "azure")
    as [S1 _].
  unfold SelectInstance.
  destruct (SelectInstanceForRequest _ _ m now w _ 0 "azure") as [[name|e|] w1];
    cbn [snd] in S1.
  - destruct (GetInstanceConfig m name) as [cfg|].
    + rewrite (transform_without_model _ _ _ _ Hm). cbn [fst snd].
      split; [|exact S1]. right. eexists. split; [reflexivity|]. auto.
    + cbn [fst snd]. split; [|exact S1]. right. eexists. split; [reflexivity|]. auto.
  - cbn [fst snd]. split; [|exact S1]. right. eexists. split; [reflexivity|]. auto.
  - cbn [fst snd]. split; [|exact S1]. left. reflexivity.
Qed.

Lemma X22_request_without_model_witness :
  store (snd (handleProxyRequest s5_env (NewManager two_configs "failover") 0 empty_world
                "/v1/completions" (inl {[ "prompt" := VString "hi" ]})))
  = store empty_world.
Proof.
  pose proof (X22_request_without_model s5_env (NewManager two_configs "failover") 0
                empty_world "/v1/completions" {[ "prompt" := VString "hi" ]}
                eq_refl eq_refl) as H.
  cbv zeta in H. destruct H as [_ H]. exact H.
Defined.

(* --------------------------------------------------------------------- *)
(** ** The token estimator *)
(* --------------------------------------------------------------------- *)

Lemma shift_add (d : Z) : shift (fun c => add64 c d).
Proof. right. exists d. reflexivity. Qed.

Lemma shift_compose (f g : Z -> Z) : shift f -> shift g -> shift (fun c => g (f c)).
Proof.
  intros [Hf|[d Hf]] [Hg|[d' Hg]].
  - left. intros c. rewrite Hg, Hf. reflexivity.
  - right. exists d'. intros c. rewrite Hg, Hf. reflexivity.
  - right. exists d. intros c. rewrite Hg, Hf. reflexivity.
  - right. exists (d + d'). intros c. rewrite Hg, Hf, wrap64_add_l. f_equal. lia.
Qed.

Lemma shift_commute (f g : Z -> Z) : shift f -> shift g -> forall c, g (f c) = f (g c).
Proof.
  intros [Hf|[d Hf]] [Hg|[d' Hg]] c; rewrite ?Hf, ?Hg, ?Hf; try reflexivity.
  rewrite !wrap64_add_l. f_equal. lia.
Qed.

Lemma shift_fold {A : Type} (f : Z -> A -> Z) (l : list A) :
  (forall a, shift (fun c => f c a)) -> shift (fun c => fold_left f l c).
Proof.
  intros H. induction l as [|a l IH]; [left; reflexivity|].
  cbn [fold_left]. apply (shift_compose (fun c => f c a) (fun c => fold_left f l c)); auto.
Qed.

Lemma content_item_shift (encoder : Tokens.Encoder) (item : Value) :
  shift (fun c => Tokens.content_item_tokens encoder c item).
Proof.
  unfold Tokens.content_item_tokens. destruct item; try (left; reflexivity).
  - apply shift_add.
  - set (text := fun c : Z =>
                   match m !! "text" with
                   | Some (VString text) => add64 c (Tokens.tokens_of encoder text)
                   | _ => c
                   end).
    assert (Ht : shift text).
    { subst text. destruct (m !! "text") as [v|]; [|left; reflexivity].
      destruct v; try (left; reflexivity). apply shift_add. }
    destruct (m !! "type") as [v|]; [|exact Ht].
    destruct v; try exact Ht.
    destruct (String.eqb s "image_url"); [|exact Ht].
    assert (Hi : shift (fun c => add64 (text c) 85))
      by (apply (shift_compose text (fun c => add64 c 85)); [exact Ht | apply shift_add]).
    destruct (m !! "detail") as [v|]; [|exact Hi].
    destruct v; try exact Hi.
    destruct (String.eqb s0 "high"); [|exact Hi].
    apply (shift_compose (fun c => add64 (text c) 85) (fun c => add64 c 170));
      [exact Hi | apply shift_add].
Qed.

Lemma field_shift (encoder : Tokens.Encoder) (kv : string * Value) :
  shift (fun c => Tokens.field_tokens encoder c kv).
Proof.
  unfold Tokens.field_tokens. destruct (String.eqb (fst kv) "content").
  - destruct (snd kv); try (left; reflexivity); [apply shift_add|].
    apply shift_fold. apply content_item_shift.
  - destruct (snd kv); try (left; reflexivity). apply shift_add.
Qed.

Lemma fold_left_permutation {A : Type} (f : Z -> A -> Z) (l1 l2 : list A) :
  (forall c a b, f (f c a) b = f (f c b) a) ->
  Permutation l1 l2 -> forall c, fold_left f l1 c = fold_left f l2 c.
Proof.
  intros Hc. induction 1 as [|x l1 l2 _ IH|x y l|l1 l2 l3 _ IH1 _ IH2]; intros c.
  - reflexivity.
  - cbn [fold_left]. apply IH.
  - cbn [fold_left]. rewrite Hc. reflexivity.
  - rewrite IH1. apply IH2.
Qed.

Lemma fold_left_pointwise {A : Type} (f g : Z -> A -> Z) (l : list A) :
  Forall (fun a => forall c, f c a = g c a) l ->
  forall c, fold_left f l c = fold_left g l c.
Proof.
  induction 1 as [|a l Ha _ IH]; intros c; [reflexivity|].
  cbn [fold_left]. rewrite Ha. apply IH.
Qed.

(** X23.  The chat estimate does not depend on the order in which Go walks
    the fields of a message: two walks that visit the same entries give
    the same token count for the same messages and the same cache, as long
    as the function schemas, whose text is put together in walk order,
    read the same under both.  With no functions this is every request. *)
Theorem X23_chat_estimate_walk_order (tiktoken : Tokens.Tiktoken)
  (range1 range2 : gmap string Value -> list (string * Value))
  (encoders : gmap string Tokens.Encoder)
  (messages functions : list (gmap string Value)) (model provider : string) :
  same_entries range1 range2 ->
  Forall (fun function => Tokens.stringifyFunction range1 function
                          = Tokens.stringifyFunction range2 function) functions ->
  Tokens.EstimateChatTokens tiktoken range1 encoders messages functions model provider
  = Tokens.EstimateChatTokens tiktoken range2 encoders messages functions model provider.
Proof.
  intros Hr Hf. unfold Tokens.EstimateChatTokens.
  destruct (Tokens.GetEncoderForModel tiktoken encoders model provider)
    as [[encoder|] encoders']; [|reflexivity].
  set (tpm := if Contains (ToLower model) "gpt-4" then 4 else 3).
  assert (Hm : forall c,
             fold_left (Tokens.message_tokens range1 encoder tpm) messages c
             = fold_left (Tokens.message_tokens range2 encoder tpm) messages c).
  { apply fold_left_pointwise. apply List.Forall_forall. intros message _ c.
    unfold Tokens.message_tokens. apply fold_left_permutation; [|apply Hr].
    intros c0 a b.
    apply (shift_commute (fun c => Tokens.field_tokens encoder c a)
                         (fun c => Tokens.field_tokens encoder c b));
      apply field_shift. }
  assert (Hfn : forall c,
             fold_left (Tokens.function_tokens range1 encoder) functions c
             = fold_left (Tokens.function_tokens range2 encoder) functions c).
  { apply fold_left_pointwise. eapply List.Forall_impl; [|exact Hf].
    intros function E c. unfold Tokens.function_tokens. rewrite E. reflexivity. }
  cbv zeta. rewrite Hm, Hfn. reflexivity.
Qed.

Lemma X23_chat_estimate_walk_order_witness :
  Tokens.EstimateChatTokens
    (Tokens.mkTiktoken (fun _ => Some String.length) (fun _ => None))
    walk_up ∅
    [<["role" := VString "user"]> {[ "content" := VString "hello" ]}] [] "gpt-4" "azure"
  = Tokens.EstimateChatTokens
      (Tokens.mkTiktoken (fun _ => Some String.length) (fun _ => None))
      walk_down ∅
      [<["role" := VString "user"]> {[ "content" := VString "hello" ]}] [] "gpt-4" "azure".
Proof.
  apply X23_chat_estimate_walk_order.
  - intros m. apply Permutation_rev.
  - constructor.
Defined.

(** X24.  The encoder cache is keyed by the model name as given and by
    nothing else.  A successful look-up leaves the encoder cached under
    the model and touches no other entry; from then on the same encoder is
    returned for that model whatever the provider asked for and whatever
    the tiktoken library would now answer, and the cache stays as it is.
    A failed look-up caches nothing. *)
Theorem X24_encoder_cache (tiktoken tiktoken' : Tokens.Tiktoken)
  (encoders : gmap string Tokens.Encoder) (model provider provider' : string) :
  let r := Tokens.GetEncoderForModel tiktoken encoders model provider in
  (forall encoder, fst r = Some encoder ->
     snd r !! model = Some encoder /\
     (forall other, other <> model -> snd r !! other = encoders !! other) /\
     Tokens.GetEncoderForModel tiktoken' (snd r) model provider' = (Some encoder, snd r)) /\
  (fst r = None -> snd r = encoders /\ encoders !! model = None).
Proof.
  cbv zeta.
  assert (K : forall encoder,
             <[model := encoder]> encoders !! model = Some encoder /\
             (forall other, other <> model ->
                <[model := encoder]> encoders !! other = encoders !! other) /\
             Tokens.GetEncoderForModel tiktoken' (<[model := encoder]> encoders)
               model provider'
             = (Some encoder, <[model := encoder]> encoders)).
  { intros encoder. split; [apply lookup_insert_eq|]. split.
    - intros other Hne. apply lookup_insert_ne. congruence.
    - unfold Tokens.GetEncoderForModel. rewrite lookup_insert_eq. reflexivity. }
  destruct (Tokens.GetEncoderForModel tiktoken encoders model provider) as [o enc'] eqn:E.
  cbn [fst snd]. unfold Tokens.GetEncoderForModel in E.
  destruct (encoders !! model) as [cached|] eqn:Ec.
  - injection E as <- <-. split; [|discriminate].
    intros encoder [= <-]. split; [exact Ec|]. split; [reflexivity|].
    unfold Tokens.GetEncoderForModel. rewrite Ec. reflexivity.
  - destruct (Tokens.EncodingForModel tiktoken _) as [e1|].
    + injection E as <- <-. split; [|discriminate]. intros encoder [= <-]. apply K.
    + destruct (Tokens.GetEncoding tiktoken "cl100k_base") as [e2|];
        injection E as <- <-.
      * split; [|discriminate]. intros encoder [= <-]. apply K.
      * split; [discriminate|]. auto.
Qed.

Lemma X24_encoder_cache_witness :
  Tokens.GetEncoderForModel (Tokens.mkTiktoken (fun _ => None) (fun _ => None))
    (snd (Tokens.GetEncoderForModel
            (Tokens.mkTiktoken (fun _ => Some String.length) (fun _ => None))
            ∅ "gpt-4" "azure"))
    "gpt-4" "openai"
  = (Some String.length,
     snd (Tokens.GetEncoderForModel
            (Tokens.mkTiktoken (fun _ => Some String.length) (fun _ => None))
            ∅ "gpt-4" "azure")).
Proof.
  pose proof (X24_encoder_cache
                (Tokens.mkTiktoken (fun _ => Some String.length) (fun _ => None))
                (Tokens.mkTiktoken (fun _ => None) (fun _ => None))
                ∅ "gpt-4" "azure" "openai") as H.
  cbv zeta in H. destruct H as [H _].
  destruct (H String.length eq_refl) as (_ & _ & E). exact E.
Defined.

(* --------------------------------------------------------------------- *)
(** ** The limiter of an instance *)
(* --------------------------------------------------------------------- *)

Lemma limiter_fold_lookup (l : list InstanceConfig) (acc : gmap string RateLimiter)
  (n : string) :
  fold_left
    (fun m instance =>
       if Enabled instance && RateLimitEnabled instance then
         <[Name instance :=
             NewRateLimiter (Name instance) (MaxTPM instance) (MaxInputTokens instance)]> m
       else m) l acc !! n
  = match List.find (fun c => Enabled c && RateLimitEnabled c && String.eqb (Name c) n)
            (rev l) with
    | Some c => Some (NewRateLimiter (Name c) (MaxTPM c) (MaxInputTokens c))
    | None => acc !! n
    end.
Proof.
  induction l as [|c l IH] using rev_ind; [reflexivity|].
  rewrite fold_left_app, rev_app_distr. cbn [fold_left rev app List.find].
  destruct (Enabled c && RateLimitEnabled c); cbn [andb]; [|exact IH].
  destruct (String.eqb_spec (Name c) n) as [<-|Hne].
  - rewrite lookup_insert_eq. reflexivity.
  - rewrite lookup_insert_ne by exact Hne. exact IH.
Qed.

(** X25.  Which limiter an instance gets.  With distinct instance names,
    [NewManager] gives an instance that is enabled with rate limiting
    enabled a limiter with the instance's own [max_tpm] and
    [max_input_tokens], a window of sixty seconds and the key
    [instance:rate_limit:window:<name>]; any other instance gets none, and
    for it [CheckRateLimit] admits every request without touching the
    limiter store and [UpdateUsage] records nothing. *)
Theorem X25_instance_limiter (cfgs : list InstanceConfig) (strategy : string)
  (now : Z) (w : World) (cfg : InstanceConfig) (tokens : Z) :
  In cfg cfgs -> List.NoDup (map Name cfgs) ->
  let m := NewManager cfgs strategy in
  (Enabled cfg && RateLimitEnabled cfg = true ->
   rateLimiters m !! Name cfg
   = Some (mkRateLimiter (Name cfg) (MaxTPM cfg) (MaxInputTokens cfg) 60
             ("instance:rate_limit:window:" +:+ Name cfg))) /\
  (Enabled cfg && RateLimitEnabled cfg = false ->
   rateLimiters m !! Name cfg = None /\
   fst (CheckRateLimit m now w (Name cfg) tokens) = (true, None) /\
   redis (snd (CheckRateLimit m now w (Name cfg) tokens)) = redis w /\
   Instance.UpdateUsage m now w (Name cfg) tokens = (None, w)).
Proof.
  intros Hin Hnd m.
  assert (L : rateLimiters m !! Name cfg
              = if Enabled cfg && RateLimitEnabled cfg
                then Some (NewRateLimiter (Name cfg) (MaxTPM cfg) (MaxInputTokens cfg))
                else None).
  { subst m. unfold NewManager. cbn [rateLimiters]. rewrite limiter_fold_lookup.
    destruct (List.find _ (rev cfgs)) as [c|] eqn:Ef.
    - apply find_some in Ef as [Hc He]. rewrite <- in_rev in Hc.
      apply andb_prop in He as [He Hn]. apply String.eqb_eq in Hn.
      rewrite (NoDup_name_inj cfgs c cfg Hnd Hc Hin Hn) in *. rewrite He. reflexivity.
    - rewrite in_rev in Hin. apply (find_none _ _ Ef) in Hin. cbn beta in Hin.
      rewrite String.eqb_refl, andb_true_r in Hin. rewrite Hin. apply lookup_empty. }
  split; intros He; rewrite He in L.
  - exact L.
  - split; [exact L|]. unfold CheckRateLimit, Instance.UpdateUsage. rewrite L.
    cbn [fst snd redis]. auto.
Qed.

Lemma X25_instance_limiter_witness :
  rateLimiters (NewManager two_configs "failover") !! "B"
  = Some (mkRateLimiter "B" 60000 0 60 "instance:rate_limit:window:B").
Proof.
  pose proof (X25_instance_limiter two_configs "failover" 0 empty_world
                (example_config "B" 1 3) 0) as H.
  cbv zeta in H.
  assert (Hnd : List.NoDup (map Name two_configs)).
  { constructor; [simpl; intros [E|[]]; discriminate E|].
    constructor; [simpl; intros []|constructor]. }
  destruct (H (or_intror (or_introl eq_refl)) Hnd) as [H1 _].
  exact (H1 eq_refl).
Defined.

(* --------------------------------------------------------------------- *)
(** ** The error response and the waiting time *)
(* --------------------------------------------------------------------- *)

(** X26.  What [sendErrorResponse] writes.  The response has the status of
    the error and a JSON content type.  It carries a [Retry-After] header
    exactly when [GetRetryAfter] is positive, and the header's text is
    then the decimal numeral of that number: a non-empty string of digits
    that [Atoi] reads back to it.  [GetRetryAfter] is the integer held
    under [retry_after] in the details. *)
Theorem X26_error_response (e : ProxyError) :
  let r := sendErrorResponse e in
  Code r = StatusCode e /\
  Header r !! "Content-Type" = Some "application/json; charset=utf-8" /\
  (0 < GetRetryAfter e -> in_int64 (GetRetryAfter e) = true ->
   exists text, Header r !! "Retry-After" = Some text /\
                Atoi text = Some (GetRetryAfter e)) /\
  (GetRetryAfter e <= 0 -> Header r !! "Retry-After" = None) /\
  (forall d n, Details e = Some d -> d !! "retry_after" = Some (VInt n) ->
               GetRetryAfter e = n).
Proof.
  cbv zeta. unfold sendErrorResponse, JSON_. cbn [Code Header].
  split; [reflexivity|].
  destruct (pretty_Z_shape (GetRetryAfter e)) as (ds & Hne & Hall & Hp & E).
  assert (Hh : forall h : gmap string string,
             h !! "Content-Type" = None ->
             writeContentType h "application/json; charset=utf-8" !! "Content-Type"
             = Some "application/json; charset=utf-8" /\
             writeContentType h "application/json; charset=utf-8" !! "Retry-After"
             = h !! "Retry-After").
  { intros h Hc. unfold writeContentType. rewrite Hc.
    split; [apply lookup_insert_eq | apply lookup_insert_ne; discriminate]. }
  destruct (Z.ltb_spec 0 (GetRetryAfter e)) as [Hpos|Hle].
  - destruct (Z.ltb_spec (GetRetryAfter e) 0) as [|_]; [lia|].
    assert (Hs : set_header ∅ "Retry-After" (pretty (GetRetryAfter e))
                 = <["Retry-After" := ds]> ∅).
    { unfold set_header. rewrite E.
      destruct (String.eqb_spec ds "") as [->|_]; [contradiction | reflexivity]. }
    rewrite Hs.
    destruct (Hh (<["Retry-After" := ds]> ∅)
                ltac:(rewrite lookup_insert_ne by discriminate; apply lookup_empty))
      as [H1 H2].
    split; [exact H1|]. split; [|split].
    + intros _ Hr. exists ds. rewrite H2, lookup_insert_eq. split; [reflexivity|].
      destruct (Atoi_digits ds (Z.abs (GetRetryAfter e)) Hne Hall Hp) as [Ha _].
      rewrite Z.abs_eq in Ha by lia. rewrite Hr in Ha. exact Ha.
    + intros H. lia.
    + intros d n Hd Hn. unfold GetRetryAfter. rewrite Hd, Hn. reflexivity.
  - destruct (Hh ∅ (lookup_empty _)) as [H1 H2].
    split; [exact H1|]. split; [intros H; lia|]. split.
    + intros _. rewrite H2. apply lookup_empty.
    + intros d n Hd Hn. unfold GetRetryAfter. rewrite Hd, Hn. reflexivity.
Qed.

Lemma X26_error_response_witness :
  exists text,
    Header (sendErrorResponse
              (NewUpstreamError 0 "rate limit exceeded" 429 {[ "retry_after" := VInt 50 ]}))
    !! "Retry-After" = Some text /\ Atoi text = Some 50.
Proof.
  pose proof (X26_error_response
                (NewUpstreamError 0 "rate limit exceeded" 429
                   {[ "retry_after" := VInt 50 ]})) as H.
  cbv zeta in H. destruct H as (_ & _ & H & _).
  apply H; reflexivity.
Defined.

Lemma capacity_answer (rl : RateLimiter) (now : Z) (r : Redis) (t : Z) :
  let c := fst (CheckCapacity rl now r t) in
  cap_err c = None /\
  (has_capacity c = true -> retry_after c = 0) /\
  (has_capacity c = false -> 1 <= retry_after c).
Proof.
  cbv zeta. unfold CheckCapacity.
  destruct ((0 <? maxInputTokens rl) && (maxInputTokens rl <? t)); cbn [fst];
    [cbn; repeat split; [discriminate | lia]|].
  destruct (pipeline_exec r (redisKey rl) (sub64 now (windowSeconds rl))) as [[entries|] r'];
    [|cbn; repeat split; discriminate].
  destruct (fold_left capacity_step entries (0, now)) as [cu ot].
  destruct (tokensPerMinute rl <? add64 cu t); cbn [fst has_capacity retry_after cap_err];
    [|repeat split; discriminate].
  split; [reflexivity|]. split; [discriminate|]. intros _.
  destruct (Z.ltb_spec (sub64 ot (sub64 now (windowSeconds rl))) 1); lia.
Qed.

Lemma pipeline_exec_again (r : Redis) (key : string) (cutoff : Z) :
  pipeline_exec (snd (pipeline_exec r key cutoff)) key cutoff = pipeline_exec r key cutoff.
Proof.
  unfold pipeline_exec. destruct (fault r) eqn:Ef; cbn [snd fault]; rewrite ?Ef;
    [| reflexivity |];
    rewrite zset_insert, decide_True by reflexivity;
    rewrite ZRemRangeByScore_idem; cbn [zsets]; rewrite insert_insert_eq; reflexivity.
Qed.

(** X27.  Asking the limiter does not change its answer.  A second
    [CheckCapacity] at the same time for the same tokens answers as the
    first and leaves the store as the first left it.  [IsRateLimited] and
    [GetTimeUntilAvailable] never return an error; the first says
    "limited" exactly when [CheckCapacity] denies, and the second then
    gives a wait of at least one second, and zero when it admits. *)
Theorem X27_limited_and_wait (rl : RateLimiter) (now : Z) (r : Redis) (t : Z) :
  let c := CheckCapacity rl now r t in
  CheckCapacity rl now (snd c) t = c /\
  IsRateLimited rl now r t = (inl (negb (has_capacity (fst c))), snd c) /\
  exists wait,
    GetTimeUntilAvailable rl now r t = (inl wait, snd c) /\
    (has_capacity (fst c) = true -> wait = 0) /\
    (has_capacity (fst c) = false -> 1 <= wait /\ wait = retry_after (fst c)).
Proof.
  cbv zeta. split; [|split].
  - destruct (CheckCapacity rl now r t) as [c r'] eqn:E. cbn [snd].
    unfold CheckCapacity in *.
    destruct ((0 <? maxInputTokens rl) && (maxInputTokens rl <? t)) eqn:Ei.
    + injection E as <- <-. reflexivity.
    + pose proof (pipeline_exec_again r (redisKey rl) (sub64 now (windowSeconds rl))) as A.
      destruct (pipeline_exec r (redisKey rl) (sub64 now (windowSeconds rl)))
        as [[entries|] r1] eqn:Ep; cbn [snd] in A.
      * destruct (fold_left capacity_step entries (0, now)) as [cu ot] eqn:Ef.
        destruct (tokensPerMinute rl <? add64 cu t) eqn:Et;
          injection E as <- <-; rewrite A, Ef, Et; reflexivity.
      * injection E as <- <-. rewrite A. reflexivity.
  - pose proof (capacity_answer rl now r t) as (He & _). cbv zeta in He.
    unfold IsRateLimited. destruct (CheckCapacity rl now r t) as [c r'].
    cbn [fst snd] in *. rewrite He. reflexivity.
  - pose proof (capacity_answer rl now r t) as (He & Ha & Hd). cbv zeta in He, Ha, Hd.
    unfold GetTimeUntilAvailable. destruct (CheckCapacity rl now r t) as [c r'].
    cbn [fst snd] in *. rewrite He.
    destruct (has_capacity c).
    + exists 0. split; [reflexivity|]. split; [reflexivity | discriminate].
    + exists (retry_after c). split; [reflexivity|]. split; [discriminate|].
      intros _. split; [apply Hd; reflexivity | reflexivity].
Qed.

Lemma X27_limited_and_wait_witness :
  exists wait,
    fst (GetTimeUntilAvailable (NewRateLimiter "A" 100 0) 1000 (redis s2_world) 20)
    = inl wait /\ 1 <= wait.
Proof.
  pose proof (X27_limited_and_wait (NewRateLimiter "A" 100 0) 1000 (redis s2_world) 20)
    as H.
  cbv zeta in H. destruct H as (_ & _ & wait & E & _ & Hd).
  exists wait. rewrite E. split; [reflexivity|].
  apply Hd. vm_compute. reflexivity.
Defined.

(* --------------------------------------------------------------------- *)
(** ** Usage statistics *)
(* --------------------------------------------------------------------- *)

Lemma slot_sum_insert (slots : gmap Z Z) (k v : Z) :
  slot_sum (<[k := v]> slots) = v + slot_sum (delete k slots).
Proof.
  unfold slot_sum. rewrite <- insert_delete_eq.
  apply (map_fold_insert_L (fun _ tokens acc => tokens + acc)).
  - intros. lia.
  - apply lookup_delete_eq.
Qed.

Lemma slot_sum_lookup (slots : gmap Z Z) (k : Z) :
  slot_sum slots = default 0 (slots !! k) + slot_sum (delete k slots).
Proof.
  destruct (slots !! k) as [v|] eqn:E.
  - unfold slot_sum. apply (map_fold_delete_L (fun _ tokens acc => tokens + acc)).
    + intros. lia.
    + exact E.
  - rewrite delete_id by exact E. reflexivity.
Qed.

Lemma stats_loop (w : list ZEntry) (total : Z) (slots : gmap Z Z) :
  total = wrap64 (slot_sum slots) ->
  let r := fold_left stats_step w (total, slots) in
  fst r = wrap64 (slot_sum (snd r)) /\
  fst r = fold_left current_usage_step w total.
Proof.
  revert total slots. induction w as [|e w IH]; intros total slots H; [split; auto|].
  cbv zeta. cbn [fold_left].
  destruct (Atoi (before_colon (Member e))) as [tokens|] eqn:Ea.
  - set (k := mul64 (Z.quot (Score e) 10) 10).
    assert (S1 : stats_step (total, slots) e
                 = (add64 total tokens,
                    <[k := add64 (default 0 (slots !! k)) tokens]> slots))
      by (unfold stats_step; rewrite Ea; reflexivity).
    assert (C1 : current_usage_step total e = add64 total tokens)
      by (unfold current_usage_step; rewrite Ea; reflexivity).
    rewrite S1, C1. apply IH.
    rewrite slot_sum_insert. rewrite (slot_sum_lookup slots k) in H.
    unfold add64. rewrite H, !wrap64_add_l. f_equal. lia.
  - assert (S1 : stats_step (total, slots) e = (total, slots))
      by (unfold stats_step; rewrite Ea; reflexivity).
    assert (C1 : current_usage_step total e = total)
      by (unfold current_usage_step; rewrite Ea; reflexivity).
    rewrite S1, C1. apply IH. exact H.
Qed.

(** X28.  What [GetUsageStats] counts.  It reads the window as stored,
    evicting nothing: [total_tokens] is the usage of all stored entries,
    those past the window included, and [total_requests] their number,
    unparsable members included.  The tokens of the time slots add up to
    [total_tokens] modulo [2^64].  Read right after [GetCurrentUsage], on
    a store that answers, the statistics report the usage [GetCurrentUsage]
    reported. *)
Theorem X28_usage_stats (rl : RateLimiter) (now : Z) (r : Redis) :
  fault r = Healthy ->
  exists stats,
    GetUsageStats rl now r = inl stats /\
    total_tokens stats = fold_left current_usage_step (window_of rl r) 0 /\
    total_requests stats = Z.of_nat (length (window_of rl r)) /\
    total_tokens stats = wrap64 (slot_sum (time_slots stats)) /\
    exists stats',
      GetUsageStats rl now (snd (GetCurrentUsage rl now r)) = inl stats' /\
      fst (GetCurrentUsage rl now r) = inl (total_tokens stats').
Proof.
  intros Hf.
  assert (K : forall r0, fault r0 = Healthy ->
             exists stats,
               GetUsageStats rl now r0 = inl stats /\
               total_tokens stats = fold_left current_usage_step (window_of rl r0) 0 /\
               total_requests stats = Z.of_nat (length (window_of rl r0)) /\
               total_tokens stats = wrap64 (slot_sum (time_slots stats))).
  { intros r0 H0. unfold GetUsageStats, window_of. rewrite H0.
    assert (H00 : 0 = wrap64 (slot_sum ∅))
      by (unfold slot_sum; rewrite map_fold_empty; reflexivity).
    destruct (stats_loop (zset r0 (redisKey rl)) 0 ∅ H00) as [H1 H2].
    destruct (fold_left stats_step (zset r0 (redisKey rl)) (0, ∅)) as [total slots].
    cbn [fst snd] in H1, H2. eexists. split; [reflexivity|].
    cbn [total_tokens total_requests time_slots]. auto. }
  destruct (K r Hf) as (stats & E & H1 & H2 & H3).
  exists stats. split; [exact E|]. split; [exact H1|]. split; [exact H2|].
  split; [exact H3|].
  unfold GetCurrentUsage. rewrite Hf. cbn [fst snd].
  destruct (K (mkRedis (<[redisKey rl := ZRemRangeByScore (sub64 now (windowSeconds rl))
                                         (zset r (redisKey rl))]> (zsets r)) Healthy)
              eq_refl) as (stats' & E' & H1' & _).
  exists stats'. split; [exact E'|]. rewrite H1'. unfold window_of.
  rewrite zset_insert, decide_True by reflexivity. reflexivity.
Qed.

Lemma X28_usage_stats_witness :
  exists stats,
    GetUsageStats (NewRateLimiter "A" 100 0) 1000 stale_redis = inl stats /\
    total_tokens stats = 90 /\
    fst (GetCurrentUsage (NewRateLimiter "A" 100 0) 1000 stale_redis) = inl 20.
Proof.
  destruct (X28_usage_stats (NewRateLimiter "A" 100 0) 1000 stale_redis eq_refl)
    as (stats & E & H1 & _).
  exists stats. split; [exact E|]. split; [rewrite H1; reflexivity | reflexivity].
Defined.

(* --------------------------------------------------------------------- *)
(** ** A relayed answer is accounted *)
(* --------------------------------------------------------------------- *)




(* --------------------------------------------------------------------- *)
(** ** The dispatcher does not panic *)
(* --------------------------------------------------------------------- *)





